(** * gineco-termux: storage and security core

    A shallow embedding of [src/security.js] and [src/database.js]:
    the cipher envelope ([encryptData] / [decryptData]), the PIN format
    check, the session manager and the per-user record store.

    JavaScript strings are represented by Rocq [string]s (the UTF-8 bytes
    of the text); objects used as dictionaries are [gmap]s keyed by
    property name; the functions Node provides natively (AES-256-GCM,
    scrypt, [JSON.parse], [Date] parsing) are section variables. *)

From Stdlib Require Import ZArith NArith Lia List Bool.
From Stdlib Require Import Strings.String Strings.Ascii Strings.Byte.
From Stdlib Require Import DecimalString.
From stdpp Require Import gmap strings list.

Local Open Scope string_scope.

(** ** Results of fallible JavaScript code *)

(** A call either returns a value or throws; only the message of the thrown
    [Error] is kept. *)
Inductive result (A : Type) : Type :=
| Ok (a : A)
| Throw (message : string).
Arguments Ok {A} a.
Arguments Throw {A} message.

Definition rbind {A B} (r : result A) (k : A -> result B) : result B :=
  match r with
  | Ok a => k a
  | Throw m => Throw m
  end.

Notation "'do' x <- r ; k" := (rbind r (fun x => k))
  (at level 10, x name, r at level 100, k at level 200).

(** [try { body } catch (error) { throw new Error(msg) }] *)
Definition rethrow {A} (msg : string) (r : result A) : result A :=
  match r with
  | Ok a => Ok a
  | Throw _ => Throw msg
  end.

Definition of_option {A} (msg : string) (o : option A) : result A :=
  match o with
  | Some a => Ok a
  | None => Throw msg
  end.

(** ** Base64 as Node's [Buffer] implements it *)

Module Base64.

Definition alphabet : list ascii :=
  list_ascii_of_string
    "ABCDEFGHIJKLMNOPQRSTUVWXYZabcdefghijklmnopqrstuvwxyz0123456789+/".

Definition pad : ascii := "="%char.

(** The character of a 6-bit value. *)
Definition char_of (v : N) : ascii := nth (N.to_nat v) alphabet pad.

(** [unbase64]: the 6-bit value of a character, [None] for a character
    outside the alphabet.  The decoder also accepts the URL-safe
    spellings [-] and [_] of 62 and 63. *)
Definition value_of (c : ascii) : option N :=
  let n := N_of_ascii c in
  if (65 <=? n)%N && (n <=? 90)%N then Some (n - 65)%N
  else if (97 <=? n)%N && (n <=? 122)%N then Some (n - 71)%N
  else if (48 <=? n)%N && (n <=? 57)%N then Some (n + 4)%N
  else if (n =? 43)%N || (n =? 45)%N then Some 62%N
  else if (n =? 47)%N || (n =? 95)%N then Some 63%N
  else None.

Definition byte_of (n : N) : byte :=
  match Byte.of_N n with
  | Some b => b
  | None => x00
  end.

(** [buf.toString('base64')]: three octets give four characters, a last
    group of one or two octets is padded with [=]. *)
Fixpoint encode_chars (bs : list byte) : list ascii :=
  match bs with
  | [] => []
  | [b0] =>
      let n0 := Byte.to_N b0 in
      [char_of (n0 / 4); char_of ((n0 mod 4) * 16); pad; pad]
  | [b0; b1] =>
      let n0 := Byte.to_N b0 in
      let n1 := Byte.to_N b1 in
      [char_of (n0 / 4); char_of ((n0 mod 4) * 16 + n1 / 16);
       char_of ((n1 mod 16) * 4); pad]
  | b0 :: b1 :: b2 :: rest =>
      let n0 := Byte.to_N b0 in
      let n1 := Byte.to_N b1 in
      let n2 := Byte.to_N b2 in
      char_of (n0 / 4) :: char_of ((n0 mod 4) * 16 + n1 / 16)
        :: char_of ((n1 mod 16) * 4 + n2 / 64) :: char_of (n2 mod 64)
        :: encode_chars rest
  end%N.

Definition encode (bs : list byte) : string :=
  string_of_list_ascii (encode_chars bs).

(** The decoder reads legal characters, skips every other character and
    stops at the first [=]. *)
Fixpoint values (cs : list ascii) : list N :=
  match cs with
  | [] => []
  | c :: cs' =>
      match value_of c with
      | Some v => v :: values cs'
      | None => if Ascii.eqb c pad then [] else values cs'
      end
  end.

(** An octet is emitted as soon as its eight bits are read; the bits left
    over in a last partial group are dropped, whatever their value. *)
Fixpoint octets (vs : list N) : list byte :=
  match vs with
  | v0 :: v1 :: v2 :: v3 :: rest =>
      byte_of (v0 * 4 + v1 / 16) :: byte_of ((v1 mod 16) * 16 + v2 / 4)
        :: byte_of ((v2 mod 4) * 64 + v3) :: octets rest
  | [v0; v1; v2] =>
      [byte_of (v0 * 4 + v1 / 16); byte_of ((v1 mod 16) * 16 + v2 / 4)]
  | [v0; v1] => [byte_of (v0 * 4 + v1 / 16)]
  | _ => []
  end%N.

(** [Buffer.from(s, 'base64')]; it never throws. *)
Definition decode (s : string) : list byte :=
  octets (values (list_ascii_of_string s)).

End Base64.

(** ** Bits of octets and characters *)

(** The octet [b] with bit [j] (0 is the least significant) inverted. *)
Definition flip_byte (j : N) (b : byte) : byte :=
  Base64.byte_of (N.lxor (Byte.to_N b) (2 ^ j)).

Definition flip_char (j : N) (c : ascii) : ascii :=
  ascii_of_N (N.lxor (N_of_ascii c) (2 ^ j)).

(** [flip_at f i l]: [l] with [f] applied to the element at index [i];
    [None] when [i] is out of range. *)
Fixpoint flip_at {A} (f : A -> A) (i : nat) (l : list A) : option (list A) :=
  match l, i with
  | [], _ => None
  | x :: l', O => Some (f x :: l')
  | x :: l', S i' => option_map (cons x) (flip_at f i' l')
  end.

(** [bs'] is [bs] with exactly one bit inverted. *)
Definition one_bit_flip (bs bs' : list byte) : Prop :=
  exists (i : nat) (j : N), (j < 8)%N /\ flip_at (flip_byte j) i bs = Some bs'.

(** The same on the characters of a string. *)
Definition flip_string_bit (i : nat) (j : N) (s : string) : option string :=
  option_map string_of_list_ascii
    (flip_at (flip_char j) i (list_ascii_of_string s)).

(** ** Numbers and dates as JavaScript prints them *)

Local Open Scope Z_scope.

(** [String(n)] for an integer [n]. *)
Definition dec (z : Z) : string := DecimalString.NilZero.string_of_int (Z.to_int z).

(** [s.padStart(n, '0')] *)
Definition padStart0 (n : nat) (s : string) : string :=
  string_of_list_ascii (repeat "0"%char (n - String.length s)%nat) ++ s.

(** A calendar date, as [getFullYear()], [getMonth() + 1] and [getDate()]
    return its parts. *)
Record civil := { year : Z; month : Z; day : Z }.

(** The proleptic Gregorian date of a day number (days since 1970-01-01),
    which is how [Date] derives the three parts from its time value. *)
Definition civil_from_days (days : Z) : civil :=
  let z := days + 719468 in
  let era := z / 146097 in
  let doe := z - era * 146097 in
  let yoe := (doe - doe / 1460 + doe / 36524 - doe / 146096) / 365 in
  let doy := doe - (365 * yoe + yoe / 4 - yoe / 100) in
  let mp := (5 * doy + 2) / 153 in
  let d := doy - (153 * mp + 2) / 5 + 1 in
  let m := if mp <? 10 then mp + 3 else mp - 9 in
  {| year := yoe + era * 400 + (if m <=? 2 then 1 else 0); month := m; day := d |}.

Definition days_from_civil (c : civil) : Z :=
  let y := year c - (if month c <=? 2 then 1 else 0) in
  let era := y / 400 in
  let yoe := y - era * 400 in
  let mp := if 2 <? month c then month c - 3 else month c + 9 in
  let doy := (153 * mp + 2) / 5 + day c - 1 in
  let doe := yoe * 365 + yoe / 4 - yoe / 100 + doy in
  era * 146097 + doe - 719468.

Definition msPerDay : Z := 86400000.

(** [formatDate(date)] of [database.js], on the parts of the date. *)
Definition formatDate (date : civil) : string :=
  dec (year date) ++ "-" ++ padStart0 2 (dec (month date))
    ++ "-" ++ padStart0 2 (dec (day date)).

(** [new Date(t).toISOString()] for a time value [t] (milliseconds since
    the epoch, UTC) whose year has four digits. *)
Definition toISOString (t : Z) : string :=
  let c := civil_from_days (t / msPerDay) in
  let ms := t mod msPerDay in
  padStart0 4 (dec (year c)) ++ "-" ++ padStart0 2 (dec (month c))
    ++ "-" ++ padStart0 2 (dec (day c))
    ++ "T" ++ padStart0 2 (dec (ms / 3600000))
    ++ ":" ++ padStart0 2 (dec (ms / 60000 mod 60))
    ++ ":" ++ padStart0 2 (dec (ms / 1000 mod 60))
    ++ "." ++ padStart0 3 (dec (ms mod 1000)) ++ "Z".

(** The local calendar day of a time value, for a runtime whose local time
    is [tz] milliseconds ahead of UTC. *)
Definition localDay (tz now : Z) : Z := (now + tz) / msPerDay.

(** The time values of a [Date] lie within 8.64e15 ms of the epoch;
    [TimeClip] makes an Invalid Date, [None], of any other. *)
Definition maxTime : Z := 8640000000000000.

Definition TimeClip (t : Z) : option Z :=
  if Z.abs t <=? maxTime then Some t else None.

(** [date.setDate(date.getDate() - days)] on the Date of time value
    [now]: the same local time of day, [days] days earlier. *)
Definition setDate_back (now days : Z) : option Z :=
  TimeClip (now - days * msPerDay).

(** [formatDate(date)] of [database.js] on a Date: the parts of an
    Invalid Date are all [NaN]. *)
Definition formatDate_of (tz : Z) (date : option Z) : string :=
  match date with
  | Some t => formatDate (civil_from_days (localDay tz t))
  | None => "NaN-NaN-NaN"
  end.

(** A parser for the date-time format [toISOString] prints
    (YYYY-MM-DDTHH:mm:ss.sssZ); any other text is an invalid date.  It is
    the instance of [Date_parse] used in the examples. *)
Definition digit_value (c : ascii) : option Z :=
  let n := Z.of_N (N_of_ascii c) in
  if (48 <=? n) && (n <=? 57) then Some (n - 48) else None.

Fixpoint number_of (acc : Z) (cs : list ascii) : option Z :=
  match cs with
  | [] => Some acc
  | c :: cs' =>
      match digit_value c with
      | Some d => number_of (acc * 10 + d) cs'
      | None => None
      end
  end.

Definition isoDate_parse (s : string) : option Z :=
  match list_ascii_of_string s with
  | [y1; y2; y3; y4; s1; m1; m2; s2; d1; d2; s3; h1; h2; s4; i1; i2; s5;
     e1; e2; s6; f1; f2; f3; s7] =>
      if negb (String.eqb (string_of_list_ascii [s1; s2; s3; s4; s5; s6; s7])
                 "--T::.Z")
      then None
      else
        match number_of 0 [y1; y2; y3; y4], number_of 0 [m1; m2],
              number_of 0 [d1; d2], number_of 0 [h1; h2],
              number_of 0 [i1; i2], number_of 0 [e1; e2],
              number_of 0 [f1; f2; f3] with
        | Some y, Some m, Some d, Some h, Some i, Some e, Some f =>
            if (1 <=? m) && (m <=? 12) && (1 <=? d) && (d <=? 31)
               && (h <=? 23) && (i <=? 59) && (e <=? 59)
            then Some (days_from_civil {| year := y; month := m; day := d |}
                         * msPerDay
                       + h * 3600000 + i * 60000 + e * 1000 + f)
            else None
        | _, _, _, _, _, _, _ => None
        end
  | _ => None
  end.

(** ** Regular expressions, for [isValidPIN] *)

Inductive regex : Type :=
| Void
| Eps
| Class (p : ascii -> bool)
| Cat (r1 r2 : regex)
| Alt (r1 r2 : regex).

Fixpoint nullable (r : regex) : bool :=
  match r with
  | Void => false
  | Eps => true
  | Class _ => false
  | Cat r1 r2 => nullable r1 && nullable r2
  | Alt r1 r2 => nullable r1 || nullable r2
  end.

(** What is left of [r] to match after reading the character [c]. *)
Fixpoint deriv (c : ascii) (r : regex) : regex :=
  match r with
  | Void => Void
  | Eps => Void
  | Class p => if p c then Eps else Void
  | Cat r1 r2 =>
      if nullable r1 then Alt (Cat (deriv c r1) r2) (deriv c r2)
      else Cat (deriv c r1) r2
  | Alt r1 r2 => Alt (deriv c r1) (deriv c r2)
  end.

(** [/^r$/.test(s)]: the whole of [s] matches [r]. *)
Fixpoint anchored_test (r : regex) (s : list ascii) : bool :=
  match s with
  | [] => nullable r
  | c :: s' => anchored_test (deriv c r) s'
  end.

(** [\d]: an ASCII digit. *)
Definition is_digit (c : ascii) : bool :=
  ((48 <=? N_of_ascii c) && (N_of_ascii c <=? 57))%N.

Definition opt (r : regex) : regex := Alt r Eps.

(** [\d{4,6}]: four digits, then at most two more. *)
Definition pin_regex : regex :=
  Cat (Class is_digit) (Cat (Class is_digit) (Cat (Class is_digit)
    (Cat (Class is_digit)
       (opt (Cat (Class is_digit) (opt (Class is_digit))))))).

(** [isValidPIN(pin)] of [security.js]. *)
Definition isValidPIN (pin : string) : bool :=
  anchored_test pin_regex (list_ascii_of_string pin).

(** ** Data model *)

(** The envelope [encryptData] serialises: three base64 texts. *)
Record combined := { iv : string; authTag : string; encrypted : string }.

(** The double quote character. *)
Definition dq : string := String (ascii_of_nat 34) "".

(** [JSON.stringify(combined)]; base64 text needs no escape. *)
Definition JSON_stringify_combined (c : combined) : string :=
  "{" ++ dq ++ "iv" ++ dq ++ ":" ++ dq ++ iv c ++ dq ++ ","
    ++ dq ++ "authTag" ++ dq ++ ":" ++ dq ++ authTag c ++ dq ++ ","
    ++ dq ++ "encrypted" ++ dq ++ ":" ++ dq ++ encrypted c ++ dq ++ "}".

(** What [Buffer.from(value, 'base64')] accepts of a parsed value: a
    string, which it decodes, or an array of octets, which it copies. *)
Inductive source :=
| Text (s : string)
| Octets (bs : list byte).

Definition Buffer_from (v : source) : list byte :=
  match v with
  | Text s => Base64.decode s
  | Octets bs => bs
  end.

(** The envelope as [decryptData] reads it: the values of [iv] and
    [authTag], which [Buffer.from] has accepted, and the value of
    [encrypted] when it is a string. *)
Record envelope_read := {
  r_iv : source;
  r_authTag : source;
  r_encrypted : option string
}.

(** A record is a plain object; its properties hold strings. *)
Abbreviation record := (gmap string string).

Record Metadata := {
  createdAt : option string;
  lastUpdate : option string;
  totalRecords : option Z;
  error : option string
}.

Record UserData := {
  userId : string;
  records : list record;
  metadata : option Metadata
}.

(** One file per path.  A path in [unreadable] exists but reading it
    throws; when [readOnly] is set, writing and unlinking throw. *)
Record FileSystem := {
  files : gmap string string;
  unreadable : gset string;
  readOnly : bool
}.

(** The state the two modules keep or reach: the cached key of
    [security.js] and the disk. *)
Record State := {
  MASTER_KEY : option (list byte);
  fs : FileSystem
}.

Record Session := {
  s_userId : string;
  token : string;
  s_createdAt : Z;
  lastActivity : Z
}.

Record SessionManager := {
  sessions : gmap string Session;
  timeoutMs : Z
}.

(** What the code takes from Node and from its configuration. *)
Class Runtime := {
  (** [process.env.DEVICE_ID] *)
  DEVICE_ID : option string;
  (** [crypto.scryptSync(password, salt, keylen)] *)
  scryptSync : string -> string -> nat -> list byte;
  (** AES-256-GCM under a key and an IV: the ciphertext and the tag;
      [None] when the cipher throws. *)
  gcm_encrypt : list byte -> list byte -> list byte
                -> option (list byte * list byte);
  (** The plaintext of a ciphertext under a key, an IV and a tag; [None]
      when [createDecipheriv], [setAuthTag] or [final] throws. *)
  gcm_decrypt : list byte -> list byte -> list byte -> list byte
                -> option (list byte);
  (** [JSON.parse] of an envelope, as lines 91 to 97 of [security.js]
      see the result; [None] when [JSON.parse], the read of [iv] or of
      [authTag], or [Buffer.from] on either throws. *)
  JSON_parse_combined : string -> option envelope_read;
  (** [JSON.stringify(data, null, 2)] and [JSON.parse] on documents. *)
  JSON_stringify : UserData -> string;
  JSON_parse : string -> option UserData;
  (** The time value of [new Date(text)]; [None] for an invalid date. *)
  Date_parse : string -> option Z;
  (** [crypto.createHash('sha256').update(data).digest('hex')] *)
  sha256_hex : string -> string;
  (** [path.join(__dirname, '../data/users')] *)
  DATA_DIR : string;
  (** Local time minus UTC, in milliseconds: a day at most, either
      way. *)
  tzOffset : Z;
  tzOffset_range : Z.abs tzOffset <= msPerDay
}.

Definition KEY_LENGTH : nat := 32.
Definition IV_LENGTH : nat := 16.

Section Security.
Context `{Runtime}.

(** ** security.js *)

Definition getMasterKey (mk : option (list byte))
  : list byte * option (list byte) :=
  match mk with
  | Some k => (k, mk)
  | None =>
      let identifier :=
        match DEVICE_ID with
        | Some s => if String.eqb s "" then "gyneco-bot-default-key" else s
        | None => "gyneco-bot-default-key"
        end in
      let k := scryptSync identifier "salt" KEY_LENGTH in
      (k, Some k)
  end.

(** [encryptData(plaintext)], with [iv] the value [crypto.randomBytes]
    returns. *)
Definition encryptData (mk : option (list byte)) (iv0 : list byte)
    (plaintext : string) : result string * option (list byte) :=
  let (key, mk') := getMasterKey mk in
  (rethrow "Falha na criptografia"
     (do ct <- of_option "cipher"
                 (gcm_encrypt key iv0 (list_byte_of_string plaintext));
      let c := {| iv := Base64.encode iv0;
                  authTag := Base64.encode (snd ct);
                  encrypted := Base64.encode (fst ct) |} in
      Ok (Base64.encode (list_byte_of_string (JSON_stringify_combined c)))),
   mk').

(** [decryptData(ciphertext)].  The key is fetched once the envelope has
    been parsed and its IV and tag are buffers; [decipher.update] then
    throws on an [encrypted] that is no string. *)
Definition decryptData (mk : option (list byte)) (ciphertext : string)
  : result string * option (list byte) :=
  match JSON_parse_combined
          (string_of_list_byte (Base64.decode ciphertext)) with
  | None => (Throw "Falha na descriptografia", mk)
  | Some c =>
      let (key, mk') := getMasterKey mk in
      (rethrow "Falha na descriptografia"
         (do e <- of_option "update" (r_encrypted c);
          do p <- of_option "auth"
                    (gcm_decrypt key (Buffer_from (r_iv c))
                       (Buffer_from (r_authTag c)) (Base64.decode e));
          Ok (string_of_list_byte p)),
       mk')
  end.

(** [generateSessionToken(userId)], with [random] the hex text of
    [crypto.randomBytes(16)]. *)
Definition generateSessionToken (now : Z) (random : string) (uid : string)
  : string :=
  sha256_hex (uid ++ "-" ++ dec now ++ "-" ++ random).

Definition createSession (m : SessionManager) (now : Z) (random : string)
    (uid : string) : string * SessionManager :=
  let tok := generateSessionToken now random uid in
  let session := {| s_userId := uid; token := tok;
                    s_createdAt := now; lastActivity := now |} in
  (tok, {| sessions := <[uid := session]> (sessions m);
           timeoutMs := timeoutMs m |}).

Definition destroySession (m : SessionManager) (uid : string)
  : SessionManager :=
  {| sessions := delete uid (sessions m); timeoutMs := timeoutMs m |}.

(** [validateSession(userId, token)] at clock reading [now]. *)
Definition validateSession (m : SessionManager) (now : Z)
    (uid tok : string) : bool * SessionManager :=
  match sessions m !! uid with
  | None => (false, m)
  | Some session =>
      if negb (String.eqb (token session) tok) then (false, m)
      else
        let timeSinceActivity := now - lastActivity session in
        if timeoutMs m <? timeSinceActivity
        then (false, destroySession m uid)
        else
          (true,
           {| sessions :=
                <[uid := {| s_userId := s_userId session;
                            token := token session;
                            s_createdAt := s_createdAt session;
                            lastActivity := now |}]> (sessions m);
              timeoutMs := timeoutMs m |})
  end.

Definition updateActivity (m : SessionManager) (now : Z) (uid : string)
  : SessionManager :=
  match sessions m !! uid with
  | None => m
  | Some session =>
      {| sessions :=
           <[uid := {| s_userId := s_userId session;
                       token := token session;
                       s_createdAt := s_createdAt session;
                       lastActivity := now |}]> (sessions m);
         timeoutMs := timeoutMs m |}
  end.

End Security.

Section Database.
Context `{Runtime}.

(** ** database.js *)

(** *** The [fs] calls the module makes *)

Definition existsSync (d : FileSystem) (path : string) : bool :=
  bool_decide (is_Some (files d !! path)).

Definition readFileSync (d : FileSystem) (path : string) : result string :=
  match files d !! path with
  | None => Throw "ENOENT"
  | Some content =>
      if bool_decide (path ∈ unreadable d) then Throw "EACCES" else Ok content
  end.

Definition writeFileSync (d : FileSystem) (path content : string)
  : result FileSystem :=
  if readOnly d then Throw "EROFS"
  else Ok {| files := <[path := content]> (files d);
             unreadable := unreadable d; readOnly := readOnly d |}.

Definition unlinkSync (d : FileSystem) (path : string) : result FileSystem :=
  if readOnly d then Throw "EROFS"
  else
    match files d !! path with
    | None => Throw "ENOENT"
    | Some _ => Ok {| files := delete path (files d);
                      unreadable := unreadable d; readOnly := readOnly d |}
    end.

(** *** Identifiers and paths *)

(** [s.replace(pattern, '')] for a string pattern: the first occurrence
    is removed. *)
Definition remove_first (pattern s : string) : string :=
  match String.index 0 pattern s with
  | None => s
  | Some i =>
      String.substring 0 i s
        ++ String.substring (i + String.length pattern)
             (String.length s - (i + String.length pattern)) s
  end%nat.

(** [s.replace(/[^0-9]/g, '')] *)
Definition digits_only (s : string) : string :=
  string_of_list_ascii (List.filter is_digit (list_ascii_of_string s)).

Definition sanitizePhoneNumber (phoneNumber : string) : string :=
  digits_only (remove_first "@s.whatsapp.net" phoneNumber).

Definition getUserDataPath (uid : string) : string :=
  DATA_DIR ++ "/" ++ sanitizePhoneNumber uid ++ ".json".

(** *** Dates *)

Definition getTodayDate (now : Z) : string :=
  formatDate (civil_from_days (localDay tzOffset now)).

(** [generateRecordId()], with [rnd] the text of
    [Math.random().toString(36).substr(2, 9)]. *)
Definition generateRecordId (now : Z) (rnd : string) : string :=
  dec now ++ "-" ++ rnd.

(** *** Loading and saving *)

(** The document returned when there is no file ([err = None]) or when
    loading failed ([err] is the marker). *)
Definition emptyUserData (now : Z) (uid : string) (err : option string)
  : UserData :=
  {| userId := sanitizePhoneNumber uid;
     records := [];
     metadata := Some {| createdAt := Some (toISOString now);
                         lastUpdate := Some (toISOString now);
                         totalRecords := Some 0;
                         error := err |} |}.

Definition loadFailure : string := "Falha ao carregar dados anteriores".

(** [loadUserData(userId, encrypted)] at clock reading [now]. *)
Definition loadUserData (st : State) (now : Z) (uid : string)
    (enc : bool) : UserData * State :=
  let filePath := getUserDataPath uid in
  if negb (existsSync (fs st) filePath)
  then (emptyUserData now uid None, st)
  else
    match readFileSync (fs st) filePath with
    | Throw _ => (emptyUserData now uid (Some loadFailure), st)
    | Ok fileContent =>
        let (decrypted, mk') :=
          if enc then decryptData (MASTER_KEY st) fileContent
          else (Ok fileContent, MASTER_KEY st) in
        let st' := {| MASTER_KEY := mk'; fs := fs st |} in
        match decrypted with
        | Throw _ => (emptyUserData now uid (Some loadFailure), st')
        | Ok text =>
            match JSON_parse text with
            | None => (emptyUserData now uid (Some loadFailure), st')
            | Some data => (data, st')
            end
        end
    end.

(** The two assignments [saveUserData] makes on [data.metadata]. *)
Definition touchMetadata (now : Z) (data : UserData) : UserData :=
  let m := match metadata data with
           | Some m => m
           | None => {| createdAt := None; lastUpdate := None;
                        totalRecords := None; error := None |}
           end in
  {| userId := userId data;
     records := records data;
     metadata := Some {| createdAt := createdAt m;
                         lastUpdate := Some (toISOString now);
                         totalRecords :=
                           Some (Z.of_nat (List.length (records data)));
                         error := error m |} |}.

(** [saveUserData(userId, data, encrypted)]: the returned boolean, the
    caller's [data] object after the call, and the state.  [iv0] is the
    IV drawn when [encrypted] is set. *)
Definition saveUserData (st : State) (now : Z) (iv0 : list byte)
    (uid : string) (data : UserData) (enc : bool)
  : bool * UserData * State :=
  let filePath := getUserDataPath uid in
  let data' := touchMetadata now data in
  let jsonData := JSON_stringify data' in
  let (payload, mk') :=
    if enc then encryptData (MASTER_KEY st) iv0 jsonData
    else (Ok jsonData, MASTER_KEY st) in
  match do text <- payload; writeFileSync (fs st) filePath text with
  | Ok d => (true, data', {| MASTER_KEY := mk'; fs := d |})
  | Throw _ => (false, data', {| MASTER_KEY := mk'; fs := fs st |})
  end.

(** *** Records *)

(** [{ ...target, ...source }]: the properties of [source] win. *)
Definition spread (target source : record) : record := source ∪ target.

(** [a || b] on strings that may be undefined. *)
Definition or_else (a : option string) (b : string) : string :=
  match a with
  | Some s => if String.eqb s "" then b else s
  | None => b
  end.

(** [{ ...o, key: value }], where an undefined value leaves no property
    in the serialised object. *)
Definition with_property (key : string) (value : option string)
    (o : record) : record :=
  match value with
  | Some v => <[key := v]> o
  | None => o
  end.

(** The object literal of [addRecord]. *)
Definition newRecord (now : Z) (rnd : string) (r : record) : record :=
  spread
    (with_property "content" (r !! "content")
       (<["category" := or_else (r !! "category") "observacao"]>
          (<["date" := or_else (r !! "date") (getTodayDate now)]>
             (<["timestamp" := toISOString now]>
                (<["id" := generateRecordId now rnd]> ∅)))))
    r.

(** [new Date(r.timestamp)] as a number; [None] is NaN. *)
Definition time_of (r : record) : option Z :=
  match r !! "timestamp" with
  | Some text => Date_parse text
  | None => None
  end.

(** The comparator [(a, b) => new Date(b.timestamp) - new Date(a.timestamp)]. *)
Definition compareRecords (a b : record) : option Z :=
  match time_of b, time_of a with
  | Some tb, Some ta => Some (tb - ta)
  | _, _ => None
  end.

(** [comparefn(a, b) > 0]: [a] belongs after [b]; NaN counts as 0. *)
Definition belongs_after {A} (cmp : A -> A -> option Z) (a b : A) : bool :=
  match cmp a b with
  | Some v => 0 <? v
  | None => false
  end.

(** One step of a stable insertion sort: [x], which followed the sorted
    [l], moves left past the elements that belong after it.  The flag
    tells whether [x] reached the front. *)
Fixpoint insert_back {A} (cmp : A -> A -> option Z) (x : A) (l : list A)
  : bool * list A :=
  match l with
  | [] => (true, [x])
  | y :: l' =>
      let (front, r) := insert_back cmp x l' in
      if front
      then if belongs_after cmp y x then (true, x :: y :: l')
           else (false, y :: x :: l')
      else (false, y :: r)
  end.

(** [array.sort(comparefn)]: a stable sort.  Each element in turn is
    inserted into the sorted prefix from its right end.  When the
    comparator is consistent the result is the one stable arrangement.
    When it is not (NaN results), JavaScript leaves the order to the
    engine: V8 looks for the place of an element by bisection and may
    then put it elsewhere than this insertion does; an array in which no
    element belongs after its successor is left as it is by both. *)
Definition sort {A} (cmp : A -> A -> option Z) (l : list A) : list A :=
  fold_left (fun sorted x => snd (insert_back cmp x sorted)) l [].

(** [addRecord(userId, record, encrypted)], with one clock reading
    [now] for the whole call. *)
Definition addRecord (st : State) (now : Z) (rnd : string)
    (iv0 : list byte) (uid : string) (r : record) (enc : bool)
  : bool * State :=
  let (userData, st1) := loadUserData st now uid enc in
  let pushed := (records userData ++ [newRecord now rnd r])%list in
  let sorted := sort compareRecords pushed in
  let userData' := {| userId := userId userData; records := sorted;
                      metadata := metadata userData |} in
  let '(ok, _, st2) := saveUserData st1 now iv0 uid userData' enc in
  (ok, st2).

Definition getRecordsByDate (st : State) (now : Z) (uid date : string)
    (enc : bool) : list record * State :=
  let (userData, st') := loadUserData st now uid enc in
  (List.filter (fun r => bool_decide (r !! "date" = Some date))
     (records userData), st').

(** [record.date >= limitDateStr]; an undefined date compares false. *)
Definition date_at_least (limit : string) (r : record) : bool :=
  match r !! "date" with
  | Some d => String.leb limit d
  | None => false
  end.

(** [getRecentRecords(userId, days, encrypted)]; [setDate(getDate() -
    days)] moves the local day back by [days], and leaves an Invalid
    Date when that instant is out of the range of [Date]. *)
Definition getRecentRecords (st : State) (now : Z) (uid : string)
    (days : Z) (enc : bool) : list record * State :=
  let (userData, st') := loadUserData st now uid enc in
  let limitDate := setDate_back now days in
  let limitDateStr := formatDate_of tzOffset limitDate in
  (List.filter (date_at_least limitDateStr) (records userData), st').

Definition getAllRecords (st : State) (now : Z) (uid : string) (enc : bool)
  : list record * State :=
  let (userData, st') := loadUserData st now uid enc in
  (records userData, st').

(** [deleteUserData(userId)] *)
Definition deleteUserData (st : State) (uid : string) : bool * State :=
  let filePath := getUserDataPath uid in
  if existsSync (fs st) filePath
  then
    match unlinkSync (fs st) filePath with
    | Ok d => (true, {| MASTER_KEY := MASTER_KEY st; fs := d |})
    | Throw _ => (false, st)
    end
  else (false, st).

End Database.

(** ** More of security.js *)

(** The body of the loop of [cleanupExpiredSessions]: one entry of the
    table is looked at, and destroyed when it has expired. *)
Definition sweep (now : Z) (acc : SessionManager)
    (entry : string * Session) : SessionManager :=
  let timeSinceActivity := now - lastActivity (snd entry) in
  if timeoutMs acc <? timeSinceActivity
  then destroySession acc (fst entry)
  else acc.

(** [cleanupExpiredSessions()] at clock reading [now]: every entry of the
    table is visited; the order of the visits has no effect on the table
    that results. *)
Definition cleanupExpiredSessions (m : SessionManager) (now : Z)
  : SessionManager :=
  foldl (sweep now) m (map_to_list (sessions m)).

(** The characters of a text, each matched literally. *)
Fixpoint literal (cs : list ascii) : regex :=
  match cs with
  | [] => Eps
  | c :: cs' => Cat (Class (Ascii.eqb c)) (literal cs')
  end.

(** [r] exactly [n] times, then [rest]. *)
Fixpoint times (n : nat) (r rest : regex) : regex :=
  match n with
  | O => rest
  | S n' => Cat r (times n' r rest)
  end.

(** [r] at most [n] times, then [rest]. *)
Fixpoint upto (n : nat) (r rest : regex) : regex :=
  match n with
  | O => rest
  | S n' => Alt (Cat r (upto n' r rest)) rest
  end.

(** [\d{10,15}@s\.whatsapp\.net] *)
Definition phone_regex : regex :=
  times 10 (Class is_digit)
    (upto 5 (Class is_digit)
       (literal (list_ascii_of_string "@s.whatsapp.net"))).

(** [isValidPhoneNumber(phoneNumber)] of [security.js]. *)
Definition isValidPhoneNumber (phoneNumber : string) : bool :=
  anchored_test phone_regex (list_ascii_of_string phoneNumber).

(** [getSecurityStatus().encryptionEnabled]: whether the key has been
    derived. *)
Definition encryptionEnabled (mk : option (list byte)) : bool :=
  match mk with
  | Some _ => true
  | None => false
  end.

(** The session [s] after [session.lastActivity = now]. *)
Definition touch (s : Session) (now : Z) : Session :=
  {| s_userId := s_userId s; token := token s;
     s_createdAt := s_createdAt s; lastActivity := now |}.

(** The clock readings of a run of validations, each at most [timeout]
    after the one before. *)
Fixpoint paced (timeout last : Z) (times : list Z) : Prop :=
  match times with
  | [] => True
  | t :: times' => t - last <= timeout /\ paced timeout t times'
  end.

(** The answers of successive [validateSession] calls with one token. *)
Fixpoint validations (m : SessionManager) (uid tok : string)
    (times : list Z) : list bool :=
  match times with
  | [] => []
  | t :: times' =>
      fst (validateSession m t uid tok)
        :: validations (snd (validateSession m t uid tok)) uid tok times'
  end.

(** ** The key of a process *)

(** The key [getMasterKey] derives when nothing is cached yet. *)
Definition derivedKey `{Runtime} : list byte := fst (getMasterKey None).

(** The cache of a running process: empty, or the derived key.  The
    module assigns [MASTER_KEY] nowhere but in [getMasterKey]. *)
Definition key_ok `{Runtime} (mk : option (list byte)) : Prop :=
  mk = None \/ mk = Some derivedKey.

(** How an operation may leave the cache: as it was, or filled by
    [getMasterKey]. *)
Definition key_step `{Runtime} (mk mk' : option (list byte)) : Prop :=
  mk' = mk \/ mk' = snd (getMasterKey mk).

(** Every character of the text is one of 0 to 9. *)
Definition all_digits (s : string) : Prop :=
  Forall (fun c => is_digit c = true) (list_ascii_of_string s).

(** ** More of database.js *)

(** No element of the list belongs after its successor: the arrays
    [sort] leaves as they are. *)
Fixpoint settled {A} (cmp : A -> A -> option Z) (l : list A) : Prop :=
  match l with
  | a :: (b :: _) as l' => belongs_after cmp a b = false /\ settled cmp l'
  | _ => True
  end.

(** The document [addRecord] writes over a file it could not load. *)
Definition restartedUserData `{Runtime} (now : Z) (rnd uid : string)
    (r : record) : UserData :=
  {| userId := sanitizePhoneNumber uid;
     records := [newRecord now rnd r];
     metadata := Some {| createdAt := Some (toISOString now);
                         lastUpdate := Some (toISOString now);
                         totalRecords := Some 1;
                         error := Some loadFailure |} |}.

(** ** Calendar order *)

(** The order of two calendar dates: by year, then month, then day. *)
Definition civil_ltb (a b : civil) : bool :=
  (year a <? year b)
  || ((year a =? year b)
      && ((month a <? month b)
          || ((month a =? month b) && (day a <? day b)))).

(** The date has a month and a day of the month. *)
Definition date_ok (c : civil) : bool :=
  (1 <=? month c) && (month c <=? 12) && (1 <=? day c) && (day c <=? 31).

(** The two steps of [civil_from_days] that find the year in its era of
    146097 days: the year of a day of the era, and the days of the era
    before a year. *)
Definition year_of_era (doe : Z) : Z :=
  (doe - doe / 1460 + doe / 36524 - doe / 146096) / 365.

Definition days_before_year (yoe : Z) : Z := 365 * yoe + yoe / 4 - yoe / 100.

(** The last day of a year of the era. *)
Definition last_day_of_year (yoe : Z) : Z :=
  if yoe =? 399 then 146096 else days_before_year (yoe + 1) - 1.

(** [test] holds of the [n] integers from [z] on. *)
Fixpoint holds_from (test : Z -> bool) (n : nat) (z : Z) : bool :=
  match n with
  | O => true
  | S n' => if test z then holds_from test n' (z + 1) else false
  end.

(** The day numbers of the years 1000 to 9999, from 1000-01-01 to
    9999-12-31: the dates whose year [formatDate] prints with four
    digits. *)
Definition four_digit_year (z : Z) : Prop := -354285 <= z <= 2932896.

(** The character of a decimal digit. *)
Definition digit_char (n : Z) : ascii := ascii_of_N (Z.to_N (48 + n)).

(** Two and four decimal digits. *)
Definition two (n : Z) : string :=
  String (digit_char (n / 10)) (String (digit_char (n mod 10)) "").

Definition four (n : Z) : string :=
  String (digit_char (n / 1000))
    (String (digit_char (n / 100 mod 10))
       (String (digit_char (n / 10 mod 10))
          (String (digit_char (n mod 10)) ""))).

(** The order of two texts of digits of one length, and their value. *)
Fixpoint digits_compare (l1 l2 : list Z) : comparison :=
  match l1, l2 with
  | a :: l1', b :: l2' =>
      match a ?= b with
      | Eq => digits_compare l1' l2'
      | ne => ne
      end
  | _, _ => Eq
  end.

Definition digits_value (l : list Z) : Z :=
  fold_left (fun acc d => 10 * acc + d) l 0.

(** ** utils.js *)

Definition is_lower (c : ascii) : bool :=
  let n := N_of_ascii c in ((97 <=? n) && (n <=? 122))%N.

Definition is_upper (c : ascii) : bool :=
  let n := N_of_ascii c in ((65 <=? n) && (n <=? 90))%N.

(** The class [[a-z0-9.-]] under the flag [i]: without the flag [u] a
    character outside ASCII never matches an ASCII letter. *)
Definition filename_char (c : ascii) : bool :=
  is_lower c || is_upper c || is_digit c
  || Ascii.eqb c "."%char || Ascii.eqb c "-"%char.

(** [s.replace(/[^a-z0-9.-]/gi, '_')].  A character outside ASCII gives
    one underscore for each of its UTF-16 units in JavaScript and one for
    each of its bytes here; the next step leaves one underscore of either
    run. *)
Definition mask (l : list ascii) : list ascii :=
  map (fun c => if filename_char c then c else "_"%char) l.

(** [s.replace(/_{2,}/g, '_')]: a run of two or more underscores becomes
    one underscore. *)
Fixpoint squeeze (l : list ascii) : list ascii :=
  match l with
  | [] => []
  | c :: l' =>
      if Ascii.eqb c "_"%char
      then match l' with
           | d :: _ => if Ascii.eqb d "_"%char then squeeze l'
                       else c :: squeeze l'
           | [] => [c]
           end
      else c :: squeeze l'
  end.

(** [toLowerCase()] on an ASCII character. *)
Definition to_lower (c : ascii) : ascii :=
  if is_upper c then ascii_of_N (N_of_ascii c + 32) else c.

(** [sanitizeFilename(filename)] *)
Definition sanitizeFilename (filename : string) : string :=
  string_of_list_ascii
    (map to_lower (squeeze (mask (list_ascii_of_string filename)))).

(** The characters [sanitizeFilename] lets through. *)
Definition safe_char (c : ascii) : bool :=
  is_lower c || is_digit c || Ascii.eqb c "."%char || Ascii.eqb c "-"%char
  || Ascii.eqb c "_"%char.

(** No underscore is followed by another. *)
Fixpoint no_run (l : list ascii) : Prop :=
  match l with
  | c :: (d :: _) as l' =>
      ~ (c = "_"%char /\ d = "_"%char) /\ no_run l'
  | _ => True
  end.

(** *** Dates in messages *)

(** [s.split(sep)] for a separator of one character. *)
Fixpoint split (sep : ascii) (l : list ascii) : list (list ascii) :=
  match l with
  | [] => [[]]
  | c :: l' =>
      match split sep l' with
      | piece :: pieces =>
          if Ascii.eqb c sep then [] :: piece :: pieces
          else (c :: piece) :: pieces
      | [] => [[c]]
      end
  end.

(** An element of the array as a template prints it. *)
Definition printed (pieces : list (list ascii)) (i : nat) : string :=
  match nth_error pieces i with
  | Some p => string_of_list_ascii p
  | None => "undefined"
  end.

(** [formatDateBR(dateStr)] of [database.js] and [utils.js]. *)
Definition formatDateBR (dateStr : string) : string :=
  let pieces := split "-" (list_ascii_of_string dateStr) in
  printed pieces 2 ++ "/" ++ printed pieces 1 ++ "/" ++ printed pieces 0.

(** [n] digits at the head of a text: the digits, and the text after
    them. *)
Fixpoint take_digits (n : nat) (l : list ascii)
  : option (list ascii * list ascii) :=
  match n with
  | O => Some ([], l)
  | S n' =>
      match l with
      | c :: l' =>
          if is_digit c
          then match take_digits n' l' with
               | Some (ds, rest) => Some (c :: ds, rest)
               | None => None
               end
          else None
      | [] => None
      end
  end.

Definition take_slash (l : list ascii) : option (list ascii) :=
  match l with
  | c :: l' => if Ascii.eqb c "/" then Some l' else None
  | [] => None
  end.

(** One way through [(\d{1,2})\/(\d{1,2})\/(\d{2,4})] at the head of a
    text, the three groups having [n1], [n2] and [n3] digits. *)
Definition match_with (n : nat * nat * nat) (l : list ascii)
  : option (list ascii * list ascii * list ascii) :=
  let '(n1, n2, n3) := n in
  match take_digits n1 l with
  | Some (d, l1) =>
      match take_slash l1 with
      | Some l2 =>
          match take_digits n2 l2 with
          | Some (m, l3) =>
              match take_slash l3 with
              | Some l4 =>
                  match take_digits n3 l4 with
                  | Some (y, _) => Some (d, m, y)
                  | None => None
                  end
              | None => None
              end
          | None => None
          end
      | None => None
      end
  | None => None
  end.

(** The ways in the order a backtracking matcher tries them: each group
    as long as it can be, the later groups giving way first. *)
Definition attempts : list (nat * nat * nat) :=
  [(2, 2, 4); (2, 2, 3); (2, 2, 2); (2, 1, 4); (2, 1, 3); (2, 1, 2);
   (1, 2, 4); (1, 2, 3); (1, 2, 2); (1, 1, 4); (1, 1, 3); (1, 1, 2)]%nat.

Fixpoint first_of {A B} (f : A -> option B) (l : list A) : option B :=
  match l with
  | [] => None
  | a :: l' =>
      match f a with
      | Some b => Some b
      | None => first_of f l'
      end
  end.

Definition match_here (l : list ascii)
  : option (list ascii * list ascii * list ascii) :=
  first_of (fun n => match_with n l) attempts.

(** [expr.match(/(\d{1,2})\/(\d{1,2})\/(\d{2,4})/)]: the groups of the
    leftmost match. *)
Fixpoint date_match (l : list ascii)
  : option (list ascii * list ascii * list ascii) :=
  match match_here l with
  | Some groups => Some groups
  | None =>
      match l with
      | [] => None
      | _ :: l' => date_match l'
      end
  end.

(** The year of the match: two digits are taken in the current
    century. *)
Definition year_text (currentYear : Z) (y : list ascii) : string :=
  if (List.length y =? 2)%nat
  then match number_of 0 y with
       | Some n => dec (currentYear / 100 * 100 + n)
       | None => "NaN"
       end
  else string_of_list_ascii y.

(** [parseDateFromMessage(dateExpression)] of [utils.js] from the second
    line on, [expr] being [dateExpression.toLowerCase().trim()]. *)
Definition parseDate `{Runtime} (now : Z) (expr : string) : string :=
  let today := localDay tzOffset now in
  if String.eqb expr "today" || String.eqb expr "hoje"
  then formatDate (civil_from_days today)
  else if String.eqb expr "yesterday" || String.eqb expr "ontem"
  then formatDate (civil_from_days (today - 1))
  else if String.eqb expr "anteontem"
  then formatDate (civil_from_days (today - 2))
  else
    match date_match (list_ascii_of_string expr) with
    | Some (d, m, y) =>
        year_text (year (civil_from_days today)) y
          ++ "-" ++ padStart0 2 (string_of_list_ascii m)
          ++ "-" ++ padStart0 2 (string_of_list_ascii d)
    | None => formatDate (civil_from_days today)
    end.

(** [parseDateFromMessage], the two native string methods being given. *)
Definition parseDateFromMessage `{Runtime}
    (toLowerCase trim : string -> string) (now : Z)
    (dateExpression : string) : string :=
  parseDate now (trim (toLowerCase dateExpression)).

(** A text with no decimal digit in it. *)
Definition no_digits (s : string) : Prop :=
  Forall (fun c => is_digit c = false) (list_ascii_of_string s).

(** A text that does not start with a digit. *)
Definition no_digit_ahead (s : string) : Prop :=
  match s with
  | String c _ => is_digit c = false
  | EmptyString => True
  end.

(** ** What is assumed of the runtime

    The contracts of the native functions, stated once; a theorem names
    the ones it relies on. *)

Section Contracts.
Context `{Runtime}.

(** Decrypting what the cipher produced, under the same key and IV and
    with its tag, gives the plaintext back. *)
Definition gcm_correct : Prop :=
  forall key iv0 p c t,
    gcm_encrypt key iv0 p = Some (c, t) -> gcm_decrypt key iv0 t c = Some p.

(** One of the three byte strings has one bit inverted. *)
Definition tampered (good bad : list byte * list byte * list byte) : Prop :=
  let '(iv0, t, c) := good in
  let '(iv1, t1, c1) := bad in
  (one_bit_flip iv0 iv1 /\ t1 = t /\ c1 = c)
  \/ (iv1 = iv0 /\ one_bit_flip t t1 /\ c1 = c)
  \/ (iv1 = iv0 /\ t1 = t /\ one_bit_flip c c1).

(** GCM authentication: a single inverted bit in the IV, the tag or the
    ciphertext makes decryption throw. *)
Definition gcm_detects_flips : Prop :=
  forall key iv0 p c t iv1 t1 c1,
    gcm_encrypt key iv0 p = Some (c, t) ->
    tampered (iv0, t, c) (iv1, t1, c1) ->
    gcm_decrypt key iv1 t1 c1 = None.


(** [JSON.parse] reads back an envelope of base64 texts: three
    strings. *)
Definition envelope_parses : Prop :=
  forall a b c : list byte,
    JSON_parse_combined
      (JSON_stringify_combined
         {| iv := Base64.encode a; authTag := Base64.encode b;
            encrypted := Base64.encode c |})
    = Some {| r_iv := Text (Base64.encode a);
              r_authTag := Text (Base64.encode b);
              r_encrypted := Some (Base64.encode c) |}.

(** [new Date(text)] reads the text [toISOString] prints for the
    instant [t] back as [t]. *)
Definition Date_reads (t : Z) : Prop :=
  Date_parse (toISOString t) = Some t.

(** [JSON.parse] reads back a serialised document. *)
Definition JSON_roundtrip : Prop :=
  forall d : UserData, JSON_parse (JSON_stringify d) = Some d.

(** The blob that carries an IV, a tag and a ciphertext. *)
Definition envelope (iv0 t c : list byte) : string :=
  Base64.encode
    (list_byte_of_string
       (JSON_stringify_combined
          {| iv := Base64.encode iv0; authTag := Base64.encode t;
             encrypted := Base64.encode c |})).

End Contracts.

(** The timestamp of [r] is a date. *)
Definition valid `{Runtime} (r : record) : Prop := is_Some (time_of r).

(** Descending order of the time values of the timestamps. *)
Inductive sorted_desc `{Runtime} : list record -> Prop :=
| sorted_nil : sorted_desc []
| sorted_one (r : record) : sorted_desc [r]
| sorted_cons (a b : record) (l : list record) (ta tb : Z) :
    time_of a = Some ta -> time_of b = Some tb -> tb <= ta ->
    sorted_desc (b :: l) -> sorted_desc (a :: b :: l).

(** The texts a regular expression matches. *)
Inductive matches : regex -> list ascii -> Prop :=
| m_eps : matches Eps []
| m_class (p : ascii -> bool) (c : ascii) : p c = true -> matches (Class p) [c]
| m_cat (r1 r2 : regex) (s1 s2 : list ascii) :
    matches r1 s1 -> matches r2 s2 -> matches (Cat r1 r2) (s1 ++ s2)
| m_alt_l (r1 r2 : regex) (s : list ascii) :
    matches r1 s -> matches (Alt r1 r2) s
| m_alt_r (r1 r2 : regex) (s : list ascii) :
    matches r2 s -> matches (Alt r1 r2) s.

(** Lexicographic order of two texts by character code. *)
Inductive lex_le : string -> string -> Prop :=
| lex_nil (t : string) : lex_le "" t
| lex_lt (c d : ascii) (s t : string) :
    (N_of_ascii c < N_of_ascii d)%N -> lex_le (String c s) (String d t)
| lex_eq (c : ascii) (s t : string) :
    lex_le s t -> lex_le (String c s) (String c t).

(** ** A small runtime for the examples

    The statements below hold for every [Runtime]; the examples run them
    on this one.  Its cipher reverses the plaintext and uses the key, the
    IV and the ciphertext as the tag; its document serialisation writes
    the bits of a numbering of the documents. *)

Module Demo.

Fixpoint bytes_eqb (a b : list byte) : bool :=
  match a, b with
  | [], [] => true
  | x :: a', y :: b' => Byte.eqb x y && bytes_eqb a' b'
  | _, _ => false
  end.

Definition scrypt (password salt : string) (keylen : nat) : list byte :=
  firstn keylen
    (list_byte_of_string (password ++ salt) ++ repeat x00 keylen)%list.

Definition tag_of (key iv0 ct : list byte) : list byte :=
  (key ++ iv0 ++ ct)%list.

Definition encrypt (key iv0 p : list byte) : option (list byte * list byte) :=
  match iv0 with
  | [] => None
  | _ => Some (rev p, tag_of key iv0 (rev p))
  end.

Definition decrypt (key iv0 tag ct : list byte) : option (list byte) :=
  match iv0 with
  | [] => None
  | _ => if bytes_eqb tag (tag_of key iv0 ct) then Some (rev ct) else None
  end.

(** The pieces of a text between occurrences of [c]. *)
Fixpoint split_on (c : ascii) (l : list ascii) : list (list ascii) :=
  match l with
  | [] => [[]]
  | x :: l' =>
      match split_on c l' with
      | piece :: pieces =>
          if Ascii.eqb x c then [] :: piece :: pieces
          else (x :: piece) :: pieces
      | [] => [[x]]
      end
  end.

(** A reader of the text [JSON_stringify_combined] writes. *)
Definition parse_combined (s : string) : option envelope_read :=
  match map string_of_list_ascii
          (split_on (ascii_of_nat 34) (list_ascii_of_string s)) with
  | [p0; k1; p1; v1; p2; k2; p3; v2; p4; k3; p5; v3; p6] =>
      if String.eqb (String.concat "|" [p0; k1; p1; p2; k2; p3; p4; k3; p5; p6])
           "{|iv|:|,|authTag|:|,|encrypted|:|}"
      then Some {| r_iv := Text v1; r_authTag := Text v2;
                   r_encrypted := Some v3 |}
      else None
  | _ => None
  end.

Fixpoint bits_of (p : positive) : string :=
  match p with
  | xH => ""
  | xO p' => String "0"%char (bits_of p')
  | xI p' => String "1"%char (bits_of p')
  end.

Fixpoint of_bits (s : string) : option positive :=
  match s with
  | EmptyString => Some xH
  | String c s' =>
      if Ascii.eqb c "0"%char then option_map xO (of_bits s')
      else if Ascii.eqb c "1"%char then option_map xI (of_bits s')
      else None
  end.

#[local] Instance Metadata_eq_dec : EqDecision Metadata.
Proof. solve_decision. Defined.

#[local] Instance UserData_eq_dec : EqDecision UserData.
Proof. solve_decision. Defined.

#[local] Instance Metadata_countable : Countable Metadata.
Proof.
  refine (inj_countable'
    (fun m => (createdAt m, lastUpdate m, totalRecords m, error m))
    (fun t => match t with
              | (a, b, c, d) =>
                  {| createdAt := a; lastUpdate := b;
                     totalRecords := c; error := d |}
              end) _).
  intros []. reflexivity.
Defined.

#[local] Instance UserData_countable : Countable UserData.
Proof.
  refine (inj_countable'
    (fun d => (userId d, records d, metadata d))
    (fun t => match t with
              | (a, b, c) => {| userId := a; records := b; metadata := c |}
              end) _).
  intros []. reflexivity.
Defined.

Definition stringify (d : UserData) : string := bits_of (encode d).

Definition parse (s : string) : option UserData :=
  match of_bits s with
  | Some p => decode p
  | None => None
  end.

Definition runtime : Runtime :=
  {| DEVICE_ID := None;
     scryptSync := scrypt;
     gcm_encrypt := encrypt;
     gcm_decrypt := decrypt;
     JSON_parse_combined := parse_combined;
     JSON_stringify := stringify;
     JSON_parse := parse;
     Date_parse := isoDate_parse;
     sha256_hex := fun s => s;
     DATA_DIR := "data/users";
     tzOffset := 0;
     tzOffset_range := ltac:(vm_compute; discriminate) |}.

(** The same runtime for a process whose key has sealed the plaintext
    [p1] under the IV [iv1] and nothing else: the cipher opens what it
    sealed and throws on the rest. *)
Definition seal_one (iv1 p1 key iv0 p : list byte)
  : option (list byte * list byte) :=
  if bytes_eqb iv0 iv1 && bytes_eqb p p1 then encrypt key iv0 p else None.

Definition open_one (iv1 p1 key iv0 tag ct : list byte)
  : option (list byte) :=
  match decrypt key iv0 tag ct with
  | Some p => if bytes_eqb iv0 iv1 && bytes_eqb p p1 then Some p else None
  | None => None
  end.

Definition sealed (iv1 p1 : list byte) : Runtime :=
  {| DEVICE_ID := None;
     scryptSync := scrypt;
     gcm_encrypt := seal_one iv1 p1;
     gcm_decrypt := open_one iv1 p1;
     JSON_parse_combined := parse_combined;
     JSON_stringify := stringify;
     JSON_parse := parse;
     Date_parse := isoDate_parse;
     sha256_hex := fun s => s;
     DATA_DIR := "data/users";
     tzOffset := 0;
     tzOffset_range := ltac:(vm_compute; discriminate) |}.

Definition disk0 : FileSystem :=
  {| files := ∅; unreadable := ∅; readOnly := false |}.

Definition state0 : State := {| MASTER_KEY := None; fs := disk0 |}.

Definition iv16 : list byte := repeat x2a 16.

Definition quote : ascii := ascii_of_nat 34.

(** The pieces of [pieces] with [c] between them. *)
Fixpoint join (c : ascii) (pieces : list (list ascii)) : list ascii :=
  match pieces with
  | [] => []
  | [p] => p
  | p :: ps => p ++ c :: join c ps
  end.

End Demo.

(** ** The inputs of the examples *)

Module Scenario.
Import Demo.

Definition key0 : list byte := fst (@getMasterKey runtime None).
Definition cached : option (list byte) := snd (@getMasterKey runtime None).

(** A process that has sealed the text ola under [iv16] and nothing
    else. *)
Definition sealed_ola : Runtime := sealed iv16 (list_byte_of_string "ola").

(** The blob of the text ola, and the answers of [decryptData] to that
    blob with one bit inverted, for each bit of each character. *)
Definition blob_ola : string :=
  envelope iv16 (tag_of key0 iv16 (rev (list_byte_of_string "ola")))
    (rev (list_byte_of_string "ola")).

Definition answers_to_flips : list (result string) :=
  flat_map
    (fun i =>
       flat_map
         (fun j =>
            match flip_string_bit i j blob_ola with
            | Some B => [fst (@decryptData runtime cached B)]
            | None => []
            end)
         [0; 1; 2; 3; 4; 5; 6; 7]%N)
    (seq 0 (String.length blob_ola)).

Definition returns_ola (r : result string) : bool :=
  match r with
  | Ok p => String.eqb p "ola"
  | Throw _ => false
  end.

Definition throws_failure (r : result string) : bool :=
  match r with
  | Ok _ => false
  | Throw m => String.eqb m "Falha na descriptografia"
  end.

(** The first bit of the ciphertext of ola inverted. *)
Definition tampered_ct : list byte := [x60; x6c; x6f].

(** An IV whose last two bits are 0: the last character of its base64
    text carries four unused bits. *)
Definition iv_00 : list byte := repeat x2c 16.

Definition user : string := "5511999999999@s.whatsapp.net".

(** 2025-01-10T10:00:00.000Z and the two minutes that follow. *)
Definition t_a : Z := 1736503200000.
Definition t_x : Z := 1736503260000.
Definition t_b : Z := 1736503320000.

Definition r_a : record := {[ "content" := "a" ]}.
Definition r_b : record := {[ "content" := "b" ]}.

(** A caller's record whose timestamp is not a date. *)
Definition r_x : record := {[ "content" := "x"; "timestamp" := "garbage" ]}.

(** A caller's record that brings an older timestamp. *)
Definition r_old : record :=
  {[ "content" := "b"; "timestamp" := "2020-01-01T00:00:00.000Z" ]}.

Abbreviation add st now r :=
  (@addRecord runtime st now "k3x9q2m1z" [] user r false).

Abbreviation stored st := (fst (@getAllRecords runtime st t_b user false)).

Abbreviation made now r := (@newRecord runtime now "k3x9q2m1z" r).

Abbreviation path0 := (@getUserDataPath runtime user).

(** A writable disk on which the file of [user] can be read. *)
Definition usable (st : State) : Prop :=
  readOnly (fs st) = false /\ path0 ∉ unreadable (fs st).

(** Three records added in turn; the second has a timestamp that is not
    a date. *)
Definition s1 : State := snd (add state0 t_a r_a).
Definition s2 : State := snd (add s1 t_x r_x).
Definition s3 : State := snd (add s2 t_b r_b).

(** A record with an older timestamp added after [r_a]. *)
Definition s2' : State := snd (add s1 t_b r_old).

(** Two records added one minute apart. *)
Definition s_ab : State := snd (add s1 t_b r_b).

(** A document of one record and no metadata, saved on the empty disk. *)
Definition doc1 : UserData :=
  {| userId := "5511999999999"; records := [made t_a r_a];
     metadata := None |}.

Definition saved1 : bool * UserData * State :=
  @saveUserData runtime state0 t_a [] user doc1 false.

(** The disk has become read-only after [doc1] was written. *)
Definition locked : State :=
  {| MASTER_KEY := None;
     fs := {| files := {[ path0 := @JSON_stringify runtime doc1 ]};
              unreadable := ∅; readOnly := true |} |}.

(** Records dated today, three days ago and ten days ago. *)
Definition d_0 : record := {[ "date" := "2025-01-10"; "content" := "hoje" ]}.
Definition d_3 : record := {[ "date" := "2025-01-07"; "content" := "tres" ]}.
Definition d_10 : record := {[ "date" := "2024-12-31"; "content" := "dez" ]}.

Definition week : State :=
  {| MASTER_KEY := None;
     fs := {| files :=
                {[ path0 :=
                     @JSON_stringify runtime
                       {| userId := "5511999999999";
                          records := [d_0; d_3; d_10];
                          metadata := None |} ]};
              unreadable := ∅; readOnly := false |} |}.

End Scenario.

(** ** More examples *)

Module Tour.
Import Demo.
Import Scenario.

(** A session table with one session, last active at instant 0. *)
Definition visitor : Session :=
  {| s_userId := "u1"; token := "t0k3n"; s_createdAt := 0;
     lastActivity := 0 |}.

Definition desk : SessionManager :=
  {| sessions := {[ "u1" := visitor ]}; timeoutMs := 1800000 |}.

(** Three validations, twenty-five minutes apart. *)
Definition visits : list Z := [1500000; 3000000; 4500000].

(** Another user. *)
Definition other : string := "5511888888888@s.whatsapp.net".

(** A store whose file is not a document. *)
Definition spoiled : State :=
  {| MASTER_KEY := None;
     fs := {| files := {[ path0 := "not a document" ]};
              unreadable := ∅; readOnly := false |} |}.

(** The days 2025-01-07 and 2025-01-10. *)
Definition day_7 : Z := 20095.
Definition day_10 : Z := 20098.

End Tour.

(** * Properties *)

(** ** Base64: decoding inverts encoding *)

Module Base64Facts.
Import Base64.


Lemma value_char_table :
  forallb (fun n => match value_of (char_of (N.of_nat n)) with
                    | Some w => N.eqb (N.of_nat n) w
                    | None => false
                    end) (seq 0 64) = true.
Proof. vm_compute. reflexivity. Qed.

Lemma value_char (v : N) : (v < 64)%N -> value_of (char_of v) = Some v.
Proof.
  intros Hv.
  assert (Hin : In (N.to_nat v) (seq 0 64)) by (apply in_seq; lia).
  pose proof (proj1 (forallb_forall _ _) value_char_table _ Hin) as H.
  cbv beta in H. rewrite N2Nat.id in H.
  destruct (value_of (char_of v)) as [w|]; [|discriminate].
  apply N.eqb_eq in H. now subst.
Qed.

Lemma value_pad : value_of pad = None.
Proof. reflexivity. Qed.

Lemma byte_of_to_N (b : byte) : byte_of (Byte.to_N b) = b.
Proof. unfold byte_of. now rewrite Byte.of_to_N. Qed.

Lemma to_N_lt (b : byte) : (Byte.to_N b < 256)%N.
Proof. pose proof (Byte.to_N_bounded b). lia. Qed.

Lemma group3 (n0 n1 n2 : N) :
  (n0 < 256 -> n1 < 256 -> n2 < 256 ->
   let v0 := n0 / 4 in
   let v1 := (n0 mod 4) * 16 + n1 / 16 in
   let v2 := (n1 mod 16) * 4 + n2 / 64 in
   let v3 := n2 mod 64 in
   (v0 < 64 /\ v1 < 64 /\ v2 < 64 /\ v3 < 64) /\
   v0 * 4 + v1 / 16 = n0 /\
   (v1 mod 16) * 16 + v2 / 4 = n1 /\
   (v2 mod 4) * 64 + v3 = n2)%N.
Proof.
  intros H0 H1 H2. cbv zeta.
  pose proof (N.div_mod n0 4). pose proof (N.mod_lt n0 4).
  pose proof (N.div_mod n1 16). pose proof (N.mod_lt n1 16).
  pose proof (N.div_mod n2 64). pose proof (N.mod_lt n2 64).
  set (q0 := (n0 / 4)%N) in *. set (r0 := (n0 mod 4)%N) in *.
  set (q1 := (n1 / 16)%N) in *. set (r1 := (n1 mod 16)%N) in *.
  set (q2 := (n2 / 64)%N) in *. set (r2 := (n2 mod 64)%N) in *.
  assert (q1 < 16)%N by lia. assert (q2 < 4)%N by lia.
  assert (q0 < 64)%N by lia. assert (r0 < 4)%N by lia.
  assert (r1 < 16)%N by lia. assert (r2 < 64)%N by lia.
  assert (E1 : ((r0 * 16 + q1) / 16 = r0)%N)
    by (symmetry; apply (N.div_unique _ 16 r0 q1); lia).
  assert (E1' : ((r0 * 16 + q1) mod 16 = q1)%N)
    by (symmetry; apply (N.mod_unique _ 16 r0 q1); lia).
  assert (E2 : ((r1 * 4 + q2) / 4 = r1)%N)
    by (symmetry; apply (N.div_unique _ 4 r1 q2); lia).
  assert (E2' : ((r1 * 4 + q2) mod 4 = q2)%N)
    by (symmetry; apply (N.mod_unique _ 4 r1 q2); lia).
  rewrite E1, E1', E2, E2'. lia.
Qed.

Lemma decode_encode_chars (bs : list byte) :
  octets (values (encode_chars bs)) = bs.
Proof.
  assert (H : forall n (l : list byte),
             (List.length l <= n)%nat -> octets (values (encode_chars l)) = l).
  { induction n as [|n IH]; intros l Hl.
    - destruct l; [reflexivity | simpl in Hl; lia].
    - destruct l as [|b0 [|b1 [|b2 rest]]]; [reflexivity | | |].
      + pose proof (to_N_lt b0) as L0.
        destruct (group3 (Byte.to_N b0) 0 0 L0 eq_refl eq_refl)
          as [[B0 [B1 _]] [E0 _]].
        cbn [encode_chars values].
        change (0 / 16)%N with 0%N in B1, E0. rewrite N.add_0_r in B1, E0.
        rewrite !value_char by assumption.
        rewrite value_pad, Ascii.eqb_refl.
        cbn [octets]. now rewrite E0, byte_of_to_N.
      + pose proof (to_N_lt b0) as L0. pose proof (to_N_lt b1) as L1.
        destruct (group3 (Byte.to_N b0) (Byte.to_N b1) 0 L0 L1 eq_refl)
          as [[B0 [B1 [B2 _]]] [E0 [E1 _]]].
        cbn [encode_chars values].
        change (0 / 64)%N with 0%N in B2, E1. rewrite N.add_0_r in B2, E1.
        rewrite !value_char by assumption.
        rewrite value_pad, Ascii.eqb_refl.
        cbn [octets]. now rewrite E0, E1, !byte_of_to_N.
      + pose proof (to_N_lt b0) as L0. pose proof (to_N_lt b1) as L1.
        pose proof (to_N_lt b2) as L2.
        destruct (group3 (Byte.to_N b0) (Byte.to_N b1) (Byte.to_N b2)
                    L0 L1 L2) as [[B0 [B1 [B2 B3]]] [E0 [E1 E2]]].
        cbn [encode_chars values].
        rewrite !value_char by assumption.
        cbn [octets]. rewrite E0, E1, E2, !byte_of_to_N.
        f_equal. f_equal. f_equal. apply IH. simpl in Hl. lia. }
  apply (H (List.length bs)). lia.
Qed.

Lemma decode_encode (bs : list byte) : decode (encode bs) = bs.
Proof.
  unfold decode, encode.
  rewrite list_ascii_of_string_of_list_ascii. apply decode_encode_chars.
Qed.


End Base64Facts.

(** ** The PIN format *)

Section RegexFacts.

Lemma matches_cat_inv (r1 r2 : regex) (s : list ascii) :
  matches (Cat r1 r2) s ->
  exists s1 s2, s = (s1 ++ s2)%list /\ matches r1 s1 /\ matches r2 s2.
Proof. intros M. inversion M; subst. eauto. Qed.

Lemma matches_alt_inv (r1 r2 : regex) (s : list ascii) :
  matches (Alt r1 r2) s -> matches r1 s \/ matches r2 s.
Proof. intros M. inversion M; subst; auto. Qed.

Lemma matches_class_inv (p : ascii -> bool) (s : list ascii) :
  matches (Class p) s -> exists c, s = [c] /\ p c = true.
Proof. intros M. inversion M; subst. eauto. Qed.

Lemma matches_eps_inv (s : list ascii) : matches Eps s -> s = [].
Proof. intros M. now inversion M. Qed.

Lemma matches_void_inv (s : list ascii) : ~ matches Void s.
Proof. intros M. inversion M. Qed.

Lemma nullable_matches (r : regex) : nullable r = true <-> matches r [].
Proof.
  induction r as [| |p|r1 IH1 r2 IH2|r1 IH1 r2 IH2]; cbn.
  - split; [discriminate | intros M; now apply matches_void_inv in M].
  - split; [constructor | reflexivity].
  - split; [discriminate|].
    intros M. apply matches_class_inv in M as (c & E & _). discriminate.
  - rewrite andb_true_iff, IH1, IH2. split.
    + intros [M1 M2]. apply (m_cat _ _ [] [] M1 M2).
    + intros M. apply matches_cat_inv in M as (s1 & s2 & E & M1 & M2).
      symmetry in E. apply app_eq_nil in E as [-> ->]. now split.
  - rewrite orb_true_iff, IH1, IH2. split.
    + intros [M|M]; [now apply m_alt_l | now apply m_alt_r].
    + apply matches_alt_inv.
Qed.

Lemma deriv_matches (c : ascii) (r : regex) (s : list ascii) :
  matches (deriv c r) s <-> matches r (c :: s).
Proof.
  revert s. induction r as [| |p|r1 IH1 r2 IH2|r1 IH1 r2 IH2]; intros s; cbn.
  - split; intros M; now apply matches_void_inv in M.
  - split; intros M; [now apply matches_void_inv in M|].
    apply matches_eps_inv in M. discriminate.
  - destruct (p c) eqn:P; split; intros M.
    + apply matches_eps_inv in M as ->. now constructor.
    + apply matches_class_inv in M as (x & E & _). inversion E. constructor.
    + now apply matches_void_inv in M.
    + apply matches_class_inv in M as (x & E & Px). inversion E; subst.
      congruence.
  - assert (C : matches (Cat (deriv c r1) r2) s
                <-> exists s1 s2, s = (s1 ++ s2)%list
                      /\ matches r1 (c :: s1) /\ matches r2 s2).
    { split.
      - intros M. apply matches_cat_inv in M as (s1 & s2 & E & M1 & M2).
        exists s1, s2. rewrite <- IH1. auto.
      - intros (s1 & s2 & -> & M1 & M2). constructor; [now apply IH1 | easy]. }
    assert (D : matches (Cat r1 r2) (c :: s)
                <-> (exists s1 s2, s = (s1 ++ s2)%list
                       /\ matches r1 (c :: s1) /\ matches r2 s2)
                    \/ (matches r1 [] /\ matches r2 (c :: s))).
    { split.
      - intros M. apply matches_cat_inv in M as (s1 & s2 & E & M1 & M2).
        destruct s1 as [|x s1]; cbn in E.
        + right. subst. auto.
        + inversion E; subst. left. eauto.
      - intros [(s1 & s2 & -> & M1 & M2)|[M1 M2]].
        + apply (m_cat _ _ (c :: s1) s2 M1 M2).
        + apply (m_cat _ _ [] (c :: s) M1 M2). }
    rewrite D. destruct (nullable r1) eqn:N.
    + split.
      * intros M. apply matches_alt_inv in M as [M|M]; [left; now apply C|].
        right. split; [now apply nullable_matches | now apply IH2].
      * intros [M|[M1 M2]]; [apply m_alt_l; now apply C|].
        apply m_alt_r. now apply IH2.
    + rewrite C. split; [auto|]. intros [M|[M1 M2]]; [exact M|].
      apply nullable_matches in M1. congruence.
  - split; intros M; apply matches_alt_inv in M as [M|M];
      solve [apply m_alt_l; now apply IH1 | apply m_alt_r; now apply IH2].
Qed.

Lemma anchored_test_matches (r : regex) (s : list ascii) :
  anchored_test r s = true <-> matches r s.
Proof.
  revert r. induction s as [|c s IH]; intros r; cbn.
  - apply nullable_matches.
  - rewrite IH. apply deriv_matches.
Qed.

Lemma matches_opt (r : regex) (s : list ascii) :
  matches (opt r) s <-> matches r s \/ s = [].
Proof.
  unfold opt. split.
  - intros M. apply matches_alt_inv in M as [M|M]; [now left|].
    apply matches_eps_inv in M. now right.
  - intros [M| ->]; [now apply m_alt_l | apply m_alt_r; constructor].
Qed.

Lemma matches_digit_then (r : regex) (s : list ascii) :
  matches (Cat (Class is_digit) r) s
  <-> exists c s', s = c :: s' /\ is_digit c = true /\ matches r s'.
Proof.
  split.
  - intros M. apply matches_cat_inv in M as (s1 & s2 & -> & M1 & M2).
    apply matches_class_inv in M1 as (c & -> & D). cbn. eauto.
  - intros (c & s' & -> & D & M).
    apply (m_cat _ _ [c] s'); [now constructor | exact M].
Qed.

Lemma pin_regex_language (s : list ascii) :
  matches pin_regex s
  <-> (4 <= List.length s <= 6)%nat /\ Forall (fun c => is_digit c = true) s.
Proof.
  unfold pin_regex. split.
  - intros M.
    apply matches_digit_then in M as (c1 & s1 & -> & D1 & M).
    apply matches_digit_then in M as (c2 & s2 & -> & D2 & M).
    apply matches_digit_then in M as (c3 & s3 & -> & D3 & M).
    apply matches_digit_then in M as (c4 & s4 & -> & D4 & M).
    apply matches_opt in M as [M| ->].
    + apply matches_digit_then in M as (c5 & s5 & -> & D5 & M).
      apply matches_opt in M as [M| ->].
      * apply matches_class_inv in M as (c6 & -> & D6).
        split; [cbn; lia | repeat constructor; assumption].
      * split; [cbn; lia | repeat constructor; assumption].
    + split; [cbn; lia | repeat constructor; assumption].
  - intros [L F].
    destruct s as [|c1 [|c2 [|c3 [|c4 s]]]]; cbn in L; try lia.
    inversion F as [|? ? D1 F1]; subst. inversion F1 as [|? ? D2 F2]; subst.
    inversion F2 as [|? ? D3 F3]; subst. inversion F3 as [|? ? D4 F4]; subst.
    apply matches_digit_then. exists c1, (c2 :: c3 :: c4 :: s).
    repeat split; auto.
    apply matches_digit_then. exists c2, (c3 :: c4 :: s). repeat split; auto.
    apply matches_digit_then. exists c3, (c4 :: s). repeat split; auto.
    apply matches_digit_then. exists c4, s. repeat split; auto.
    apply matches_opt.
    destruct s as [|c5 s]; [now right|left].
    inversion F4 as [|? ? D5 F5]; subst.
    apply matches_digit_then. exists c5, s. repeat split; auto.
    apply matches_opt.
    destruct s as [|c6 s]; [now right|left].
    inversion F5 as [|? ? D6 F6]; subst.
    destruct s; [|cbn in L; lia].
    now constructor.
Qed.

End RegexFacts.

(** C8: [isValidPIN] accepts exactly the texts of four, five or six ASCII
    digits. *)
Theorem isValidPIN_exactly_4_to_6_digits (pin : string) :
  isValidPIN pin = true
  <-> (4 <= String.length pin <= 6)%nat
      /\ Forall (fun c => (48 <= N_of_ascii c <= 57)%N)
           (list_ascii_of_string pin).
Proof.
  unfold isValidPIN. rewrite anchored_test_matches, pin_regex_language.
  assert (L : List.length (list_ascii_of_string pin) = String.length pin).
  { induction pin as [|c p IH]; cbn; [reflexivity | now rewrite IH]. }
  rewrite L. apply and_iff_compat_l.
  apply Forall_iff. intros c. unfold is_digit.
  rewrite andb_true_iff, !N.leb_le. reflexivity.
Qed.

(** ** Inverted bits *)

Lemma flip_byte_changes (j : N) (b : byte) : (j < 8)%N -> flip_byte j b <> b.
Proof.
  intros Hj.
  assert (Hc : (j = 0 \/ j = 1 \/ j = 2 \/ j = 3 \/ j = 4 \/ j = 5
               \/ j = 6 \/ j = 7)%N) by lia.
  repeat (destruct Hc as [->|Hc]; [destruct b; vm_compute; discriminate|]).
  subst j. destruct b; vm_compute; discriminate.
Qed.

Lemma flip_at_changes (f : byte -> byte) (i : nat) (l l' : list byte) :
  (forall b, f b <> b) -> flip_at f i l = Some l' ->
  l' <> l /\ List.length l' = List.length l.
Proof.
  intros Hf. revert i l'. induction l as [|x l IH]; intros i l' E.
  - destruct i; discriminate.
  - destruct i as [|i]; cbn in E.
    + inversion E; subst. split; [|reflexivity].
      intros C. inversion C. now apply (Hf x).
    + destruct (flip_at f i l) as [r|] eqn:R; [|discriminate].
      cbn in E. inversion E; subst.
      destruct (IH _ _ R) as [N L]. split; [|cbn; now rewrite L].
      intros C. inversion C. contradiction.
Qed.

Lemma one_bit_flip_changes (l l' : list byte) :
  one_bit_flip l l' -> l' <> l /\ List.length l' = List.length l.
Proof.
  intros (i & j & Hj & E).
  eapply flip_at_changes; [|exact E].
  intros b. now apply flip_byte_changes.
Qed.

(** ** The cipher envelope *)

Section SecurityFacts.
Context `{Runtime}.

Lemma getMasterKey_cached (mk : option (list byte)) :
  getMasterKey (snd (getMasterKey mk))
  = (fst (getMasterKey mk), snd (getMasterKey mk)).
Proof. destruct mk; reflexivity. Qed.

Lemma encryptData_ok (mk : option (list byte)) (iv0 : list byte)
    (P : string) (c t : list byte) :
  gcm_encrypt (fst (getMasterKey mk)) iv0 (list_byte_of_string P)
    = Some (c, t) ->
  encryptData mk iv0 P = (Ok (envelope iv0 t c), snd (getMasterKey mk)).
Proof.
  intros E. unfold encryptData.
  destruct (getMasterKey mk) as [key mk'] eqn:K. cbn [fst snd] in *.
  rewrite E. reflexivity.
Qed.

Lemma encryptData_throw (mk : option (list byte)) (iv0 : list byte)
    (P : string) :
  gcm_encrypt (fst (getMasterKey mk)) iv0 (list_byte_of_string P) = None ->
  encryptData mk iv0 P
  = (Throw "Falha na criptografia", snd (getMasterKey mk)).
Proof.
  intros E. unfold encryptData.
  destruct (getMasterKey mk) as [key mk'] eqn:K. cbn [fst snd] in *.
  rewrite E. reflexivity.
Qed.

(** What [decryptData] does with an envelope: the cipher decides. *)
Lemma decryptData_envelope (mk : option (list byte)) (iv0 t c : list byte) :
  envelope_parses ->
  decryptData mk (envelope iv0 t c)
  = (match gcm_decrypt (fst (getMasterKey mk)) iv0 t c with
     | Some p => Ok (string_of_list_byte p)
     | None => Throw "Falha na descriptografia"
     end, snd (getMasterKey mk)).
Proof.
  intros HJ. unfold decryptData, envelope.
  rewrite Base64Facts.decode_encode, string_of_list_byte_of_string, HJ.
  cbn [r_iv r_authTag r_encrypted of_option rbind Buffer_from].
  rewrite !Base64Facts.decode_encode.
  destruct (getMasterKey mk) as [key mk'] eqn:K. cbn [fst snd].
  destruct (gcm_decrypt key iv0 t c); reflexivity.
Qed.

Lemma encrypt_then_decrypt (mk : option (list byte)) (iv0 : list byte)
    (P blob : string) (mk' : option (list byte)) :
  gcm_correct -> envelope_parses ->
  encryptData mk iv0 P = (Ok blob, mk') ->
  decryptData mk' blob = (Ok P, mk').
Proof.
  intros HG HJ E.
  destruct (gcm_encrypt (fst (getMasterKey mk)) iv0 (list_byte_of_string P))
    as [[c t]|] eqn:G.
  - rewrite (encryptData_ok _ _ _ _ _ G) in E. inversion E; subst.
    rewrite decryptData_envelope by assumption.
    rewrite getMasterKey_cached. cbn [fst snd].
    rewrite (HG _ _ _ _ _ G), string_of_list_byte_of_string. reflexivity.
  - rewrite (encryptData_throw _ _ _ G) in E. discriminate.
Qed.

(** C1: the blob [encryptData] returns for a plaintext [P] bundles the
    IV, the tag and the ciphertext, and [decryptData], given that blob and
    the cached key only, returns [P]. *)
Theorem decrypt_encrypt_roundtrip (mk : option (list byte))
    (iv0 : list byte) (P : string) (c t : list byte) :
  gcm_correct -> envelope_parses ->
  gcm_encrypt (fst (getMasterKey mk)) iv0 (list_byte_of_string P)
    = Some (c, t) ->
  let mk' := snd (getMasterKey mk) in
  encryptData mk iv0 P = (Ok (envelope iv0 t c), mk')
  /\ decryptData mk' (envelope iv0 t c) = (Ok P, mk').
Proof.
  intros HG HJ G mk'. split.
  - now apply encryptData_ok.
  - eapply encrypt_then_decrypt; eauto using encryptData_ok.
Qed.

(** A bit inverted in the IV, the tag or the ciphertext that the blob of
    [encryptData P] carries makes [decryptData] throw its error, for a
    cipher that detects such flips. *)
Lemma decryptData_flipped_bytes (mk : option (list byte))
    (iv0 : list byte) (P : string) (c t iv1 t1 c1 : list byte) :
  gcm_detects_flips -> envelope_parses ->
  gcm_encrypt (fst (getMasterKey mk)) iv0 (list_byte_of_string P)
    = Some (c, t) ->
  tampered (iv0, t, c) (iv1, t1, c1) ->
  let mk' := snd (getMasterKey mk) in
  encryptData mk iv0 P = (Ok (envelope iv0 t c), mk')
  /\ decryptData mk' (envelope iv1 t1 c1)
     = (Throw "Falha na descriptografia", mk').
Proof.
  intros HF HJ G T mk'. split.
  - now apply encryptData_ok.
  - rewrite decryptData_envelope by assumption. subst mk'.
    rewrite getMasterKey_cached. cbn [fst snd].
    rewrite (HF _ _ _ _ _ _ _ _ G T). reflexivity.
Qed.

(** What [decryptData] does with a text, by what is read from it. *)
Lemma decryptData_unread (mk : option (list byte)) (text : string) :
  JSON_parse_combined (string_of_list_byte (Base64.decode text)) = None ->
  decryptData mk text = (Throw "Falha na descriptografia", mk).
Proof. intros E. unfold decryptData. now rewrite E. Qed.

Lemma decryptData_read (mk : option (list byte)) (text : string)
    (e : envelope_read) :
  JSON_parse_combined (string_of_list_byte (Base64.decode text)) = Some e ->
  decryptData mk text
  = (match r_encrypted e with
     | Some x =>
         match gcm_decrypt (fst (getMasterKey mk)) (Buffer_from (r_iv e))
                 (Buffer_from (r_authTag e)) (Base64.decode x) with
         | Some p => Ok (string_of_list_byte p)
         | None => Throw "Falha na descriptografia"
         end
     | None => Throw "Falha na descriptografia"
     end, snd (getMasterKey mk)).
Proof.
  intros E. unfold decryptData. rewrite E.
  destruct (getMasterKey mk) as [key mk']. cbn [fst snd].
  destruct (r_encrypted e) as [x|]; [|reflexivity]. cbn [of_option rbind].
  destruct (gcm_decrypt _ _ _ _); reflexivity.
Qed.


End SecurityFacts.

(** ** Sessions *)

Section SessionFacts.

Lemma validateSession_absent (m : SessionManager) (now : Z)
    (uid tok : string) :
  sessions m !! uid = None -> validateSession m now uid tok = (false, m).
Proof. intros E. unfold validateSession. now rewrite E. Qed.

(** C7: [validateSession] answers false and leaves the table alone when
    there is no session or the token differs; with the right token it
    answers true and sets [lastActivity] to the clock reading when the
    idle time is at most the timeout; otherwise it removes the session
    and answers false, and so does every later call. *)
Theorem validateSession_cases (m : SessionManager) (now : Z)
    (uid tok : string) :
  (sessions m !! uid = None -> validateSession m now uid tok = (false, m))
  /\ (forall s, sessions m !! uid = Some s -> token s <> tok ->
        validateSession m now uid tok = (false, m))
  /\ (forall s, sessions m !! uid = Some s -> token s = tok ->
        now - lastActivity s <= timeoutMs m ->
        exists m' s',
          validateSession m now uid tok = (true, m')
          /\ sessions m' !! uid = Some s'
          /\ lastActivity s' = now /\ token s' = tok
          /\ s_createdAt s' = s_createdAt s
          /\ (forall u, u <> uid -> sessions m' !! u = sessions m !! u)
          /\ timeoutMs m' = timeoutMs m)
  /\ (forall s, sessions m !! uid = Some s -> token s = tok ->
        timeoutMs m < now - lastActivity s ->
        exists m',
          validateSession m now uid tok = (false, m')
          /\ sessions m' !! uid = None
          /\ (forall u, u <> uid -> sessions m' !! u = sessions m !! u)
          /\ (forall now' tok',
                validateSession m' now' uid tok' = (false, m'))).
Proof.
  repeat split.
  - apply validateSession_absent.
  - intros s E N. unfold validateSession. rewrite E.
    destruct (String.eqb (token s) tok) eqn:T; [|reflexivity].
    apply String.eqb_eq in T. contradiction.
  - intros s E T I. unfold validateSession. rewrite E.
    rewrite (proj2 (String.eqb_eq _ _) T). cbn [negb].
    rewrite (proj2 (Z.ltb_ge _ _) I).
    eexists _, _. split; [reflexivity|]. cbn [sessions timeoutMs].
    split; [apply lookup_insert_eq|]. cbn [lastActivity token s_createdAt].
    repeat split; auto.
    intros u Hu. apply lookup_insert_ne. congruence.
  - intros s E T I. unfold validateSession. rewrite E.
    rewrite (proj2 (String.eqb_eq _ _) T). cbn [negb].
    rewrite (proj2 (Z.ltb_lt _ _) I).
    exists (destroySession m uid). split; [reflexivity|].
    split; [apply lookup_delete_eq|].
    split; [intros u Hu; apply lookup_delete_ne; congruence|].
    intros now' tok'. apply validateSession_absent. apply lookup_delete_eq.
Qed.

End SessionFacts.

(** ** Sorting *)

Section SortFacts.
Context {A : Type} (cmp : A -> A -> option Z).

Lemma insert_back_front (x : A) (l : list A) :
  fst (insert_back cmp x l) = true -> snd (insert_back cmp x l) = x :: l.
Proof.
  destruct l as [|y l]; [reflexivity|]. cbn.
  destruct (insert_back cmp x l) as [[] r]; [|discriminate].
  destruct (belongs_after cmp y x); [reflexivity | discriminate].
Qed.

Lemma insert_back_head (x : A) (l : list A) :
  fst (insert_back cmp x l) = false ->
  exists y l' r', l = y :: l' /\ snd (insert_back cmp x l) = y :: r'.
Proof.
  destruct l as [|y l]; [discriminate|]. cbn.
  destruct (insert_back cmp x l) as [[] r].
  - destruct (belongs_after cmp y x); [discriminate|]. eauto.
  - eauto.
Qed.

Lemma insert_back_perm (x : A) (l : list A) :
  Permutation (snd (insert_back cmp x l)) (x :: l).
Proof.
  induction l as [|y l IH]; [reflexivity|]. cbn.
  destruct (insert_back cmp x l) as [[] r] eqn:E; cbn [snd] in *.
  - destruct (belongs_after cmp y x); cbn [snd];
      [reflexivity | apply perm_swap].
  - rewrite IH. apply perm_swap.
Qed.

Lemma sort_from_perm (l acc : list A) :
  Permutation
    (fold_left (fun sorted x => snd (insert_back cmp x sorted)) l acc)
    (acc ++ l).
Proof.
  revert acc. induction l as [|x l IH]; intros acc; cbn.
  - now rewrite app_nil_r.
  - rewrite IH, insert_back_perm. apply Permutation_middle.
Qed.

Lemma sort_perm (l : list A) : Permutation (sort cmp l) l.
Proof. apply (sort_from_perm l []). Qed.

Lemma sort_snoc (l : list A) (x : A) :
  sort cmp (l ++ [x])%list = snd (insert_back cmp x (sort cmp l)).
Proof. unfold sort. now rewrite fold_left_app. Qed.

Lemma insert_back_one (x y : A) :
  snd (insert_back cmp x [y])
  = if belongs_after cmp y x then [x; y] else [y; x].
Proof. cbn. now destruct (belongs_after cmp y x). Qed.

(** When [x] does not pass the last element it stays at the end. *)
Lemma insert_back_stays (x y : A) (l : list A) :
  belongs_after cmp y x = false ->
  insert_back cmp x (l ++ [y])%list = (false, (l ++ [y; x])%list).
Proof.
  intros B. induction l as [|z l IH]; cbn.
  - now rewrite B.
  - now rewrite IH.
Qed.

End SortFacts.

Section SortedFacts.
Context `{Runtime}.

Lemma belongs_after_records (y x : record) (ty tx : Z) :
  time_of y = Some ty -> time_of x = Some tx ->
  belongs_after compareRecords y x = (ty <? tx).
Proof.
  intros Ey Ex. unfold belongs_after, compareRecords. rewrite Ex, Ey.
  destruct (0 <? tx - ty) eqn:C, (ty <? tx) eqn:D; try reflexivity; lia.
Qed.

Lemma belongs_after_invalid (y x : record) :
  time_of y = None \/ time_of x = None ->
  belongs_after compareRecords y x = false.
Proof.
  intros [E|E]; unfold belongs_after, compareRecords; rewrite E;
    [now destruct (time_of x) | reflexivity].
Qed.

Lemma sorted_desc_tail (a : record) (l : list record) :
  sorted_desc (a :: l) -> sorted_desc l.
Proof. intros S. inversion S; subst; [constructor | assumption]. Qed.

Lemma insert_back_sorted (x : record) (l : list record) :
  valid x -> Forall valid l -> sorted_desc l ->
  sorted_desc (snd (insert_back compareRecords x l)).
Proof.
  intros [tx Ex] F S. induction l as [|y l IH]; [constructor|].
  inversion F as [|? ? [ty Ey] Fl]; subst.
  specialize (IH Fl (sorted_desc_tail _ _ S)).
  cbn. destruct (insert_back compareRecords x l) as [front r] eqn:E.
  destruct front.
  - pose proof (insert_back_front compareRecords x l) as Hf.
    rewrite E in Hf. cbn in Hf. specialize (Hf eq_refl). subst r.
    rewrite (belongs_after_records _ _ _ _ Ey Ex).
    destruct (ty <? tx) eqn:C; cbn [snd].
    + apply (sorted_cons x y l tx ty); auto. lia.
    + apply (sorted_cons y x l ty tx); auto. lia.
  - pose proof (insert_back_head compareRecords x l) as Hh.
    rewrite E in Hh. cbn in Hh.
    destruct (Hh eq_refl) as (z & l' & r' & -> & ->). cbn [snd].
    inversion S as [| |? ? ? ta tb Ea Eb Le S']; subst.
    apply (sorted_cons y z r' ta tb); auto.
Qed.

Lemma sort_from_sorted (l acc : list record) :
  Forall valid l -> Forall valid acc -> sorted_desc acc ->
  sorted_desc
    (fold_left (fun sorted x => snd (insert_back compareRecords x sorted))
       l acc).
Proof.
  revert acc. induction l as [|x l IH]; intros acc Fl Fa S; [exact S|].
  inversion Fl; subst. cbn. apply IH; [assumption | |].
  - eapply Permutation_Forall; [symmetry; apply insert_back_perm|].
    now constructor.
  - now apply insert_back_sorted.
Qed.

Lemma sort_sorted (l : list record) :
  Forall valid l -> sorted_desc (sort compareRecords l).
Proof. intros F. apply sort_from_sorted; [assumption | constructor | constructor]. Qed.

Lemma sort_two (a b : record) (ta tb : Z) :
  time_of a = Some ta -> time_of b = Some tb -> ta < tb ->
  sort compareRecords [a; b] = [b; a].
Proof.
  intros Ea Eb L. cbn.
  rewrite (belongs_after_records _ _ _ _ Ea Eb).
  now rewrite (proj2 (Z.ltb_lt _ _) L).
Qed.

End SortedFacts.

(** ** The record store *)

Section DatabaseFacts.
Context `{Runtime}.

Lemma existsSync_true (d : FileSystem) (path text : string) :
  files d !! path = Some text -> existsSync d path = true.
Proof. intros E. unfold existsSync. rewrite E. reflexivity. Qed.

Lemma existsSync_false (d : FileSystem) (path : string) :
  files d !! path = None -> existsSync d path = false.
Proof. intros E. unfold existsSync. rewrite E. reflexivity. Qed.

Lemma readFileSync_ok (d : FileSystem) (path text : string) :
  files d !! path = Some text -> path ∉ unreadable d ->
  readFileSync d path = Ok text.
Proof.
  intros E N. unfold readFileSync. rewrite E.
  now rewrite bool_decide_eq_false_2.
Qed.

Lemma loadUserData_no_file (st : State) (now : Z) (uid : string)
    (enc : bool) :
  files (fs st) !! getUserDataPath uid = None ->
  loadUserData st now uid enc = (emptyUserData now uid None, st).
Proof.
  intros E. unfold loadUserData. now rewrite (existsSync_false _ _ E).
Qed.

Lemma loadUserData_fs (st : State) (now : Z) (uid : string) (enc : bool) :
  fs (snd (loadUserData st now uid enc)) = fs st.
Proof.
  unfold loadUserData.
  destruct (existsSync (fs st) (getUserDataPath uid)); [|reflexivity].
  cbn [negb].
  destruct (readFileSync (fs st) (getUserDataPath uid)); [|reflexivity].
  destruct enc.
  - destruct (decryptData (MASTER_KEY st) a) as [[text|m] mk'];
      [destruct (JSON_parse text)|]; reflexivity.
  - destruct (JSON_parse a); reflexivity.
Qed.

(** The file a successful [saveUserData] leaves, and the document it
    holds. *)
Lemma saveUserData_true (st : State) (now : Z) (iv0 : list byte)
    (uid : string) (data : UserData) (enc : bool) (data' : UserData)
    (st' : State) :
  saveUserData st now iv0 uid data enc = (true, data', st') ->
  data' = touchMetadata now data
  /\ readOnly (fs st) = false
  /\ exists text,
       fs st' = {| files := <[getUserDataPath uid := text]> (files (fs st));
                   unreadable := unreadable (fs st);
                   readOnly := readOnly (fs st) |}
       /\ (if enc
           then encryptData (MASTER_KEY st) iv0 (JSON_stringify data')
                = (Ok text, MASTER_KEY st')
           else text = JSON_stringify data'
                /\ MASTER_KEY st' = MASTER_KEY st).
Proof.
  unfold saveUserData. intros E.
  destruct enc.
  - destruct (encryptData (MASTER_KEY st) iv0
                (JSON_stringify (touchMetadata now data)))
      as [[text|m] mk'] eqn:C; cbn [rbind] in E; [|discriminate].
    unfold writeFileSync in E.
    destruct (readOnly (fs st)) eqn:R; [discriminate|].
    inversion E; subst. cbn. repeat split. eauto.
  - cbn [rbind] in E. unfold writeFileSync in E.
    destruct (readOnly (fs st)) eqn:R; [discriminate|].
    inversion E; subst. cbn. repeat split. eauto.
Qed.

Lemma load_after_save (st : State) (now : Z) (iv0 : list byte)
    (uid : string) (data : UserData) (enc : bool) (data' : UserData)
    (st' : State) (now' : Z) :
  JSON_roundtrip -> gcm_correct -> envelope_parses ->
  saveUserData st now iv0 uid data enc = (true, data', st') ->
  getUserDataPath uid ∉ unreadable (fs st) ->
  loadUserData st' now' uid enc = (data', st').
Proof.
  intros HJ HG HE S R.
  apply saveUserData_true in S as (-> & RO & text & F & P).
  destruct st' as [mk' d']. cbn [fs MASTER_KEY] in *. subst d'.
  unfold loadUserData. cbn [fs MASTER_KEY files unreadable].
  rewrite (existsSync_true _ _ text) by apply lookup_insert_eq.
  cbn [negb].
  rewrite (readFileSync_ok _ _ text) by (try apply lookup_insert_eq; exact R).
  destruct enc.
  - rewrite (encrypt_then_decrypt _ _ _ _ _ HG HE P). now rewrite HJ.
  - destruct P as [-> ->]. now rewrite HJ.
Qed.

Lemma saveUserData_unreadable (st : State) (now : Z) (iv0 : list byte)
    (uid : string) (data : UserData) (enc : bool) :
  unreadable (fs (snd (saveUserData st now iv0 uid data enc)))
  = unreadable (fs st).
Proof.
  unfold saveUserData.
  destruct (if enc then _ else _) as [[text|m] mk']; cbn [rbind].
  - unfold writeFileSync. destruct (readOnly (fs st)); reflexivity.
  - reflexivity.
Qed.

(** [addRecord] is a load, a push, a sort and a save. *)
Lemma addRecord_steps (st : State) (now : Z) (rnd : string)
    (iv0 : list byte) (uid : string) (r : record) (enc : bool)
    (ok : bool) (st' : State) :
  addRecord st now rnd iv0 uid r enc = (ok, st') ->
  let loaded := loadUserData st now uid enc in
  exists data',
    saveUserData (snd loaded) now iv0 uid
      {| userId := userId (fst loaded);
         records := sort compareRecords
                      (records (fst loaded) ++ [newRecord now rnd r]);
         metadata := metadata (fst loaded) |} enc
    = (ok, data', st').
Proof.
  intros E loaded. subst loaded. unfold addRecord in E.
  destruct (loadUserData st now uid enc) as [d st1]. cbn [fst snd].
  destruct (saveUserData st1 now iv0 uid _ enc) as [[ok' data'] st2].
  inversion E; subst. eauto.
Qed.

(** What a later [getAllRecords] returns after a successful [addRecord]. *)
Lemma getAllRecords_after_add (st : State) (now : Z) (rnd : string)
    (iv0 : list byte) (uid : string) (r : record) (enc : bool)
    (st' : State) (now' : Z) :
  JSON_roundtrip -> gcm_correct -> envelope_parses ->
  addRecord st now rnd iv0 uid r enc = (true, st') ->
  getUserDataPath uid ∉ unreadable (fs st) ->
  getAllRecords st' now' uid enc
  = (sort compareRecords
       (records (fst (loadUserData st now uid enc))
          ++ [newRecord now rnd r]), st').
Proof.
  intros HJ HG HE A R.
  apply addRecord_steps in A as (data' & S).
  assert (L : loadUserData st' now' uid enc = (data', st')).
  { eapply load_after_save; eauto. now rewrite loadUserData_fs. }
  unfold getAllRecords. rewrite L.
  apply saveUserData_true in S as (-> & _). reflexivity.
Qed.

Lemma leb_lex_le (s t : string) : String.leb s t = true <-> lex_le s t.
Proof.
  unfold String.leb. revert t.
  induction s as [|c s IH]; intros [|d t]; cbn.
  - split; [constructor | reflexivity].
  - split; [constructor | reflexivity].
  - split; [discriminate | intros L; inversion L].
  - unfold Ascii.compare.
    destruct (N.compare_spec (N_of_ascii c) (N_of_ascii d)) as [E|L|G].
    + assert (c = d) as ->.
      { rewrite <- (ascii_N_embedding c), E. apply ascii_N_embedding. }
      rewrite IH. split; [apply lex_eq|].
      intros L. inversion L; subst; [lia | assumption].
    + split; [intros _; now apply lex_lt | reflexivity].
    + split; [discriminate|].
      intros L. inversion L; subst; lia.
Qed.

(** C4: [loadUserData] returns a document in every case (its result is
    a document, never an exception) and leaves the disk as it is: the
    empty document when there is no file, the empty document with the
    error marker when the read, the decryption or the parse fails, and
    the parsed document otherwise. *)
Theorem loadUserData_degrades (st : State) (now : Z) (uid : string)
    (enc : bool) :
  fs (snd (loadUserData st now uid enc)) = fs st
  /\ (forall err,
        emptyUserData now uid err
        = {| userId := sanitizePhoneNumber uid; records := [];
             metadata := Some {| createdAt := Some (toISOString now);
                                 lastUpdate := Some (toISOString now);
                                 totalRecords := Some 0;
                                 error := err |} |})
  /\ (files (fs st) !! getUserDataPath uid = None ->
      loadUserData st now uid enc = (emptyUserData now uid None, st))
  /\ (forall m,
        files (fs st) !! getUserDataPath uid <> None ->
        readFileSync (fs st) (getUserDataPath uid) = Throw m ->
        fst (loadUserData st now uid enc)
        = emptyUserData now uid (Some loadFailure))
  /\ (forall text m,
        readFileSync (fs st) (getUserDataPath uid) = Ok text ->
        enc = true ->
        fst (decryptData (MASTER_KEY st) text) = Throw m ->
        fst (loadUserData st now uid enc)
        = emptyUserData now uid (Some loadFailure))
  /\ (forall text plain,
        readFileSync (fs st) (getUserDataPath uid) = Ok text ->
        (if enc then fst (decryptData (MASTER_KEY st) text) = Ok plain
         else plain = text) ->
        JSON_parse plain = None ->
        fst (loadUserData st now uid enc)
        = emptyUserData now uid (Some loadFailure))
  /\ (forall text plain data,
        readFileSync (fs st) (getUserDataPath uid) = Ok text ->
        (if enc then fst (decryptData (MASTER_KEY st) text) = Ok plain
         else plain = text) ->
        JSON_parse plain = Some data ->
        fst (loadUserData st now uid enc) = data).
Proof.
  split; [apply loadUserData_fs|].
  split; [reflexivity|].
  split; [intros E; now apply loadUserData_no_file|].
  assert (X : forall text,
             readFileSync (fs st) (getUserDataPath uid) = Ok text ->
             existsSync (fs st) (getUserDataPath uid) = true).
  { intros text R. unfold readFileSync in R.
    destruct (files (fs st) !! getUserDataPath uid) eqn:E; [|discriminate].
    eapply existsSync_true; eauto. }
  repeat split.
  - intros m E R. unfold loadUserData.
    destruct (files (fs st) !! getUserDataPath uid) eqn:F; [|congruence].
    rewrite (existsSync_true _ _ _ F), R. reflexivity.
  - intros text m R -> D. unfold loadUserData. rewrite (X _ R), R.
    cbn [negb].
    destruct (decryptData (MASTER_KEY st) text) as [[plain|m'] mk'];
      [discriminate | reflexivity].
  - intros text plain R D P. unfold loadUserData. rewrite (X _ R), R.
    cbn [negb]. destruct enc.
    + destruct (decryptData (MASTER_KEY st) text) as [[plain'|m'] mk'];
        cbn [fst] in D; [|discriminate].
      inversion D; subst. now rewrite P.
    + subst. now rewrite P.
  - intros text plain data R D P. unfold loadUserData. rewrite (X _ R), R.
    cbn [negb]. destruct enc.
    + destruct (decryptData (MASTER_KEY st) text) as [[plain'|m'] mk'];
        cbn [fst] in D; [|discriminate].
      inversion D; subst. now rewrite P.
    + subst. now rewrite P.
Qed.

(** C5: [saveUserData] first sets [totalRecords] to the number of
    records and [lastUpdate] to the clock reading on the caller's
    document; when it returns true the file holds that document, so the
    stored count equals the number of stored records; it returns false,
    leaving the disk as it was, when the write or the encryption throws,
    and true otherwise. *)
Theorem saveUserData_counts_records (st : State) (now : Z)
    (iv0 : list byte) (uid : string) (data : UserData) (enc : bool)
    (ok : bool) (data' : UserData) (st' : State) :
  JSON_roundtrip -> gcm_correct -> envelope_parses ->
  saveUserData st now iv0 uid data enc = (ok, data', st') ->
  (records data' = records data
   /\ exists m,
        metadata data' = Some m
        /\ totalRecords m = Some (Z.of_nat (List.length (records data')))
        /\ lastUpdate m = Some (toISOString now))
  /\ (ok = true ->
      exists text plain,
        files (fs st') !! getUserDataPath uid = Some text
        /\ (if enc then fst (decryptData (MASTER_KEY st') text) = Ok plain
            else plain = text)
        /\ JSON_parse plain = Some data')
  /\ (ok = true -> getUserDataPath uid ∉ unreadable (fs st) ->
      forall now', loadUserData st' now' uid enc = (data', st'))
  /\ (ok = false -> fs st' = fs st)
  /\ (ok = false <->
        readOnly (fs st) = true
        \/ (enc = true
            /\ exists m,
                 fst (encryptData (MASTER_KEY st) iv0
                        (JSON_stringify (touchMetadata now data)))
                 = Throw m)).
Proof.
  intros HJ HG HE S.
  assert (D : data' = touchMetadata now data).
  { unfold saveUserData in S.
    destruct (if enc then _ else _) as [p mk'].
    destruct (rbind p _); inversion S; reflexivity. }
  split.
  { subst data'. split; [reflexivity|]. cbn. eauto. }
  split.
  { intros ->. pose proof S as S'.
    apply saveUserData_true in S' as (_ & _ & text & F & P).
    rewrite F. cbn [files]. rewrite lookup_insert_eq.
    destruct enc.
    - exists text, (JSON_stringify data').
      rewrite (encrypt_then_decrypt _ _ _ _ _ HG HE P). auto.
    - destruct P as [-> _]. eauto. }
  split.
  { intros -> R now'. eapply load_after_save; eauto. }
  unfold saveUserData in S.
  destruct enc.
  - destruct (encryptData (MASTER_KEY st) iv0
                (JSON_stringify (touchMetadata now data)))
      as [[text|m] mk'] eqn:C; cbn [rbind fst] in *.
    + unfold writeFileSync in S. destruct (readOnly (fs st)) eqn:R;
        inversion S; subst; cbn.
      * split; [reflexivity|]. split; [auto|]. intros _. reflexivity.
      * split; [discriminate|]. split; [discriminate|].
        intros [?|[_ [? ?]]]; discriminate.
    + inversion S; subst. cbn. split; [reflexivity|].
      split; [|reflexivity]. intros _. right. eauto.
  - cbn [rbind] in S. unfold writeFileSync in S.
    destruct (readOnly (fs st)) eqn:R; inversion S; subst; cbn.
    + split; [reflexivity|]. split; [auto|]. reflexivity.
    + split; [discriminate|]. split; [discriminate|].
      intros [?|[? _]]; discriminate.
Qed.

(** C9, as amended: [deleteUserData] removes the file and returns true
    when the file existed and the removal did not throw; it returns false
    and changes nothing when no file existed, and also when the removal
    throws, the file then staying in place; after a call that returned
    true, and after a call made when no file existed, [loadUserData]
    returns the empty document, whose [totalRecords] is 0. *)
Theorem deleteUserData_removes (st : State) (uid : string) :
  (forall text,
     files (fs st) !! getUserDataPath uid = Some text ->
     readOnly (fs st) = false ->
     exists st',
       deleteUserData st uid = (true, st')
       /\ files (fs st') = delete (getUserDataPath uid) (files (fs st)))
  /\ (files (fs st) !! getUserDataPath uid = None ->
      deleteUserData st uid = (false, st))
  /\ (forall text msg,
        files (fs st) !! getUserDataPath uid = Some text ->
        unlinkSync (fs st) (getUserDataPath uid) = Throw msg ->
        deleteUserData st uid = (false, st))
  /\ (forall text,
        files (fs st) !! getUserDataPath uid = Some text ->
        readOnly (fs st) = true ->
        deleteUserData st uid = (false, st)
        /\ files (fs (snd (deleteUserData st uid))) !! getUserDataPath uid
           = Some text)
  /\ (forall ok st' now enc,
        deleteUserData st uid = (ok, st') ->
        ok = true \/ files (fs st) !! getUserDataPath uid = None ->
        loadUserData st' now uid enc = (emptyUserData now uid None, st')
        /\ records (emptyUserData now uid None) = []
        /\ (exists m, metadata (emptyUserData now uid None) = Some m
                      /\ totalRecords m = Some 0)).
Proof.
  split; [|split; [|split; [|split]]].
  - intros text E R. unfold deleteUserData, unlinkSync.
    rewrite (existsSync_true _ _ _ E), R, E. eauto.
  - intros E. unfold deleteUserData. now rewrite (existsSync_false _ _ E).
  - intros text msg E U. unfold deleteUserData.
    now rewrite (existsSync_true _ _ _ E), U.
  - intros text E R. unfold deleteUserData, unlinkSync.
    rewrite (existsSync_true _ _ _ E), R. cbn [snd]. auto.
  - intros ok st' now enc D C. split; [|split; [reflexivity | cbn; eauto]].
    apply loadUserData_no_file.
    unfold deleteUserData, unlinkSync in D.
    destruct (files (fs st) !! getUserDataPath uid) as [text|] eqn:E.
    + rewrite (existsSync_true _ _ _ E) in D.
      destruct (readOnly (fs st)); inversion D; subst.
      * destruct C; discriminate.
      * apply lookup_delete_eq.
    + rewrite (existsSync_false _ _ E) in D. inversion D; subst. exact E.
Qed.

Lemma newRecord_lookup (now : Z) (rnd : string) (r : record)
    (key : string) :
  key = "id" \/ key = "timestamp" ->
  newRecord now rnd r !! key
  = match r !! key with
    | Some v => Some v
    | None => if String.eqb key "id" then Some (generateRecordId now rnd)
              else Some (toISOString now)
    end.
Proof.
  intros K. unfold newRecord, spread. rewrite lookup_union.
  destruct (r !! key) as [v|] eqn:E.
  - now rewrite union_Some_l.
  - rewrite (left_id None _).
    assert (C : forall o : record,
               with_property "content" (r !! "content") o !! key = o !! key).
    { intros o. unfold with_property.
      destruct (r !! "content"); [|reflexivity].
      apply lookup_insert_ne. destruct K; subst; discriminate. }
    rewrite C. destruct K; subst; reflexivity.
Qed.

(** A record that brings no timestamp is stamped with the instant of
    the call. *)
Lemma time_of_newRecord (now : Z) (rnd : string) (r : record) :
  r !! "timestamp" = None ->
  time_of (newRecord now rnd r) = Date_parse (toISOString now).
Proof.
  intros E. unfold time_of.
  rewrite newRecord_lookup by auto. now rewrite E.
Qed.

(** Two records added in turn to an empty store, the second with the
    later timestamp. *)
Lemma addRecord_twice (st : State) (uid : string) (enc : bool)
    (now1 : Z) (rnd1 : string) (iv1 : list byte) (r1 : record) (st1 : State)
    (now2 : Z) (rnd2 : string) (iv2 : list byte) (r2 : record) (st2 : State)
    (t1 t2 now' : Z) :
  JSON_roundtrip -> gcm_correct -> envelope_parses ->
  getUserDataPath uid ∉ unreadable (fs st) ->
  files (fs st) !! getUserDataPath uid = None ->
  addRecord st now1 rnd1 iv1 uid r1 enc = (true, st1) ->
  addRecord st1 now2 rnd2 iv2 uid r2 enc = (true, st2) ->
  time_of (newRecord now1 rnd1 r1) = Some t1 ->
  time_of (newRecord now2 rnd2 r2) = Some t2 ->
  t1 < t2 ->
  fst (getAllRecords st2 now' uid enc)
  = [newRecord now2 rnd2 r2; newRecord now1 rnd1 r1].
Proof.
  intros HJ HG HE R E A1 A2 T1 T2 L.
  assert (R1 : getUserDataPath uid ∉ unreadable (fs st1)).
  { apply addRecord_steps in A1 as (d & S).
    pose proof (saveUserData_unreadable
                  (snd (loadUserData st now1 uid enc)) now1 iv1 uid
                  {| userId := userId (fst (loadUserData st now1 uid enc));
                     records := sort compareRecords
                       (records (fst (loadUserData st now1 uid enc))
                          ++ [newRecord now1 rnd1 r1]);
                     metadata := metadata (fst (loadUserData st now1 uid enc)) |}
                  enc) as U.
    rewrite S in U. cbn [snd] in U. rewrite U, loadUserData_fs. exact R. }
  assert (L1 : records (fst (loadUserData st1 now2 uid enc))
               = [newRecord now1 rnd1 r1]).
  { pose proof (getAllRecords_after_add _ _ _ _ _ _ _ _ now2 HJ HG HE A1 R)
      as G1.
    unfold getAllRecords in G1.
    destruct (loadUserData st1 now2 uid enc) as [d1 s1]. cbn [fst].
    rewrite (loadUserData_no_file _ _ _ _ E) in G1.
    inversion G1 as [[G1a G1b]]. rewrite G1a. reflexivity. }
  rewrite (getAllRecords_after_add _ _ _ _ _ _ _ _ now' HJ HG HE A2 R1).
  cbn [fst]. rewrite L1. cbn [app]. now apply (sort_two _ _ t1 t2).
Qed.

(** C3, as amended: when the timestamps of the stored records and of the
    new one are all dates, the collection a successful [addRecord]
    persists is in descending order of timestamp and holds the earlier
    records and the new one; in particular, from an empty store, after
    [addRecord] of [r1] and then of [r2], when the timestamp of the
    second stored record is later than that of the first,
    [getAllRecords] returns the second then the first; that is the case
    when neither record brings a timestamp of its own and the clock has
    advanced between the two calls. *)
Theorem addRecord_sorted_descending (st : State) (uid : string)
    (enc : bool) :
  JSON_roundtrip -> gcm_correct -> envelope_parses ->
  getUserDataPath uid ∉ unreadable (fs st) ->
  (forall now rnd iv0 r st' now',
     addRecord st now rnd iv0 uid r enc = (true, st') ->
     Forall valid (records (fst (loadUserData st now uid enc))
                     ++ [newRecord now rnd r]) ->
     sorted_desc (fst (getAllRecords st' now' uid enc))
     /\ Permutation (fst (getAllRecords st' now' uid enc))
          (records (fst (loadUserData st now uid enc))
             ++ [newRecord now rnd r]))
  /\ (forall now1 rnd1 iv1 r1 st1 now2 rnd2 iv2 r2 st2 t1 t2 now',
        files (fs st) !! getUserDataPath uid = None ->
        addRecord st now1 rnd1 iv1 uid r1 enc = (true, st1) ->
        addRecord st1 now2 rnd2 iv2 uid r2 enc = (true, st2) ->
        time_of (newRecord now1 rnd1 r1) = Some t1 ->
        time_of (newRecord now2 rnd2 r2) = Some t2 ->
        t1 < t2 ->
        fst (getAllRecords st2 now' uid enc)
        = [newRecord now2 rnd2 r2; newRecord now1 rnd1 r1])
  /\ (forall now1 rnd1 iv1 r1 st1 now2 rnd2 iv2 r2 st2 now',
        files (fs st) !! getUserDataPath uid = None ->
        addRecord st now1 rnd1 iv1 uid r1 enc = (true, st1) ->
        addRecord st1 now2 rnd2 iv2 uid r2 enc = (true, st2) ->
        r1 !! "timestamp" = None -> r2 !! "timestamp" = None ->
        Date_reads now1 -> Date_reads now2 ->
        now1 < now2 ->
        newRecord now1 rnd1 r1 !! "timestamp" = Some (toISOString now1)
        /\ newRecord now2 rnd2 r2 !! "timestamp" = Some (toISOString now2)
        /\ fst (getAllRecords st2 now' uid enc)
           = [newRecord now2 rnd2 r2; newRecord now1 rnd1 r1]).
Proof.
  intros HJ HG HE R. split; [|split].
  - intros now rnd iv0 r st' now' A F.
    rewrite (getAllRecords_after_add _ _ _ _ _ _ _ _ now' HJ HG HE A R).
    cbn [fst]. split; [now apply sort_sorted | apply sort_perm].
  - intros now1 rnd1 iv1 r1 st1 now2 rnd2 iv2 r2 st2 t1 t2 now'
      E A1 A2 T1 T2 L.
    now apply (addRecord_twice st uid enc now1 rnd1 iv1 r1 st1
                 now2 rnd2 iv2 r2 st2 t1 t2).
  - intros now1 rnd1 iv1 r1 st1 now2 rnd2 iv2 r2 st2 now'
      E A1 A2 N1 N2 D1 D2 L.
    split; [rewrite newRecord_lookup by auto; now rewrite N1|].
    split; [rewrite newRecord_lookup by auto; now rewrite N2|].
    apply (addRecord_twice st uid enc now1 rnd1 iv1 r1 st1
             now2 rnd2 iv2 r2 st2 now1 now2); auto.
    + now rewrite time_of_newRecord.
    + now rewrite time_of_newRecord.
Qed.

(** C10: the record [addRecord] builds keeps the [id] and the
    [timestamp] of the caller's object when it has them, and takes the
    generated identifier and the current instant only for the one it
    lacks; that record is the one stored. *)
Theorem addRecord_keeps_caller_id_and_timestamp (st : State) (now : Z)
    (rnd : string) (iv0 : list byte) (uid : string) (r : record)
    (enc : bool) (st' : State) :
  JSON_roundtrip -> gcm_correct -> envelope_parses ->
  getUserDataPath uid ∉ unreadable (fs st) ->
  addRecord st now rnd iv0 uid r enc = (true, st') ->
  (forall v, r !! "id" = Some v -> newRecord now rnd r !! "id" = Some v)
  /\ (forall v, r !! "timestamp" = Some v ->
        newRecord now rnd r !! "timestamp" = Some v)
  /\ (r !! "id" = None ->
      newRecord now rnd r !! "id" = Some (generateRecordId now rnd))
  /\ (r !! "timestamp" = None ->
      newRecord now rnd r !! "timestamp" = Some (toISOString now))
  /\ (forall now', In (newRecord now rnd r)
                     (fst (getAllRecords st' now' uid enc))).
Proof.
  intros HJ HG HE R A.
  repeat split.
  - intros v E. rewrite newRecord_lookup by auto. now rewrite E.
  - intros v E. rewrite newRecord_lookup by auto. now rewrite E.
  - intros E. rewrite newRecord_lookup by auto. now rewrite E.
  - intros E. rewrite newRecord_lookup by auto. now rewrite E.
  - intros now'.
    rewrite (getAllRecords_after_add _ _ _ _ _ _ _ _ now' HJ HG HE A R).
    cbn [fst]. eapply Permutation_in; [symmetry; apply sort_perm|].
    apply in_or_app. right. now left.
Qed.

(** The records [getRecentRecords] keeps are those of the store whose
    date is at or after the limit, in the order of the store. *)
Lemma getRecentRecords_filter (st : State) (now : Z) (uid : string)
    (days : Z) (enc : bool) :
  fst (getRecentRecords st now uid days enc)
  = List.filter
      (date_at_least (formatDate_of tzOffset (setDate_back now days)))
      (fst (getAllRecords st now uid enc)).
Proof.
  unfold getRecentRecords, getAllRecords.
  destruct (loadUserData st now uid enc). reflexivity.
Qed.


(** Moving a Date back by whole days moves its local day by as many. *)
Lemma localDay_back (tz now days : Z) :
  localDay tz (now - days * msPerDay) = localDay tz now - days.
Proof.
  unfold localDay.
  replace (now - days * msPerDay + tz)
    with (now + tz + (- days) * msPerDay) by ring.
  rewrite Z.div_add by discriminate. ring.
Qed.

(** The limit text when the limit is a Date, and when it is not. *)
Lemma limit_in_range (tz now days : Z) :
  Z.abs (now - days * msPerDay) <= maxTime ->
  formatDate_of tz (setDate_back now days)
  = formatDate (civil_from_days (localDay tz now - days)).
Proof.
  intros L. unfold setDate_back, TimeClip.
  rewrite (proj2 (Z.leb_le _ _) L). cbn [formatDate_of].
  now rewrite localDay_back.
Qed.


Lemma getAllRecords_time (st : State) (now now' : Z) (uid : string)
    (enc : bool) :
  fst (getAllRecords st now uid enc) = fst (getAllRecords st now' uid enc).
Proof.
  unfold getAllRecords, loadUserData.
  destruct (existsSync (fs st) (getUserDataPath uid)); [|reflexivity].
  cbn [negb].
  destruct (readFileSync (fs st) (getUserDataPath uid)); [|reflexivity].
  destruct (if enc then _ else _) as [[text|m] mk'];
    [destruct (JSON_parse text)|]; reflexivity.
Qed.

(** *** Unencrypted stores on a writable disk *)

Lemma loadUserData_plain_key (st : State) (now : Z) (uid : string) :
  MASTER_KEY (snd (loadUserData st now uid false)) = MASTER_KEY st.
Proof.
  unfold loadUserData.
  destruct (existsSync (fs st) (getUserDataPath uid)); [|reflexivity].
  cbn [negb].
  destruct (readFileSync (fs st) (getUserDataPath uid)); [|reflexivity].
  destruct (JSON_parse a); reflexivity.
Qed.

Lemma loadUserData_plain_file (st : State) (now : Z) (uid : string)
    (d : UserData) :
  JSON_roundtrip ->
  files (fs st) !! getUserDataPath uid = Some (JSON_stringify d) ->
  getUserDataPath uid ∉ unreadable (fs st) ->
  fst (loadUserData st now uid false) = d.
Proof.
  intros HJ E R. unfold loadUserData.
  rewrite (existsSync_true _ _ _ E), (readFileSync_ok _ _ _ E R).
  cbn [negb]. now rewrite HJ.
Qed.

Lemma getAllRecords_fst (st : State) (now : Z) (uid : string) (enc : bool) :
  fst (getAllRecords st now uid enc)
  = records (fst (loadUserData st now uid enc)).
Proof.
  unfold getAllRecords. now destruct (loadUserData st now uid enc).
Qed.

Lemma addRecord_plain (st : State) (now : Z) (rnd : string)
    (iv0 : list byte) (uid : string) (r : record) :
  readOnly (fs st) = false ->
  let d := fst (loadUserData st now uid false) in
  addRecord st now rnd iv0 uid r false
  = (true,
     {| MASTER_KEY := MASTER_KEY st;
        fs := {| files :=
                   <[getUserDataPath uid :=
                       JSON_stringify
                         (touchMetadata now
                            {| userId := userId d;
                               records := sort compareRecords
                                            (records d
                                               ++ [newRecord now rnd r]);
                               metadata := metadata d |})]>
                     (files (fs st));
                 unreadable := unreadable (fs st);
                 readOnly := false |} |}).
Proof.
  intros RO d. subst d. unfold addRecord.
  pose proof (loadUserData_fs st now uid false) as F.
  pose proof (loadUserData_plain_key st now uid) as K.
  destruct (loadUserData st now uid false) as [d st1]. cbn [fst snd] in *.
  unfold saveUserData, writeFileSync. cbn [rbind].
  rewrite F, K, RO. reflexivity.
Qed.

Lemma addRecord_plain_true (st : State) (now : Z) (rnd : string)
    (iv0 : list byte) (uid : string) (r : record) :
  readOnly (fs st) = false ->
  addRecord st now rnd iv0 uid r false
  = (true, snd (addRecord st now rnd iv0 uid r false)).
Proof. intros RO. now rewrite (addRecord_plain _ _ _ _ _ _ RO). Qed.

Lemma addRecord_plain_disk (st : State) (now : Z) (rnd : string)
    (iv0 : list byte) (uid : string) (r : record) :
  readOnly (fs st) = false ->
  readOnly (fs (snd (addRecord st now rnd iv0 uid r false))) = false
  /\ unreadable (fs (snd (addRecord st now rnd iv0 uid r false)))
     = unreadable (fs st).
Proof. intros RO. rewrite (addRecord_plain _ _ _ _ _ _ RO). now split. Qed.

(** The records after a successful unencrypted [addRecord]. *)
Lemma records_after_add_plain (st : State) (now : Z) (rnd : string)
    (iv0 : list byte) (uid : string) (r : record) (now' : Z) :
  JSON_roundtrip ->
  readOnly (fs st) = false ->
  getUserDataPath uid ∉ unreadable (fs st) ->
  fst (getAllRecords (snd (addRecord st now rnd iv0 uid r false)) now' uid
         false)
  = sort compareRecords
      (fst (getAllRecords st now uid false) ++ [newRecord now rnd r]).
Proof.
  intros HJ RO R. rewrite !getAllRecords_fst.
  rewrite (addRecord_plain _ _ _ _ _ _ RO). cbn [snd].
  set (d := fst (loadUserData st now uid false)).
  rewrite (loadUserData_plain_file _ now' uid
             (touchMetadata now
                {| userId := userId d;
                   records := sort compareRecords
                                (records d ++ [newRecord now rnd r]);
                   metadata := metadata d |}) HJ);
    [reflexivity | apply lookup_insert_eq | exact R].
Qed.

End DatabaseFacts.

(** ** The example runtime meets the contracts *)

Module DemoFacts.
Import Demo.

Lemma bytes_eqb_refl (a : list byte) : bytes_eqb a a = true.
Proof.
  induction a as [|x a IH]; [reflexivity|].
  cbn. rewrite IH, andb_true_r. now apply Byte.byte_dec_lb.
Qed.

Lemma bytes_eqb_eq (a b : list byte) : bytes_eqb a b = true -> a = b.
Proof.
  revert b. induction a as [|x a IH]; intros [|y b] E; try discriminate.
  - reflexivity.
  - cbn in E. apply andb_true_iff in E as [E1 E2].
    apply Byte.byte_dec_bl in E1. f_equal; auto.
Qed.


Lemma gcm_correct : @gcm_correct runtime.
Proof.
  intros key iv0 p c t E. cbn in *. unfold encrypt in E. unfold decrypt.
  destruct iv0 as [|b iv0]; [discriminate|].
  inversion E; subst. rewrite bytes_eqb_refl, rev_involutive. reflexivity.
Qed.

Lemma gcm_detects_flips : @gcm_detects_flips runtime.
Proof.
  intros key iv0 p c t iv1 t1 c1 E T. cbn in *.
  unfold encrypt in E. unfold decrypt.
  destruct iv0 as [|b0 iv0]; [discriminate|].
  inversion E; subst c t; clear E.
  destruct iv1 as [|b1 iv1]; [reflexivity|].
  destruct (bytes_eqb t1 (tag_of key (b1 :: iv1) c1)) eqn:B; [|reflexivity].
  exfalso. apply bytes_eqb_eq in B. unfold tag_of in *.
  unfold tampered in T.
  destruct T as [(F & -> & ->)|[(E1 & F & ->)|(E1 & -> & F)]].
  - apply one_bit_flip_changes in F as [N L].
    apply app_inv_head in B. apply app_inv_tail in B. congruence.
  - rewrite E1 in B. apply one_bit_flip_changes in F as [N L]. congruence.
  - rewrite E1 in B. apply one_bit_flip_changes in F as [N L].
    do 2 apply app_inv_head in B. congruence.
Qed.

Lemma list_ascii_app (a b : string) :
  list_ascii_of_string (a ++ b)
  = (list_ascii_of_string a ++ list_ascii_of_string b)%list.
Proof. induction a as [|c a IH]; simpl; [reflexivity | now f_equal]. Qed.

Lemma split_on_nonempty (c : ascii) (l : list ascii) : split_on c l <> [].
Proof.
  destruct l as [|x l]; cbn; [discriminate|].
  destruct (split_on c l); [discriminate|].
  destruct (Ascii.eqb x c); discriminate.
Qed.

Lemma split_on_end (c : ascii) (a : list ascii) :
  ~ In c a -> split_on c a = [a].
Proof.
  induction a as [|x a IH]; intros N; [reflexivity|].
  cbn. rewrite IH by (intros C; apply N; now right).
  destruct (Ascii.eqb x c) eqn:E; [|reflexivity].
  apply Ascii.eqb_eq in E. subst. exfalso. apply N. now left.
Qed.

Lemma split_on_piece (c : ascii) (a rest : list ascii) :
  ~ In c a -> split_on c (a ++ c :: rest) = a :: split_on c rest.
Proof.
  induction a as [|x a IH]; intros N.
  - cbn. rewrite Ascii.eqb_refl.
    destruct (split_on c rest) eqn:S; [|reflexivity].
    now apply split_on_nonempty in S.
  - cbn. rewrite IH by (intros C; apply N; now right).
    destruct (Ascii.eqb x c) eqn:E; [|reflexivity].
    apply Ascii.eqb_eq in E. subst. exfalso. apply N. now left.
Qed.

Lemma char_of_not_quote (v : N) : Base64.char_of v <> quote.
Proof.
  unfold Base64.char_of.
  destruct (nth_in_or_default (N.to_nat v) Base64.alphabet Base64.pad)
    as [I|E].
  - assert (F : forallb (fun c => negb (Ascii.eqb c quote)) Base64.alphabet = true)
      by (vm_compute; reflexivity).
    apply (proj1 (forallb_forall _ _) F) in I.
    intros C. rewrite C in I. discriminate.
  - rewrite E. discriminate.
Qed.

Lemma encode_no_quote (bs : list byte) : ~ In quote (Base64.encode_chars bs).
Proof.
  assert (G : forall n (l : list byte), (List.length l <= n)%nat ->
                ~ In quote (Base64.encode_chars l)).
  { induction n as [|n IH]; intros l Hl.
    - destruct l; [intros [] | cbn in Hl; lia].
    - destruct l as [|b0 [|b1 [|b2 rest]]]; cbn [Base64.encode_chars In].
      + tauto.
      + intros [C|[C|[C|[C|[]]]]];
          solve [ now apply char_of_not_quote in C | discriminate C ].
      + intros [C|[C|[C|[C|[]]]]];
          solve [ now apply char_of_not_quote in C | discriminate C ].
      + intros [C|[C|[C|[C|C]]]];
          try solve [ now apply char_of_not_quote in C ].
        revert C. apply IH. cbn in Hl. lia. }
  apply (G (List.length bs)). lia.
Qed.

Lemma split_join (c : ascii) (pieces : list (list ascii)) :
  pieces <> [] -> Forall (fun p => ~ In c p) pieces ->
  split_on c (join c pieces) = pieces.
Proof.
  induction pieces as [|p ps IH]; intros NE F; [congruence|].
  inversion F as [|? ? Hp Hps]; subst.
  destruct ps as [|p' ps].
  - cbn. now apply split_on_end.
  - cbn [join]. rewrite split_on_piece by assumption.
    f_equal. apply IH; [discriminate | assumption].
Qed.

Lemma parse_combined_envelope (a b c : list byte) :
  parse_combined
    (JSON_stringify_combined
       {| iv := Base64.encode a; authTag := Base64.encode b;
          encrypted := Base64.encode c |})
  = Some {| r_iv := Text (Base64.encode a);
            r_authTag := Text (Base64.encode b);
            r_encrypted := Some (Base64.encode c) |}.
Proof.
  unfold parse_combined.
  assert (E : list_ascii_of_string
                (JSON_stringify_combined
                   {| iv := Base64.encode a; authTag := Base64.encode b;
                      encrypted := Base64.encode c |})
              = join quote (map list_ascii_of_string
                  ["{"; "iv"; ":"; Base64.encode a; ","; "authTag"; ":";
                   Base64.encode b; ","; "encrypted"; ":"; Base64.encode c;
                   "}"])).
  { unfold JSON_stringify_combined, dq. cbn [iv authTag encrypted].
    rewrite !list_ascii_app. reflexivity. }
  fold quote. rewrite E, split_join.
  - cbn [map]. rewrite !string_of_list_ascii_of_string. reflexivity.
  - discriminate.
  - unfold Base64.encode. cbn [map].
    rewrite !list_ascii_of_string_of_list_ascii.
    repeat constructor;
      try apply encode_no_quote;
      try (cbn; intros C; repeat destruct C as [C|C]; try discriminate C; exact C).
Qed.


Lemma envelope_parses : @envelope_parses runtime.
Proof. intros a b c. apply parse_combined_envelope. Qed.


Lemma of_bits_of (p : positive) : of_bits (bits_of p) = Some p.
Proof. induction p as [p IH|p IH|]; cbn; [| |reflexivity]; now rewrite IH. Qed.

Lemma JSON_roundtrip : @JSON_roundtrip runtime.
Proof.
  intros d. cbn. unfold parse, stringify.
  rewrite of_bits_of. apply decode_encode.
Qed.

End DemoFacts.

(** ** Examples on the example runtime *)

Module Examples.
Import Demo.
Import Scenario.

(** The round trip of the text ola under the IV [iv16]. *)
Lemma decrypt_encrypt_roundtrip_witness :
  @gcm_correct runtime /\ @envelope_parses runtime
  /\ @gcm_encrypt runtime key0 iv16 (list_byte_of_string "ola")
     = Some (rev (list_byte_of_string "ola"),
             tag_of key0 iv16 (rev (list_byte_of_string "ola")))
  /\ (@encryptData runtime None iv16 "ola"
      = (Ok (envelope iv16
               (tag_of key0 iv16 (rev (list_byte_of_string "ola")))
               (rev (list_byte_of_string "ola"))), cached)
      /\ @decryptData runtime cached
           (envelope iv16
              (tag_of key0 iv16 (rev (list_byte_of_string "ola")))
              (rev (list_byte_of_string "ola")))
         = (Ok "ola", cached)).
Proof.
  split; [exact DemoFacts.gcm_correct|].
  split; [exact DemoFacts.envelope_parses|].
  split; [reflexivity|].
  exact (@decrypt_encrypt_roundtrip runtime None iv16 "ola" _ _
           DemoFacts.gcm_correct DemoFacts.envelope_parses eq_refl).
Defined.

Lemma flipped_ciphertext_rejected :
  @gcm_detects_flips runtime /\ @envelope_parses runtime
  /\ @gcm_encrypt runtime key0 iv16 (list_byte_of_string "ola")
     = Some (rev (list_byte_of_string "ola"),
             tag_of key0 iv16 (rev (list_byte_of_string "ola")))
  /\ tampered
       (iv16, tag_of key0 iv16 (rev (list_byte_of_string "ola")),
        rev (list_byte_of_string "ola"))
       (iv16, tag_of key0 iv16 (rev (list_byte_of_string "ola")),
        tampered_ct)
  /\ (@encryptData runtime None iv16 "ola"
      = (Ok (envelope iv16
               (tag_of key0 iv16 (rev (list_byte_of_string "ola")))
               (rev (list_byte_of_string "ola"))), cached)
      /\ @decryptData runtime cached
           (envelope iv16
              (tag_of key0 iv16 (rev (list_byte_of_string "ola")))
              tampered_ct)
         = (Throw "Falha na descriptografia", cached)).
Proof.
  assert (T : tampered
       (iv16, tag_of key0 iv16 (rev (list_byte_of_string "ola")),
        rev (list_byte_of_string "ola"))
       (iv16, tag_of key0 iv16 (rev (list_byte_of_string "ola")),
        tampered_ct)).
  { right. right. split; [reflexivity|]. split; [reflexivity|].
    exists 0%nat, 0%N. split; [lia | reflexivity]. }
  split; [exact DemoFacts.gcm_detects_flips|].
  split; [exact DemoFacts.envelope_parses|].
  split; [reflexivity|].
  split; [exact T|].
  exact (@decryptData_flipped_bytes runtime None iv16 "ola" _ _ _ _ _
           DemoFacts.gcm_detects_flips DemoFacts.envelope_parses eq_refl T).
Qed.


(** Inverting bit 0 of the first character of the blob leaves a text
    that does not parse, and [decryptData] throws. *)
Lemma first_bit_flip_throws :
  match flip_string_bit 0 0
          (envelope iv16
             (tag_of key0 iv16 (rev (list_byte_of_string "ola")))
             (rev (list_byte_of_string "ola"))) with
  | Some B =>
      @decryptData sealed_ola cached B
      = (Throw "Falha na descriptografia", cached)
  | None => False
  end.
Proof. vm_compute. reflexivity. Qed.

(** On the example runtime each of the bits of the blob of ola, inverted,
    makes [decryptData] throw or return ola; 26 of them return ola. *)
Lemma every_bit_flip_of_ola :
  List.length answers_to_flips = (8 * String.length blob_ola)%nat
  /\ forallb (fun r => returns_ola r || throws_failure r) answers_to_flips
     = true
  /\ List.length (List.filter returns_ola answers_to_flips) = 26%nat.
Proof. vm_compute. repeat split; reflexivity. Qed.


(** *** The record store on the example runtime *)

Lemma state0_usable : usable state0.
Proof. split; [reflexivity | apply not_elem_of_empty]. Qed.

Lemma add_usable (st : State) (now : Z) (r : record) :
  usable st -> usable (snd (add st now r)).
Proof.
  intros [RO R]. unfold usable.
  destruct (@addRecord_plain_disk runtime st now "k3x9q2m1z" [] user r RO)
    as [RO' U].
  split; [exact RO' | now rewrite U].
Qed.

Lemma add_true (st : State) (now : Z) (r : record) :
  usable st -> add st now r = (true, snd (add st now r)).
Proof. intros [RO R]. now apply addRecord_plain_true. Qed.

Lemma stored_add (st : State) (now : Z) (r : record) :
  usable st ->
  stored (snd (add st now r))
  = sort (@compareRecords runtime) (stored st ++ [made now r]).
Proof.
  intros [RO R].
  rewrite (@getAllRecords_time runtime st t_b now).
  now apply (@records_after_add_plain runtime _ _ _ _ _ _ _
               DemoFacts.JSON_roundtrip).
Qed.

Lemma stored_state0 : stored state0 = [].
Proof. reflexivity. Qed.

Lemma stored_s1 : stored s1 = [made t_a r_a].
Proof.
  unfold s1. rewrite (stored_add _ _ _ state0_usable), stored_state0.
  reflexivity.
Qed.

Lemma first_equal {A : Type} (x y : A) (l l' : list A) :
  x :: l = y :: l' -> x = y.
Proof. intros E. now inversion E. Qed.

Lemma time_a : @time_of runtime (made t_a r_a) = Some t_a.
Proof. vm_compute. reflexivity. Qed.

Lemma time_b : @time_of runtime (made t_b r_b) = Some t_b.
Proof. vm_compute. reflexivity. Qed.

Lemma time_x : @time_of runtime (made t_x r_x) = None.
Proof. vm_compute. reflexivity. Qed.

Lemma time_old : @time_of runtime (made t_b r_old) = Some 1577836800000.
Proof. vm_compute. reflexivity. Qed.

(** C3 as stated fails.  After three successful calls the collection is
    [a; x; b]: the record made last, whose timestamp is the latest, comes
    after the one made first.  And after [r_a] and then [r_old], which is
    added later, [getAllRecords] returns the first one first. *)
Lemma addRecord_not_most_recent_first :
  (add state0 t_a r_a = (true, s1) /\ add s1 t_x r_x = (true, s2)
   /\ add s2 t_b r_b = (true, s3)
   /\ stored s3 = [made t_a r_a; made t_x r_x; made t_b r_b]
   /\ @time_of runtime (made t_a r_a) = Some t_a
   /\ @time_of runtime (made t_b r_b) = Some t_b
   /\ t_a < t_b)
  /\ (add state0 t_a r_a = (true, s1) /\ add s1 t_b r_old = (true, s2')
      /\ t_a < t_b
      /\ stored s2' = [made t_a r_a; made t_b r_old]
      /\ stored s2' <> [made t_b r_old; made t_a r_a]).
Proof.
  pose proof state0_usable as U0.
  pose proof (add_usable _ t_a r_a U0) as U1. fold s1 in U1.
  pose proof (add_usable _ t_x r_x U1) as U2. fold s2 in U2.
  assert (S2 : sort (@compareRecords runtime) [made t_a r_a; made t_x r_x]
               = [made t_a r_a; made t_x r_x]).
  { change [made t_a r_a; made t_x r_x]
      with ([made t_a r_a] ++ [made t_x r_x])%list at 1.
    rewrite sort_snoc.
    change (sort (@compareRecords runtime) [made t_a r_a])
      with [made t_a r_a].
    rewrite insert_back_one, belongs_after_invalid; [reflexivity|].
    right. exact time_x. }
  assert (E2 : stored s2 = [made t_a r_a; made t_x r_x]).
  { unfold s2. rewrite (stored_add _ _ _ U1), stored_s1. exact S2. }
  assert (E3 : stored s3 = [made t_a r_a; made t_x r_x; made t_b r_b]).
  { unfold s3. rewrite (stored_add _ _ _ U2), E2, sort_snoc, S2.
    rewrite (insert_back_stays _ (made t_b r_b) (made t_x r_x)
               [made t_a r_a]); [reflexivity|].
    apply belongs_after_invalid. left. exact time_x. }
  assert (E2' : stored s2' = [made t_a r_a; made t_b r_old]).
  { unfold s2'. rewrite (stored_add _ _ _ U1), stored_s1.
    rewrite sort_snoc.
    change (sort (@compareRecords runtime) [made t_a r_a])
      with [made t_a r_a].
    rewrite insert_back_one.
    rewrite (belongs_after_records _ _ _ _ time_a time_old). reflexivity. }
  split.
  - split; [now apply add_true|]. split; [now apply add_true|].
    split; [now apply add_true|]. split; [exact E3|].
    split; [exact time_a|]. split; [exact time_b|]. reflexivity.
  - split; [now apply add_true|]. split; [now apply add_true|].
    split; [reflexivity|]. split; [exact E2'|].
    rewrite E2'. intros C. apply first_equal in C.
    apply (f_equal (@time_of runtime)) in C.
    rewrite time_a, time_old in C. discriminate C.
Qed.

Lemma reads_a : @Date_reads runtime t_a.
Proof. vm_compute. reflexivity. Qed.

Lemma reads_b : @Date_reads runtime t_b.
Proof. vm_compute. reflexivity. Qed.

(** Two records without a timestamp, added two minutes apart. *)
Lemma addRecord_sorted_descending_witness :
  @JSON_roundtrip runtime /\ @gcm_correct runtime
  /\ @envelope_parses runtime
  /\ (path0 ∉ unreadable (fs state0))
  /\ files (fs state0) !! path0 = None
  /\ add state0 t_a r_a = (true, s1)
  /\ add s1 t_b r_b = (true, s_ab)
  /\ r_a !! "timestamp" = None /\ r_b !! "timestamp" = None
  /\ @Date_reads runtime t_a /\ @Date_reads runtime t_b
  /\ t_a < t_b
  /\ made t_a r_a !! "timestamp" = Some (toISOString t_a)
  /\ made t_b r_b !! "timestamp" = Some (toISOString t_b)
  /\ stored s_ab = [made t_b r_b; made t_a r_a].
Proof.
  pose proof state0_usable as U0.
  pose proof (add_usable _ t_a r_a U0) as U1. fold s1 in U1.
  assert (A1 : add state0 t_a r_a = (true, s1)) by now apply add_true.
  assert (A2 : add s1 t_b r_b = (true, s_ab)) by now apply add_true.
  assert (N1 : r_a !! "timestamp" = None)
    by (apply lookup_singleton_ne; discriminate).
  assert (N2 : r_b !! "timestamp" = None)
    by (apply lookup_singleton_ne; discriminate).
  pose proof reads_a as D1. pose proof reads_b as D2.
  assert (L : t_a < t_b) by reflexivity.
  repeat (split; [solve [ exact DemoFacts.JSON_roundtrip
                        | exact DemoFacts.gcm_correct
                        | exact DemoFacts.envelope_parses
                        | apply U0 | reflexivity | assumption ]|]).
  exact (proj2 (proj2
           (proj2 (proj2 (@addRecord_sorted_descending runtime state0 user
                            false DemoFacts.JSON_roundtrip
                            DemoFacts.gcm_correct
                            DemoFacts.envelope_parses (proj2 U0)))
              t_a _ [] r_a s1 t_b _ [] r_b s_ab t_b
              eq_refl A1 A2 N1 N2 D1 D2 L))).
Defined.

Lemma saveUserData_counts_records_witness :
  @JSON_roundtrip runtime /\ @gcm_correct runtime
  /\ @envelope_parses runtime
  /\ saved1 = (true, snd (fst saved1), snd saved1)
  /\ (exists m,
        metadata (snd (fst saved1)) = Some m
        /\ totalRecords m = Some 1
        /\ lastUpdate m = Some "2025-01-10T10:00:00.000Z")
  /\ @loadUserData runtime (snd saved1) t_b user false
     = (snd (fst saved1), snd saved1).
Proof.
  assert (S : saved1 = (true, snd (fst saved1), snd saved1)) by reflexivity.
  pose proof (@saveUserData_counts_records runtime state0 t_a [] user doc1
                false true _ _ DemoFacts.JSON_roundtrip DemoFacts.gcm_correct
                DemoFacts.envelope_parses S) as (P1 & _ & P3 & _).
  split; [exact DemoFacts.JSON_roundtrip|].
  split; [exact DemoFacts.gcm_correct|].
  split; [exact DemoFacts.envelope_parses|].
  split; [exact S|]. split.
  - destruct P1 as (_ & m & M & T & L). exists m. repeat split; assumption.
  - apply (P3 eq_refl). apply not_elem_of_empty.
Defined.

Lemma addRecord_keeps_caller_id_and_timestamp_witness :
  @JSON_roundtrip runtime /\ @gcm_correct runtime
  /\ @envelope_parses runtime
  /\ (path0 ∉ unreadable (fs s1))
  /\ add s1 t_b r_old = (true, s2')
  /\ made t_b r_old !! "timestamp" = Some "2020-01-01T00:00:00.000Z"
  /\ made t_b r_old !! "id" = Some "1736503320000-k3x9q2m1z"
  /\ In (made t_b r_old) (stored s2').
Proof.
  pose proof (add_usable _ t_a r_a state0_usable) as U1. fold s1 in U1.
  assert (A : add s1 t_b r_old = (true, s2')) by now apply add_true.
  pose proof (@addRecord_keeps_caller_id_and_timestamp runtime s1 t_b _ []
                user r_old false s2' DemoFacts.JSON_roundtrip
                DemoFacts.gcm_correct DemoFacts.envelope_parses (proj2 U1) A)
    as (_ & KT & GI & _ & M).
  split; [exact DemoFacts.JSON_roundtrip|].
  split; [exact DemoFacts.gcm_correct|].
  split; [exact DemoFacts.envelope_parses|].
  split; [exact (proj2 U1)|]. split; [exact A|].
  split; [apply KT; reflexivity|].
  split; [apply GI; reflexivity|].
  apply M.
Defined.

(** C9 as stated fails: the file exists, yet [deleteUserData] returns
    false because the removal throws, and [loadUserData] afterwards
    returns the stored document with its record. *)
Lemma delete_fails_on_read_only_disk :
  files (fs locked) !! path0 = Some (@JSON_stringify runtime doc1)
  /\ @deleteUserData runtime locked user = (false, locked)
  /\ fst (@loadUserData runtime
            (snd (@deleteUserData runtime locked user)) t_b user false)
     = doc1
  /\ records doc1 <> [].
Proof.
  assert (F : files (fs locked) !! path0
              = Some (@JSON_stringify runtime doc1))
    by apply lookup_singleton_eq.
  assert (D : @deleteUserData runtime locked user = (false, locked)).
  { unfold deleteUserData, unlinkSync.
    rewrite (@existsSync_true (fs locked) _ _ F). reflexivity. }
  split; [exact F|]. split; [exact D|]. split; [|discriminate].
  rewrite D. cbn [snd].
  apply (@loadUserData_plain_file runtime locked t_b user doc1
           DemoFacts.JSON_roundtrip F).
  apply not_elem_of_empty.
Qed.

(** The removal throws on the read-only disk: the file stays. *)
Lemma deleteUserData_removes_witness :
  files (fs locked) !! path0 = Some (@JSON_stringify runtime doc1)
  /\ readOnly (fs locked) = true
  /\ @deleteUserData runtime locked user = (false, locked)
  /\ files (fs (snd (@deleteUserData runtime locked user))) !! path0
     = Some (@JSON_stringify runtime doc1).
Proof.
  assert (F : files (fs locked) !! path0
              = Some (@JSON_stringify runtime doc1))
    by apply lookup_singleton_eq.
  split; [exact F|]. split; [reflexivity|].
  exact (proj1 (proj2 (proj2 (proj2 (@deleteUserData_removes runtime locked
                                       user))))
           _ F eq_refl).
Defined.

Lemma week_records :
  fst (@getAllRecords runtime week t_a user false) = [d_0; d_3; d_10].
Proof.
  rewrite getAllRecords_fst.
  rewrite (@loadUserData_plain_file runtime week t_a user
             {| userId := "5511999999999"; records := [d_0; d_3; d_10];
                metadata := None |} DemoFacts.JSON_roundtrip);
    [reflexivity | apply lookup_singleton_eq | apply not_elem_of_empty].
Qed.

(** The identifier of the documentation of [sanitizePhoneNumber], and
    the file it names. *)
Lemma sanitizePhoneNumber_example :
  sanitizePhoneNumber "5511999999999@s.whatsapp.net" = "5511999999999"
  /\ path0 = "data/users/5511999999999.json".
Proof. split; reflexivity. Qed.

(** The texts the specification lists for the PIN format. *)
Lemma isValidPIN_examples :
  isValidPIN "1234" = true /\ isValidPIN "12345" = true
  /\ isValidPIN "123456" = true /\ isValidPIN "" = false
  /\ isValidPIN "12a4" = false /\ isValidPIN "123" = false
  /\ isValidPIN "1234567" = false.
Proof. repeat split; reflexivity. Qed.

(** A session is created, validated at once, and validated again after
    more than the timeout of idle time. *)
Lemma session_scenario :
  let m0 := {| sessions := ∅; timeoutMs := 1800000 |} in
  let created := @createSession runtime m0 t_a "00ff" "u1" in
  let first := validateSession (snd created) t_a "u1" (fst created) in
  let late := validateSession (snd first) (t_a + 1800001) "u1" (fst created) in
  let again := validateSession (snd late) (t_a + 1800002) "u1" (fst created) in
  fst first = true /\ fst late = false /\ fst again = false
  /\ fst (validateSession (snd created) t_a "u1" "wrong-token") = false.
Proof. vm_compute. repeat split; reflexivity. Qed.

End Examples.





(** * More properties *)

(** ** More on sessions *)

Section SessionMore.
Context `{Runtime}.

Lemma validateSession_wrong_token (m : SessionManager) (now : Z)
    (uid tok : string) (s : Session) :
  sessions m !! uid = Some s -> token s <> tok ->
  validateSession m now uid tok = (false, m).
Proof.
  intros E N. unfold validateSession. rewrite E.
  destruct (String.eqb (token s) tok) eqn:T; [|reflexivity].
  apply String.eqb_eq in T. contradiction.
Qed.

Lemma validateSession_live (m : SessionManager) (now : Z)
    (uid : string) (s : Session) :
  sessions m !! uid = Some s -> now - lastActivity s <= timeoutMs m ->
  validateSession m now uid (token s)
  = (true, {| sessions := <[uid := touch s now]> (sessions m);
              timeoutMs := timeoutMs m |}).
Proof.
  intros E I. unfold validateSession. rewrite E, String.eqb_refl.
  cbn [negb]. now rewrite (proj2 (Z.ltb_ge _ _) I).
Qed.

Lemma validateSession_expired (m : SessionManager) (now : Z)
    (uid : string) (s : Session) :
  sessions m !! uid = Some s -> timeoutMs m < now - lastActivity s ->
  validateSession m now uid (token s) = (false, destroySession m uid).
Proof.
  intros E I. unfold validateSession. rewrite E, String.eqb_refl.
  cbn [negb]. now rewrite (proj2 (Z.ltb_lt _ _) I).
Qed.

(** X1: the token [createSession] returns is accepted for the user until
    the idle time exceeds the timeout, whatever session the user had
    before; any other token is refused; the other users keep their
    sessions. *)
Theorem createSession_then_validate (m : SessionManager) (t0 : Z)
    (random uid : string) :
  (forall t, t - t0 <= timeoutMs m ->
     fst (validateSession (snd (createSession m t0 random uid)) t uid
            (fst (createSession m t0 random uid))) = true)
  /\ (forall t other, other <> fst (createSession m t0 random uid) ->
        validateSession (snd (createSession m t0 random uid)) t uid other
        = (false, snd (createSession m t0 random uid)))
  /\ (forall u, u <> uid ->
        sessions (snd (createSession m t0 random uid)) !! u
        = sessions m !! u)
  /\ timeoutMs (snd (createSession m t0 random uid)) = timeoutMs m.
Proof.
  set (tok := fst (createSession m t0 random uid)).
  set (m' := snd (createSession m t0 random uid)).
  assert (L : sessions m' !! uid
              = Some {| s_userId := uid; token := tok;
                        s_createdAt := t0; lastActivity := t0 |})
    by apply lookup_insert_eq.
  split; [|split; [|split]].
  - intros t I.
    pose proof (validateSession_live m' t uid _ L I) as V.
    cbn [token] in V. now rewrite V.
  - intros t other N.
    apply (validateSession_wrong_token m' t uid other _ L).
    cbn [token]. intros C. apply N. now symmetry.
  - intros u Hu. apply lookup_insert_ne. congruence.
  - reflexivity.
Qed.

(** X2: expiry slides.  When each validation comes at most the timeout
    after the previous activity, every one of them succeeds, however long
    ago the session was created. *)
Theorem validateSession_sliding (m : SessionManager) (uid : string)
    (s : Session) (times : list Z) :
  sessions m !! uid = Some s ->
  paced (timeoutMs m) (lastActivity s) times ->
  Forall (fun answer => answer = true) (validations m uid (token s) times).
Proof.
  revert m s. induction times as [|t times IH]; intros m s E P; cbn.
  - constructor.
  - destruct P as [I P].
    rewrite (validateSession_live m t uid s E I). cbn [fst snd].
    constructor; [reflexivity|].
    apply (IH _ (touch s t)); [apply lookup_insert_eq | exact P].
Qed.

(** X3: [updateActivity] asks for no token and checks no timeout.  It
    leaves the table alone when the user has no session; otherwise the
    session, even one idle for longer than the timeout, is good again for
    a whole timeout. *)
Theorem updateActivity_revives (m : SessionManager) (now : Z)
    (uid : string) :
  (sessions m !! uid = None -> updateActivity m now uid = m)
  /\ (forall s t,
        sessions m !! uid = Some s -> t - now <= timeoutMs m ->
        fst (validateSession (updateActivity m now uid) t uid (token s))
        = true)
  /\ (forall u, u <> uid ->
        sessions (updateActivity m now uid) !! u = sessions m !! u).
Proof.
  split; [|split].
  - intros E. unfold updateActivity. now rewrite E.
  - intros s t E I. unfold updateActivity. rewrite E.
    rewrite (validateSession_live _ t uid (touch s now));
      [reflexivity | apply lookup_insert_eq | exact I].
  - intros u Hu. unfold updateActivity.
    destruct (sessions m !! uid); [|reflexivity].
    apply lookup_insert_ne. congruence.
Qed.

(** X4: [destroySession] ends the session of the user and of nobody
    else.  Afterwards every token is refused for that user at any time,
    [updateActivity] brings nothing back, and the other users keep their
    sessions. *)
Theorem destroySession_ends_session (m : SessionManager) (uid : string) :
  (forall now tok,
     validateSession (destroySession m uid) now uid tok
     = (false, destroySession m uid))
  /\ (forall now,
        updateActivity (destroySession m uid) now uid = destroySession m uid)
  /\ (forall u, u <> uid ->
        sessions (destroySession m uid) !! u = sessions m !! u)
  /\ timeoutMs (destroySession m uid) = timeoutMs m.
Proof.
  assert (E : sessions (destroySession m uid) !! uid = None)
    by apply lookup_delete_eq.
  split; [|split; [|split]].
  - intros now tok. unfold validateSession. now rewrite E.
  - intros now. unfold updateActivity. now rewrite E.
  - intros u N. apply lookup_delete_ne. congruence.
  - reflexivity.
Qed.

End SessionMore.

Section CleanupFacts.

Lemma sweep_timeout (now : Z) (l : list (string * Session))
    (acc : SessionManager) :
  timeoutMs (foldl (sweep now) acc l) = timeoutMs acc.
Proof.
  revert acc. induction l as [|e l IH]; intros acc; [reflexivity|].
  cbn [foldl]. rewrite IH. unfold sweep. cbn zeta.
  now destruct (timeoutMs acc <? now - lastActivity (snd e)).
Qed.

Lemma sweep_absent (now : Z) (l : list (string * Session))
    (acc : SessionManager) (uid : string) :
  sessions acc !! uid = None ->
  sessions (foldl (sweep now) acc l) !! uid = None.
Proof.
  revert acc. induction l as [|e l IH]; intros acc E; [exact E|].
  cbn [foldl]. apply IH. unfold sweep.
  destruct (timeoutMs acc <? now - lastActivity (snd e)); [|exact E].
  cbn [destroySession sessions].
  destruct (decide (fst e = uid)) as [->|N];
    [apply lookup_delete_eq | now rewrite lookup_delete_ne].
Qed.

Lemma sweep_removes (now : Z) (l : list (string * Session))
    (acc : SessionManager) (uid : string) (s : Session) :
  In (uid, s) l -> timeoutMs acc < now - lastActivity s ->
  sessions (foldl (sweep now) acc l) !! uid = None.
Proof.
  revert acc. induction l as [|e l IH]; intros acc I X; [destruct I|].
  cbn [foldl]. destruct I as [->|I].
  - apply sweep_absent. unfold sweep. cbn [fst snd].
    rewrite (proj2 (Z.ltb_lt _ _) X). apply lookup_delete_eq.
  - apply IH; [exact I|].
    unfold sweep. now destruct (timeoutMs acc <? now - lastActivity (snd e)).
Qed.

Lemma sweep_keeps (now : Z) (l : list (string * Session))
    (acc : SessionManager) (uid : string) :
  (forall s, In (uid, s) l -> now - lastActivity s <= timeoutMs acc) ->
  sessions (foldl (sweep now) acc l) !! uid = sessions acc !! uid.
Proof.
  revert acc. induction l as [|e l IH]; intros acc K; [reflexivity|].
  cbn [foldl].
  assert (T : timeoutMs (sweep now acc e) = timeoutMs acc).
  { unfold sweep. now destruct (timeoutMs acc <? now - lastActivity (snd e)). }
  rewrite IH.
  - unfold sweep.
    destruct (timeoutMs acc <? now - lastActivity (snd e)) eqn:X;
      [|reflexivity].
    cbn [destroySession sessions]. apply lookup_delete_ne.
    intros <-. apply Z.ltb_lt in X.
    specialize (K (snd e)). destruct e as [u s]. cbn in *.
    assert (now - lastActivity s <= timeoutMs acc) by (apply K; now left).
    lia.
  - intros s I. rewrite T. apply K. now right.
Qed.

(** X5: [cleanupExpiredSessions] removes the sessions idle for longer
    than the timeout, and only those: every other session stays as it
    was, so its token is still accepted at that instant. *)
Theorem cleanupExpiredSessions_removes_expired (m : SessionManager)
    (now : Z) (uid : string) :
  timeoutMs (cleanupExpiredSessions m now) = timeoutMs m
  /\ (sessions m !! uid = None ->
      sessions (cleanupExpiredSessions m now) !! uid = None)
  /\ (forall s, sessions m !! uid = Some s ->
        timeoutMs m < now - lastActivity s ->
        sessions (cleanupExpiredSessions m now) !! uid = None)
  /\ (forall s, sessions m !! uid = Some s ->
        now - lastActivity s <= timeoutMs m ->
        sessions (cleanupExpiredSessions m now) !! uid = Some s
        /\ fst (validateSession (cleanupExpiredSessions m now) now uid
                  (token s)) = true).
Proof.
  change (cleanupExpiredSessions m now)
    with (foldl (sweep now) m (map_to_list (sessions m))).
  split; [apply sweep_timeout|]. split; [apply sweep_absent|]. split.
  - intros s E X. apply (sweep_removes now _ m uid s); [|exact X].
    apply list_elem_of_In. now apply elem_of_map_to_list.
  - intros s E I.
    assert (K : sessions (foldl (sweep now) m (map_to_list (sessions m)))
                  !! uid = Some s).
    { rewrite sweep_keeps; [exact E|].
      intros s' I'. apply list_elem_of_In, elem_of_map_to_list in I'.
      rewrite E in I'. now inversion I'; subst. }
    split; [exact K|].
    unfold validateSession. rewrite K, String.eqb_refl. cbn [negb].
    rewrite sweep_timeout. now rewrite (proj2 (Z.ltb_ge _ _) I).
Qed.

End CleanupFacts.

(** ** The key and the cipher *)

Section KeyFacts.
Context `{Runtime}.

Lemma getMasterKey_ok (mk : option (list byte)) :
  key_ok mk -> getMasterKey mk = (derivedKey, Some derivedKey).
Proof. intros [->| ->]; reflexivity. Qed.

Lemma getMasterKey_keeps (k : list byte) :
  getMasterKey (Some k) = (k, Some k).
Proof. reflexivity. Qed.

Lemma key_ok_derived : key_ok (Some derivedKey).
Proof. now right. Qed.

Lemma encryptData_key (mk : option (list byte)) (iv0 : list byte)
    (P : string) :
  snd (encryptData mk iv0 P) = snd (getMasterKey mk).
Proof. unfold encryptData. now destruct (getMasterKey mk). Qed.

Lemma decryptData_key (mk : option (list byte)) (blob : string) :
  snd (decryptData mk blob) = mk
  \/ snd (decryptData mk blob) = snd (getMasterKey mk).
Proof.
  unfold decryptData.
  destruct (JSON_parse_combined _); [|now left].
  right. now destruct (getMasterKey mk).
Qed.

Lemma encryptData_fst (mk1 mk2 : option (list byte)) (iv0 : list byte)
    (P : string) :
  fst (getMasterKey mk1) = fst (getMasterKey mk2) ->
  fst (encryptData mk1 iv0 P) = fst (encryptData mk2 iv0 P).
Proof.
  intros E. unfold encryptData.
  destruct (getMasterKey mk1), (getMasterKey mk2). cbn in *. now subst.
Qed.

Lemma decryptData_fst (mk1 mk2 : option (list byte)) (blob : string) :
  fst (getMasterKey mk1) = fst (getMasterKey mk2) ->
  fst (decryptData mk1 blob) = fst (decryptData mk2 blob).
Proof.
  intros E. unfold decryptData.
  destruct (JSON_parse_combined _); [|reflexivity].
  destruct (getMasterKey mk1), (getMasterKey mk2). cbn in *. now subst.
Qed.

Lemma key_step_cached (k : list byte) (mk' : option (list byte)) :
  key_step (Some k) mk' -> mk' = Some k.
Proof. now intros [->| ->]. Qed.

Lemma key_step_ok (mk mk' : option (list byte)) :
  key_step mk mk' -> key_ok mk -> key_ok mk'.
Proof.
  intros [->| ->] K; [exact K|].
  rewrite (getMasterKey_ok _ K). now right.
Qed.

Lemma key_step_trans (a b c : option (list byte)) :
  key_step a b -> key_step b c -> key_step a c.
Proof.
  intros [->| ->] [->| ->]; try (now left); try (now right).
  right. now rewrite getMasterKey_cached.
Qed.

Lemma loadUserData_key (st : State) (now : Z) (uid : string) (enc : bool) :
  key_step (MASTER_KEY st) (MASTER_KEY (snd (loadUserData st now uid enc))).
Proof.
  unfold loadUserData.
  destruct (existsSync (fs st) (getUserDataPath uid)); [|now left].
  cbn [negb].
  destruct (readFileSync (fs st) (getUserDataPath uid)) as [text|];
    [|now left].
  destruct enc.
  - pose proof (decryptData_key (MASTER_KEY st) text) as D.
    destruct (decryptData (MASTER_KEY st) text) as [[p|m] mk'];
      [destruct (JSON_parse p)|]; exact D.
  - destruct (JSON_parse text); now left.
Qed.

Lemma saveUserData_key (st : State) (now : Z) (iv0 : list byte)
    (uid : string) (data : UserData) (enc : bool) :
  key_step (MASTER_KEY st)
    (MASTER_KEY (snd (saveUserData st now iv0 uid data enc))).
Proof.
  unfold saveUserData. destruct enc.
  - pose proof (encryptData_key (MASTER_KEY st) iv0
                  (JSON_stringify (touchMetadata now data))) as E.
    destruct (encryptData _ _ _) as [p mk']. cbn [snd] in E. subst mk'.
    destruct (rbind _ _); now right.
  - destruct (rbind _ _); now left.
Qed.

Lemma addRecord_key (st : State) (now : Z) (rnd : string)
    (iv0 : list byte) (uid : string) (r : record) (enc : bool) :
  key_step (MASTER_KEY st)
    (MASTER_KEY (snd (addRecord st now rnd iv0 uid r enc))).
Proof.
  unfold addRecord.
  pose proof (loadUserData_key st now uid enc) as L.
  destruct (loadUserData st now uid enc) as [d st1]. cbn [snd] in L.
  match goal with
  | |- context [saveUserData st1 now iv0 uid ?d' enc] =>
      pose proof (saveUserData_key st1 now iv0 uid d' enc) as S;
      destruct (saveUserData st1 now iv0 uid d' enc) as [[ok d2] st2]
  end.
  cbn [snd] in *. eapply key_step_trans; eauto.
Qed.

Lemma deleteUserData_key (st : State) (uid : string) :
  MASTER_KEY (snd (deleteUserData st uid)) = MASTER_KEY st.
Proof.
  unfold deleteUserData.
  destruct (existsSync _ _); [|reflexivity].
  destruct (unlinkSync _ _); reflexivity.
Qed.

Lemma queries_key (st : State) (now : Z) (uid : string) (enc : bool) :
  (forall date, snd (getRecordsByDate st now uid date enc)
                = snd (loadUserData st now uid enc))
  /\ (forall days, snd (getRecentRecords st now uid days enc)
                   = snd (loadUserData st now uid enc))
  /\ snd (getAllRecords st now uid enc) = snd (loadUserData st now uid enc).
Proof.
  unfold getRecordsByDate, getRecentRecords, getAllRecords.
  destruct (loadUserData st now uid enc). now repeat split.
Qed.

(** The key of a process: [scryptSync] of the device identifier, or of
    the default text when [DEVICE_ID] is unset or empty. *)
Lemma getMasterKey_derives (identifier : string) :
  (DEVICE_ID = Some identifier /\ identifier <> "")
  \/ ((DEVICE_ID = None \/ DEVICE_ID = Some "")
      /\ identifier = "gyneco-bot-default-key") ->
  getMasterKey None
  = (scryptSync identifier "salt" 32, Some (scryptSync identifier "salt" 32)).
Proof.
  unfold getMasterKey, KEY_LENGTH.
  intros [[E N]|[[E|E] ->]]; rewrite E; [|reflexivity|reflexivity].
  destruct (String.eqb_spec identifier ""); [contradiction | reflexivity].
Qed.

Lemma saveUserData_key_encrypted (st : State) (now : Z) (iv0 : list byte)
    (uid : string) (data : UserData) :
  MASTER_KEY (snd (saveUserData st now iv0 uid data true))
  = snd (getMasterKey (MASTER_KEY st)).
Proof.
  unfold saveUserData.
  pose proof (encryptData_key (MASTER_KEY st) iv0
                (JSON_stringify (touchMetadata now data))) as E.
  destruct (encryptData _ _ _) as [p mk']. cbn [snd] in E. subst mk'.
  now destruct (rbind _ _).
Qed.

Lemma addRecord_key_encrypted (st : State) (now : Z) (rnd : string)
    (iv0 : list byte) (uid : string) (r : record) :
  MASTER_KEY (snd (addRecord st now rnd iv0 uid r true))
  = snd (getMasterKey (MASTER_KEY st)).
Proof.
  unfold addRecord.
  pose proof (loadUserData_key st now uid true) as L.
  destruct (loadUserData st now uid true) as [d st1]. cbn [snd] in L.
  match goal with
  | |- context [saveUserData st1 now iv0 uid ?d' true] =>
      pose proof (saveUserData_key_encrypted st1 now iv0 uid d') as S;
      destruct (saveUserData st1 now iv0 uid d' true) as [[ok d2] st2]
  end.
  cbn [snd] in *. rewrite S.
  destruct L as [->| ->]; [reflexivity | now rewrite getMasterKey_cached].
Qed.

(** X6: the cached key.  No operation of the store replaces or clears a
    cached key.  The key that gets cached is the 32 octets [scryptSync]
    derives, with the salt [salt], from [DEVICE_ID], or from the text
    gyneco-bot-default-key when [DEVICE_ID] is unset or empty.  Calls
    without encryption leave the cache as it is; a save or an add with
    encryption leaves the key cached, whatever its outcome. *)
Theorem master_key_is_derived_once (st : State) (now : Z) (rnd : string)
    (iv0 : list byte) (uid date : string) (days : Z) (r : record)
    (data : UserData) (enc : bool) (st' : State) (identifier : string) :
  (DEVICE_ID = Some identifier /\ identifier <> "")
  \/ ((DEVICE_ID = None \/ DEVICE_ID = Some "")
      /\ identifier = "gyneco-bot-default-key") ->
  st' = snd (loadUserData st now uid enc)
  \/ st' = snd (saveUserData st now iv0 uid data enc)
  \/ st' = snd (addRecord st now rnd iv0 uid r enc)
  \/ st' = snd (getRecordsByDate st now uid date enc)
  \/ st' = snd (getRecentRecords st now uid days enc)
  \/ st' = snd (getAllRecords st now uid enc)
  \/ st' = snd (deleteUserData st uid) ->
  (forall k, MASTER_KEY st = Some k -> MASTER_KEY st' = Some k)
  /\ (MASTER_KEY st = None ->
      MASTER_KEY st' = None
      \/ MASTER_KEY st' = Some (scryptSync identifier "salt" 32))
  /\ (enc = false -> MASTER_KEY st' = MASTER_KEY st)
  /\ (enc = true -> MASTER_KEY st = None ->
      MASTER_KEY (snd (saveUserData st now iv0 uid data enc))
      = Some (scryptSync identifier "salt" 32)
      /\ MASTER_KEY (snd (addRecord st now rnd iv0 uid r enc))
         = Some (scryptSync identifier "salt" 32)).
Proof.
  intros I C.
  pose proof (getMasterKey_derives identifier I) as G.
  assert (S : key_step (MASTER_KEY st) (MASTER_KEY st')
              /\ (enc = false -> MASTER_KEY st' = MASTER_KEY st)).
  { destruct (queries_key st now uid enc) as (Q1 & Q2 & Q3).
    destruct C as [->|[->|[->|[->|[->|[->| ->]]]]]].
    - split; [apply loadUserData_key|].
      intros ->. apply loadUserData_plain_key.
    - split; [apply saveUserData_key|].
      intros ->. unfold saveUserData. now destruct (rbind _ _).
    - split; [apply addRecord_key|].
      intros ->. unfold addRecord.
      pose proof (loadUserData_plain_key st now uid) as L.
      destruct (loadUserData st now uid false) as [d st1]. cbn [snd] in L.
      unfold saveUserData. now destruct (rbind _ _).
    - rewrite Q1. split; [apply loadUserData_key|].
      intros ->. apply loadUserData_plain_key.
    - rewrite Q2. split; [apply loadUserData_key|].
      intros ->. apply loadUserData_plain_key.
    - rewrite Q3. split; [apply loadUserData_key|].
      intros ->. apply loadUserData_plain_key.
    - rewrite deleteUserData_key. split; [now left | reflexivity]. }
  destruct S as [S P]. split; [|split; [|split; [exact P|]]].
  - intros k E. rewrite E in S. now apply key_step_cached.
  - intros E. rewrite E in S.
    destruct S as [->| ->]; [now left | right; now rewrite G].
  - intros -> E.
    rewrite saveUserData_key_encrypted, addRecord_key_encrypted, E, G.
    now split.
Qed.

(** X7: two blobs of [encryptData] made with different IVs differ,
    whatever the plaintexts and the keys: the same text encrypted twice
    with fresh IVs gives two different file contents. *)
Theorem encryptData_ivs_tell_blobs_apart (mk1 mk2 : option (list byte))
    (iv1 iv2 : list byte) (P1 P2 blob : string) :
  envelope_parses ->
  iv1 <> iv2 ->
  fst (encryptData mk1 iv1 P1) = Ok blob ->
  fst (encryptData mk2 iv2 P2) <> Ok blob.
Proof.
  intros HE N E1 E2. apply N.
  destruct (gcm_encrypt (fst (getMasterKey mk1)) iv1 (list_byte_of_string P1))
    as [[c1 t1]|] eqn:G1;
    [rewrite (encryptData_ok _ _ _ _ _ G1) in E1
    |rewrite (encryptData_throw _ _ _ G1) in E1; discriminate].
  destruct (gcm_encrypt (fst (getMasterKey mk2)) iv2 (list_byte_of_string P2))
    as [[c2 t2]|] eqn:G2;
    [rewrite (encryptData_ok _ _ _ _ _ G2) in E2
    |rewrite (encryptData_throw _ _ _ G2) in E2; discriminate].
  cbn [fst] in E1, E2. rewrite <- E1 in E2. clear E1.
  assert (E : envelope iv2 t2 c2 = envelope iv1 t1 c1) by congruence.
  unfold envelope in E.
  apply (f_equal Base64.decode) in E.
  rewrite !Base64Facts.decode_encode in E.
  apply (f_equal string_of_list_byte) in E.
  rewrite !string_of_list_byte_of_string in E.
  apply (f_equal JSON_parse_combined) in E.
  rewrite !HE in E.
  assert (I : Base64.encode iv2 = Base64.encode iv1) by congruence.
  apply (f_equal Base64.decode) in I.
  rewrite !Base64Facts.decode_encode in I. congruence.
Qed.

(** X8: what [getSecurityStatus] reports as [encryptionEnabled] is
    whether this process has a key cached: it is off while the cache is
    empty and on once it holds a key.  A call of [encryptData] turns it
    on even when the cipher throws.  A call of [decryptData] turns it on
    as soon as the blob has parsed and its IV and tag have been read, be
    the ciphertext missing or refused, and leaves it as it was when the
    blob does not get that far.  It is never turned off. *)
Theorem encryptionEnabled_tracks_key_use (mk : option (list byte))
    (iv0 : list byte) (text : string) :
  (encryptionEnabled mk = true <-> exists k, mk = Some k)
  /\ (encryptionEnabled mk = false <-> mk = None)
  /\ encryptionEnabled (snd (encryptData mk iv0 text)) = true
  /\ (JSON_parse_combined (string_of_list_byte (Base64.decode text)) = None ->
      snd (decryptData mk text) = mk
      /\ encryptionEnabled (snd (decryptData mk text)) = encryptionEnabled mk)
  /\ (forall e,
        JSON_parse_combined (string_of_list_byte (Base64.decode text))
        = Some e ->
        snd (decryptData mk text) = snd (getMasterKey mk)
        /\ encryptionEnabled (snd (decryptData mk text)) = true)
  /\ (encryptionEnabled mk = true ->
      encryptionEnabled (snd (decryptData mk text)) = true).
Proof.
  assert (K : encryptionEnabled (snd (getMasterKey mk)) = true)
    by now destruct mk.
  split.
  { destruct mk as [k|]; cbn; split; eauto; try discriminate.
    intros [k E]. discriminate. }
  split.
  { destruct mk as [k|]; cbn; split; auto; discriminate. }
  split; [now rewrite encryptData_key|].
  destruct (JSON_parse_combined (string_of_list_byte (Base64.decode text)))
    as [c|] eqn:E.
  - rewrite (decryptData_read _ _ _ E). cbn [snd].
    split; [discriminate|]. split; [auto|]. intros _. exact K.
  - rewrite (decryptData_unread _ _ E). cbn [snd].
    split; [auto|]. split; [discriminate | auto].
Qed.

End KeyFacts.

(** ** The phone number format *)

Section PhoneFacts.

Lemma matches_class_then (p : ascii -> bool) (r : regex) (s : list ascii) :
  matches (Cat (Class p) r) s
  <-> exists c s', s = c :: s' /\ p c = true /\ matches r s'.
Proof.
  split.
  - intros M. apply matches_cat_inv in M as (s1 & s2 & -> & M1 & M2).
    apply matches_class_inv in M1 as (c & -> & D). cbn. eauto.
  - intros (c & s' & -> & D & M).
    apply (m_cat _ _ [c] s'); [now constructor | exact M].
Qed.

Lemma matches_literal (cs s : list ascii) : matches (literal cs) s <-> s = cs.
Proof.
  revert s. induction cs as [|c cs IH]; intros s; cbn [literal].
  - split; [apply matches_eps_inv | intros ->; constructor].
  - rewrite matches_class_then. split.
    + intros (x & s' & -> & E & M). apply Ascii.eqb_eq in E.
      apply IH in M. congruence.
    + intros ->. exists c, cs. rewrite Ascii.eqb_refl.
      repeat split. now apply IH.
Qed.

Lemma matches_times (p : ascii -> bool) (n : nat) (rest : regex)
    (s : list ascii) :
  matches (times n (Class p) rest) s
  <-> exists a b, s = (a ++ b)%list /\ List.length a = n
                  /\ Forall (fun c => p c = true) a /\ matches rest b.
Proof.
  revert s. induction n as [|n IH]; intros s; cbn [times].
  - split.
    + intros M. exists [], s. repeat split; auto.
    + intros (a & b & -> & L & _ & M). destruct a; [exact M | discriminate].
  - rewrite matches_class_then. split.
    + intros (c & s' & -> & P & M). apply IH in M as (a & b & -> & L & F & M).
      exists (c :: a), b. repeat split; cbn; auto.
    + intros (a & b & -> & L & F & M). destruct a as [|c a]; [discriminate|].
      inversion F; subst. exists c, (a ++ b)%list. repeat split; auto.
      apply IH. exists a, b. repeat split; auto.
Qed.

Lemma matches_upto (p : ascii -> bool) (n : nat) (rest : regex)
    (s : list ascii) :
  matches (upto n (Class p) rest) s
  <-> exists a b, s = (a ++ b)%list /\ (List.length a <= n)%nat
                  /\ Forall (fun c => p c = true) a /\ matches rest b.
Proof.
  revert s. induction n as [|n IH]; intros s; cbn [upto].
  - split.
    + intros M. exists [], s. repeat split; auto.
    + intros (a & b & -> & L & _ & M).
      destruct a; [exact M | cbn in L; lia].
  - split.
    + intros M. apply matches_alt_inv in M as [M|M].
      * apply matches_class_then in M as (c & s' & -> & P & M).
        apply IH in M as (a & b & -> & L & F & M).
        exists (c :: a), b. repeat split; cbn; auto. lia.
      * exists [], s. repeat split; auto. cbn. lia.
    + intros (a & b & -> & L & F & M). destruct a as [|c a].
      * now apply m_alt_r.
      * apply m_alt_l. inversion F; subst.
        apply matches_class_then. exists c, (a ++ b)%list.
        repeat split; auto. apply IH. exists a, b.
        repeat split; auto. cbn in L. lia.
Qed.

Lemma length_list_ascii (s : string) :
  List.length (list_ascii_of_string s) = String.length s.
Proof. induction s as [|c s IH]; cbn; [reflexivity | now rewrite IH]. Qed.

(** The regular expression as a language of lists of characters. *)
Lemma phone_regex_language (s : list ascii) :
  matches phone_regex s
  <-> exists digits,
        s = (digits ++ list_ascii_of_string "@s.whatsapp.net")%list
        /\ (10 <= List.length digits <= 15)%nat
        /\ Forall (fun c => is_digit c = true) digits.
Proof.
  unfold phone_regex. rewrite matches_times. split.
  - intros (a & b & -> & L & F & M).
    apply matches_upto in M as (a' & b' & -> & L' & F' & M).
    apply matches_literal in M as ->.
    exists (a ++ a')%list. rewrite length_app.
    split; [now rewrite app_assoc|]. split; [lia|].
    apply Forall_app. now split.
  - intros (digits & -> & L & F).
    rewrite <- (firstn_skipn 10 digits) in F.
    apply Forall_app in F as [F1 F2].
    exists (firstn 10 digits),
      (skipn 10 digits ++ list_ascii_of_string "@s.whatsapp.net")%list.
    split; [|split; [|split]].
    + now rewrite app_assoc, firstn_skipn.
    + rewrite length_firstn. lia.
    + exact F1.
    + apply matches_upto.
      exists (skipn 10 digits), (list_ascii_of_string "@s.whatsapp.net").
      split; [reflexivity|]. split; [rewrite length_skipn; lia|].
      split; [exact F2 | now apply matches_literal].
Qed.

(** What an accepted identifier is made of. *)
Lemma isValidPhoneNumber_shape (s : string) :
  isValidPhoneNumber s = true ->
  exists number,
    s = number ++ "@s.whatsapp.net"
    /\ (10 <= String.length number <= 15)%nat
    /\ Forall (fun c => is_digit c = true) (list_ascii_of_string number).
Proof.
  unfold isValidPhoneNumber.
  rewrite anchored_test_matches, phone_regex_language.
  intros (digits & E & L & F).
  exists (string_of_list_ascii digits).
  rewrite <- length_list_ascii, list_ascii_of_string_of_list_ascii.
  split; [|now split].
  rewrite <- (string_of_list_ascii_of_string s), E.
  rewrite <- (list_ascii_of_string_of_list_ascii digits) at 1.
  rewrite <- DemoFacts.list_ascii_app.
  apply string_of_list_ascii_of_string.
Qed.

(** X9: [isValidPhoneNumber] accepts exactly the texts made of ten to
    fifteen digits followed by the suffix of WhatsApp user identifiers,
    with nothing before or after. *)
Theorem isValidPhoneNumber_accepts_exactly (phoneNumber : string) :
  isValidPhoneNumber phoneNumber = true
  <-> exists number,
        phoneNumber = number ++ "@s.whatsapp.net"
        /\ (10 <= String.length number <= 15)%nat
        /\ Forall (fun c => is_digit c = true) (list_ascii_of_string number).
Proof.
  split; [apply isValidPhoneNumber_shape|].
  intros (number & -> & L & F).
  unfold isValidPhoneNumber.
  rewrite anchored_test_matches, phone_regex_language.
  exists (list_ascii_of_string number).
  split; [apply DemoFacts.list_ascii_app|].
  split; [now rewrite length_list_ascii | exact F].
Qed.

End PhoneFacts.


Section PhoneNumberFacts.
Context `{Runtime}.

Lemma all_digits_cons (c : ascii) (s : string) :
  all_digits (String c s) <-> is_digit c = true /\ all_digits s.
Proof. unfold all_digits. cbn. apply List.Forall_cons_iff. Qed.

Lemma digit_not_at (c : ascii) : is_digit c = true -> c <> "@"%char.
Proof. intros D ->. discriminate. Qed.

Lemma digits_only_digits (s : string) : all_digits (digits_only s).
Proof.
  unfold all_digits, digits_only.
  rewrite list_ascii_of_string_of_list_ascii.
  apply List.Forall_forall. intros c I. now apply filter_In in I.
Qed.

Lemma digits_only_id (s : string) : all_digits s -> digits_only s = s.
Proof.
  unfold digits_only. induction s as [|c s IH]; intros D; [reflexivity|].
  apply all_digits_cons in D as [D1 D2]. cbn. rewrite D1. cbn.
  now rewrite IH.
Qed.

(** The suffix is not found inside a run of digits. *)
Lemma index_digits_none (s : string) :
  all_digits s -> String.index 0 "@s.whatsapp.net" s = None.
Proof.
  induction s as [|c s IH]; intros D; [reflexivity|].
  apply all_digits_cons in D as [D1 D2].
  cbn [String.index]. rewrite (IH D2).
  cbn [String.prefix].
  destruct (ascii_dec "@" c) as [E|_]; [|reflexivity].
  symmetry in E. now apply digit_not_at in D1.
Qed.

Lemma append_cons (c : ascii) (a b : string) :
  String c a ++ b = String c (a ++ b).
Proof. reflexivity. Qed.

Lemma prefix_append (p rest : string) : String.prefix p (p ++ rest) = true.
Proof.
  induction p as [|x p IH]; [now destruct rest|].
  rewrite append_cons. cbn [String.prefix].
  destruct (ascii_dec x x); [exact IH | congruence].
Qed.

Lemma index_here (x : ascii) (p rest : string) :
  String.index 0 (String x p) (String x p ++ rest) = Some 0%nat.
Proof.
  pose proof (prefix_append (String x p) rest) as P.
  rewrite append_cons in *. cbn [String.index]. now rewrite P.
Qed.

Lemma index_digits_suffix (s rest : string) :
  all_digits s ->
  String.index 0 "@s.whatsapp.net" (s ++ "@s.whatsapp.net" ++ rest)
  = Some (String.length s).
Proof.
  induction s as [|c s IH]; intros D.
  - apply index_here.
  - apply all_digits_cons in D as [D1 D2].
    change (String c s ++ "@s.whatsapp.net" ++ rest)
      with (String c (s ++ "@s.whatsapp.net" ++ rest)).
    cbn [String.index String.length]. rewrite (IH D2).
    cbn [String.prefix].
    destruct (ascii_dec "@" c) as [E|_]; [|reflexivity].
    symmetry in E. now apply digit_not_at in D1.
Qed.

Lemma substring_prefix (a b : string) :
  String.substring 0 (String.length a) (a ++ b) = a.
Proof.
  induction a as [|c a IH]; [now destruct b|].
  rewrite append_cons. cbn [String.length String.substring]. now rewrite IH.
Qed.

Lemma substring_all (b : string) :
  String.substring 0 (String.length b) b = b.
Proof.
  induction b as [|c b IH]; [reflexivity|].
  cbn [String.length String.substring]. now rewrite IH.
Qed.

Lemma substring_suffix (a b : string) :
  String.substring (String.length a) (String.length b) (a ++ b) = b.
Proof.
  induction a as [|c a IH]; [apply substring_all|].
  rewrite append_cons. cbn [String.length String.substring]. exact IH.
Qed.

Lemma length_append (a b : string) :
  String.length (a ++ b) = (String.length a + String.length b)%nat.
Proof.
  induction a as [|c a IH]; [reflexivity|].
  rewrite append_cons. cbn [String.length]. now rewrite IH.
Qed.

Lemma append_assoc (a b c : string) : (a ++ b) ++ c = a ++ b ++ c.
Proof.
  induction a as [|x a IH]; [reflexivity|].
  rewrite !append_cons. now rewrite IH.
Qed.

Lemma append_nil_r (a : string) : a ++ "" = a.
Proof.
  induction a as [|x a IH]; [reflexivity|].
  rewrite append_cons. now rewrite IH.
Qed.

(** Removing the suffix after a run of digits. *)
Lemma remove_first_digits (number rest : string) :
  all_digits number ->
  remove_first "@s.whatsapp.net" (number ++ "@s.whatsapp.net" ++ rest)
  = number ++ rest.
Proof.
  intros D. unfold remove_first. rewrite (index_digits_suffix _ _ D).
  rewrite substring_prefix. f_equal.
  rewrite <- append_assoc.
  rewrite <- (length_append number "@s.whatsapp.net").
  rewrite (length_append (number ++ "@s.whatsapp.net") rest).
  replace (String.length (number ++ "@s.whatsapp.net") + String.length rest
           - String.length (number ++ "@s.whatsapp.net"))%nat
    with (String.length rest) by lia.
  apply substring_suffix.
Qed.

Lemma sanitizePhoneNumber_digits (s : string) :
  all_digits s -> sanitizePhoneNumber s = s.
Proof.
  intros D. unfold sanitizePhoneNumber, remove_first.
  rewrite (index_digits_none _ D). now apply digits_only_id.
Qed.

Lemma append_inv_head (p a b : string) : p ++ a = p ++ b -> a = b.
Proof.
  induction p as [|c p IH]; [auto|].
  rewrite !append_cons. intros E. apply IH. congruence.
Qed.

Lemma append_inv_tail (a b q : string) : a ++ q = b ++ q -> a = b.
Proof.
  intros E. apply (f_equal list_ascii_of_string) in E.
  rewrite !DemoFacts.list_ascii_app in E. apply app_inv_tail in E.
  rewrite <- (string_of_list_ascii_of_string a),
    <- (string_of_list_ascii_of_string b). now rewrite E.
Qed.

Lemma getUserDataPath_inj (u1 u2 : string) :
  getUserDataPath u1 = getUserDataPath u2
  <-> sanitizePhoneNumber u1 = sanitizePhoneNumber u2.
Proof.
  unfold getUserDataPath. split; [|now intros ->].
  intros E. apply append_inv_head in E.
  change ("/" ++ ?a) with (String "/" a) in E.
  apply (append_inv_head "/") in E. now apply append_inv_tail in E.
Qed.

(** X10: the identifier [sanitizePhoneNumber] returns holds digits only,
    so the name of a data file holds no path separator; and sanitising
    is idempotent, so the [userId] of the empty document names the file
    it stands for. *)
Theorem sanitizePhoneNumber_digits_only (uid : string) :
  all_digits (sanitizePhoneNumber uid)
  /\ sanitizePhoneNumber (sanitizePhoneNumber uid) = sanitizePhoneNumber uid
  /\ getUserDataPath (sanitizePhoneNumber uid) = getUserDataPath uid
  /\ (forall st now enc,
        getUserDataPath (userId (emptyUserData now uid None))
        = getUserDataPath uid
        /\ (files (fs st) !! getUserDataPath uid = None ->
            getUserDataPath (userId (fst (loadUserData st now uid enc)))
            = getUserDataPath uid)).
Proof.
  assert (D : all_digits (sanitizePhoneNumber uid))
    by apply digits_only_digits.
  assert (I : sanitizePhoneNumber (sanitizePhoneNumber uid)
              = sanitizePhoneNumber uid)
    by now apply sanitizePhoneNumber_digits.
  assert (P : getUserDataPath (sanitizePhoneNumber uid) = getUserDataPath uid)
    by now apply getUserDataPath_inj.
  repeat split; auto.
  intros E. now rewrite (loadUserData_no_file _ _ _ _ E).
Qed.

(** X11: for an identifier [isValidPhoneNumber] accepts,
    [sanitizePhoneNumber] returns the number before the suffix; two
    accepted identifiers that differ get different data files. *)
Theorem valid_phone_numbers_get_their_own_file (u1 u2 : string) :
  isValidPhoneNumber u1 = true ->
  (exists number,
     u1 = number ++ "@s.whatsapp.net"
     /\ sanitizePhoneNumber u1 = number
     /\ (10 <= String.length number <= 15)%nat)
  /\ (isValidPhoneNumber u2 = true -> u1 <> u2 ->
      getUserDataPath u1 <> getUserDataPath u2).
Proof.
  assert (S : forall u, isValidPhoneNumber u = true ->
                exists number, u = number ++ "@s.whatsapp.net"
                  /\ sanitizePhoneNumber u = number
                  /\ (10 <= String.length number <= 15)%nat).
  { intros u V. apply isValidPhoneNumber_shape in V as (n & -> & L & D).
    exists n. split; [reflexivity|]. split; [|exact L].
    unfold sanitizePhoneNumber.
    rewrite <- (append_nil_r "@s.whatsapp.net") at 2.
    rewrite (remove_first_digits n "" D), append_nil_r.
    now apply digits_only_id. }
  intros V1. split; [now apply S|].
  intros V2 N E. apply N.
  apply S in V1 as (n1 & -> & S1 & _). apply S in V2 as (n2 & -> & S2 & _).
  apply getUserDataPath_inj in E. congruence.
Qed.

End PhoneNumberFacts.

(** ** More on sorting *)

Section SortMore.
Context {A : Type} (cmp : A -> A -> option Z).

Lemma last_case (l : list A) : l = [] \/ exists l0 y, l = (l0 ++ [y])%list.
Proof. induction l using rev_ind; [now left | right; eauto]. Qed.

Lemma settled_app_inv (l1 l2 : list A) :
  settled cmp (l1 ++ l2) -> settled cmp l1.
Proof.
  induction l1 as [|a l1 IH]; [constructor|].
  destruct l1 as [|b l1]; [constructor|].
  cbn. intros [B S]. split; [exact B | now apply IH].
Qed.

Lemma settled_last (l : list A) (y x : A) (rest : list A) :
  settled cmp ((l ++ [y]) ++ x :: rest) -> belongs_after cmp y x = false.
Proof.
  induction l as [|a l IH]; cbn.
  - now intros [B _].
  - destruct (l ++ [y])%list eqn:E at 1.
    + now destruct l.
    + rewrite <- E. intros S. apply IH.
      rewrite E in S. cbn in S. rewrite E. now destruct S.
Qed.

(** [sort] leaves a settled array as it is. *)
Lemma sort_from_settled (l acc : list A) :
  settled cmp (acc ++ l) ->
  fold_left (fun sorted x => snd (insert_back cmp x sorted)) l acc
  = (acc ++ l)%list.
Proof.
  revert acc. induction l as [|x l IH]; intros acc S; cbn.
  - now rewrite app_nil_r.
  - assert (I : snd (insert_back cmp x acc) = (acc ++ [x])%list).
    { destruct (last_case acc) as [->|(l0 & y & ->)]; [reflexivity|].
      rewrite (insert_back_stays cmp x y l0).
      - now rewrite <- app_assoc.
      - now apply (settled_last l0 y x l). }
    rewrite I, IH; rewrite <- app_assoc; [reflexivity | exact S].
Qed.

Lemma sort_settled (l : list A) : settled cmp l -> sort cmp l = l.
Proof. intros S. apply (sort_from_settled l [] S). Qed.

(** An element that every other one belongs after moves to the front. *)
Lemma insert_back_to_front (x : A) (l : list A) :
  Forall (fun y => belongs_after cmp y x = true) l ->
  insert_back cmp x l = (true, x :: l).
Proof.
  induction l as [|y l IH]; intros F; [reflexivity|].
  inversion F as [|? ? B Fl]; subst. cbn.
  now rewrite (IH Fl), B.
Qed.

(** An element that no other one belongs after stays at the end. *)
Lemma insert_back_at_end (x : A) (l : list A) :
  Forall (fun y => belongs_after cmp y x = false) l ->
  snd (insert_back cmp x l) = (l ++ [x])%list.
Proof.
  intros F. destruct (last_case l) as [->|(l0 & y & ->)]; [reflexivity|].
  rewrite (insert_back_stays cmp x y l0).
  - now rewrite <- app_assoc.
  - apply Forall_app in F as [_ F]. now inversion F.
Qed.

Lemma filter_perm (f : A -> bool) (l l' : list A) :
  Permutation l l' -> Permutation (List.filter f l) (List.filter f l').
Proof.
  induction 1 as [|x l l' P IH|x y l|l l' l'' P1 IH1 P2 IH2]; cbn.
  - constructor.
  - destruct (f x); [now constructor | exact IH].
  - destruct (f x), (f y); try reflexivity. apply perm_swap.
  - now transitivity (List.filter f l').
Qed.

End SortMore.

(** ** More on the record store *)

Section DatabaseMore.
Context `{Runtime}.

Lemma key_step_same_key (mk mk' : option (list byte)) :
  key_step mk mk' -> fst (getMasterKey mk') = fst (getMasterKey mk).
Proof. intros [->| ->]; [reflexivity | now destruct mk]. Qed.

(** What [loadUserData] returns depends on the state through the file
    of the user and the key only. *)
Lemma loadUserData_agree (st1 st2 : State) (now : Z) (uid : string)
    (enc : bool) :
  files (fs st1) !! getUserDataPath uid
    = files (fs st2) !! getUserDataPath uid ->
  unreadable (fs st1) = unreadable (fs st2) ->
  fst (getMasterKey (MASTER_KEY st1)) = fst (getMasterKey (MASTER_KEY st2)) ->
  fst (loadUserData st1 now uid enc) = fst (loadUserData st2 now uid enc).
Proof.
  intros F U K.
  destruct (files (fs st2) !! getUserDataPath uid) as [text|] eqn:E2.
  - unfold loadUserData.
    rewrite (existsSync_true _ _ _ F), (existsSync_true _ _ _ E2).
    cbn [negb]. unfold readFileSync. rewrite F, E2, U.
    destruct (bool_decide _); [reflexivity|].
    destruct enc.
    + pose proof (decryptData_fst _ _ text K) as D.
      destruct (decryptData (MASTER_KEY st1) text) as [d1 k1].
      destruct (decryptData (MASTER_KEY st2) text) as [d2 k2].
      cbn [fst] in D. subst d1.
      destruct d2 as [t|]; [destruct (JSON_parse t)|]; reflexivity.
    + destruct (JSON_parse text); reflexivity.
  - now rewrite !loadUserData_no_file.
Qed.

Lemma saveUserData_disk (st : State) (now : Z) (iv0 : list byte)
    (uid : string) (data : UserData) (enc : bool) :
  unreadable (fs (snd (saveUserData st now iv0 uid data enc)))
    = unreadable (fs st)
  /\ forall p, p <> getUserDataPath uid ->
       files (fs (snd (saveUserData st now iv0 uid data enc))) !! p
       = files (fs st) !! p.
Proof.
  split; [apply saveUserData_unreadable|].
  intros p N. unfold saveUserData.
  destruct (if enc then _ else _) as [[text|m] mk']; cbn [rbind];
    [|reflexivity].
  unfold writeFileSync. destruct (readOnly (fs st)); [reflexivity|].
  cbn [snd fs files]. now apply lookup_insert_ne.
Qed.

Lemma addRecord_disk (st : State) (now : Z) (rnd : string)
    (iv0 : list byte) (uid : string) (r : record) (enc : bool) :
  unreadable (fs (snd (addRecord st now rnd iv0 uid r enc)))
    = unreadable (fs st)
  /\ forall p, p <> getUserDataPath uid ->
       files (fs (snd (addRecord st now rnd iv0 uid r enc))) !! p
       = files (fs st) !! p.
Proof.
  unfold addRecord.
  pose proof (loadUserData_fs st now uid enc) as F.
  destruct (loadUserData st now uid enc) as [d st1]. cbn [snd] in F.
  match goal with
  | |- context [saveUserData st1 now iv0 uid ?d' enc] =>
      pose proof (saveUserData_disk st1 now iv0 uid d' enc) as [U P];
      destruct (saveUserData st1 now iv0 uid d' enc) as [[ok d2] st2]
  end.
  cbn [snd] in *. rewrite F in *. now split.
Qed.

Lemma deleteUserData_disk (st : State) (uid : string) :
  unreadable (fs (snd (deleteUserData st uid))) = unreadable (fs st)
  /\ forall p, p <> getUserDataPath uid ->
       files (fs (snd (deleteUserData st uid))) !! p = files (fs st) !! p.
Proof.
  unfold deleteUserData, unlinkSync.
  destruct (existsSync _ _); [|now split].
  destruct (readOnly (fs st)); [now split|].
  destruct (files (fs st) !! getUserDataPath uid); [|now split].
  cbn [snd fs files unreadable]. split; [reflexivity|].
  intros p N. now apply lookup_delete_ne.
Qed.

(** X12: users are kept apart.  When the sanitised identifiers of two
    users differ, nothing one of them adds, saves or deletes changes
    what is loaded for the other. *)
Theorem users_are_isolated (st : State) (now : Z) (rnd : string)
    (iv0 : list byte) (u1 u2 : string) (r : record) (data : UserData)
    (enc enc2 : bool) (now' : Z) :
  sanitizePhoneNumber u1 <> sanitizePhoneNumber u2 ->
  fst (loadUserData (snd (addRecord st now rnd iv0 u1 r enc)) now' u2 enc2)
    = fst (loadUserData st now' u2 enc2)
  /\ fst (loadUserData (snd (saveUserData st now iv0 u1 data enc)) now' u2
            enc2)
     = fst (loadUserData st now' u2 enc2)
  /\ fst (loadUserData (snd (deleteUserData st u1)) now' u2 enc2)
     = fst (loadUserData st now' u2 enc2).
Proof.
  intros N.
  assert (P : getUserDataPath u2 <> getUserDataPath u1).
  { intros E. apply N. symmetry. now apply getUserDataPath_inj. }
  split; [|split]; apply loadUserData_agree.
  - now apply addRecord_disk.
  - apply addRecord_disk.
  - apply key_step_same_key, addRecord_key.
  - now apply saveUserData_disk.
  - apply saveUserData_disk.
  - apply key_step_same_key, saveUserData_key.
  - now apply deleteUserData_disk.
  - apply deleteUserData_disk.
  - now rewrite deleteUserData_key.
Qed.

(** X13: a document saved by one process is loaded by the next.  The
    key is derived again from the same device identifier, so the file
    written under [encrypted] opens in a process whose cache is empty. *)
Theorem load_after_restart (st : State) (now : Z) (iv0 : list byte)
    (uid : string) (data : UserData) (enc : bool) (data' : UserData)
    (st' : State) (now' : Z) :
  JSON_roundtrip -> gcm_correct -> envelope_parses ->
  key_ok (MASTER_KEY st) ->
  getUserDataPath uid ∉ unreadable (fs st) ->
  saveUserData st now iv0 uid data enc = (true, data', st') ->
  fst (loadUserData {| MASTER_KEY := None; fs := fs st' |} now' uid enc)
  = data'.
Proof.
  intros HJ HG HE K R S.
  pose proof (load_after_save _ _ _ _ _ _ _ _ now' HJ HG HE S R) as L.
  rewrite (loadUserData_agree _ st' now' uid enc);
    [now rewrite L | reflexivity | reflexivity |].
  cbn [MASTER_KEY].
  pose proof (saveUserData_key st now iv0 uid data enc) as T.
  rewrite S in T. cbn [snd] in T.
  now rewrite (getMasterKey_ok _ (key_step_ok _ _ T K)).
Qed.

Lemma newRecord_kept (now : Z) (rnd : string) (r : record)
    (key v : string) :
  r !! key = Some v -> newRecord now rnd r !! key = Some v.
Proof.
  intros E. unfold newRecord, spread. rewrite lookup_union, E.
  apply union_Some_l.
Qed.

Lemma newRecord_absent (now : Z) (rnd : string) (r : record)
    (key : string) :
  r !! key = None ->
  newRecord now rnd r !! key
  = with_property "content" (r !! "content")
      (<["category" := or_else (r !! "category") "observacao"]>
         (<["date" := or_else (r !! "date") (getTodayDate now)]>
            (<["timestamp" := toISOString now]>
               (<["id" := generateRecordId now rnd]> ∅)))) !! key.
Proof.
  intros E. unfold newRecord, spread. rewrite lookup_union, E.
  apply (left_id None _).
Qed.

(** X14: the record [addRecord] builds.  Every property of the caller's
    object is kept as given, an empty date or category included; the
    defaults, today's date and the category observacao, fill in only for
    a property the object lacks; nothing else is added. *)
Theorem newRecord_keeps_properties_and_fills_defaults (now : Z)
    (rnd : string) (r : record) :
  (forall key v, r !! key = Some v -> newRecord now rnd r !! key = Some v)
  /\ (r !! "date" = None ->
      newRecord now rnd r !! "date" = Some (getTodayDate now))
  /\ (r !! "category" = None ->
      newRecord now rnd r !! "category" = Some "observacao")
  /\ (forall key,
        key <> "id" -> key <> "timestamp" -> key <> "date" ->
        key <> "category" ->
        newRecord now rnd r !! key = r !! key).
Proof.
  split; [apply newRecord_kept|].
  assert (C : forall (o : record) key, key <> "content" ->
               with_property "content" (r !! "content") o !! key = o !! key).
  { intros o key N. unfold with_property.
    destruct (r !! "content"); [|reflexivity].
    apply lookup_insert_ne. congruence. }
  split; [|split].
  - intros E. rewrite (newRecord_absent _ _ _ _ E), C by discriminate.
    rewrite lookup_insert_ne by discriminate.
    rewrite lookup_insert_eq, E. reflexivity.
  - intros E. rewrite (newRecord_absent _ _ _ _ E), C by discriminate.
    rewrite lookup_insert_eq, E. reflexivity.
  - intros key N1 N2 N3 N4.
    destruct (r !! key) as [v|] eqn:E; [now apply newRecord_kept|].
    rewrite (newRecord_absent _ _ _ _ E).
    destruct (decide (key = "content")) as [->|N5].
    + unfold with_property. rewrite E.
      rewrite !lookup_insert_ne by discriminate. apply lookup_empty.
    + rewrite C by exact N5.
      rewrite !lookup_insert_ne by congruence. apply lookup_empty.
Qed.

Lemma getRecordsByDate_fst (st : State) (now : Z) (uid date : string)
    (enc : bool) :
  fst (getRecordsByDate st now uid date enc)
  = List.filter (fun r => bool_decide (r !! "date" = Some date))
      (fst (getAllRecords st now uid enc)).
Proof.
  unfold getRecordsByDate, getAllRecords.
  now destruct (loadUserData st now uid enc).
Qed.

(** The records after a successful [addRecord], in the order of the
    store. *)
Lemma records_after_add (st : State) (now : Z) (rnd : string)
    (iv0 : list byte) (uid : string) (r : record) (enc : bool)
    (st' : State) (now' : Z) :
  JSON_roundtrip -> gcm_correct -> envelope_parses ->
  getUserDataPath uid ∉ unreadable (fs st) ->
  addRecord st now rnd iv0 uid r enc = (true, st') ->
  fst (getAllRecords st' now' uid enc)
  = sort compareRecords
      (fst (getAllRecords st now uid enc) ++ [newRecord now rnd r]).
Proof.
  intros HJ HG HE R A.
  rewrite (getAllRecords_after_add _ _ _ _ _ _ _ _ now' HJ HG HE A R).
  now rewrite getAllRecords_fst.
Qed.

(** X15: a successful [addRecord] loses and duplicates nothing.  The
    store then holds the earlier records and the new one, whatever their
    timestamps are, and the count in the metadata is one more than
    before. *)
Theorem addRecord_keeps_every_record (st : State) (now : Z)
    (rnd : string) (iv0 : list byte) (uid : string) (r : record)
    (enc : bool) (st' : State) (now' : Z) :
  JSON_roundtrip -> gcm_correct -> envelope_parses ->
  getUserDataPath uid ∉ unreadable (fs st) ->
  addRecord st now rnd iv0 uid r enc = (true, st') ->
  Permutation (fst (getAllRecords st' now' uid enc))
    (newRecord now rnd r :: fst (getAllRecords st now uid enc))
  /\ exists m,
       metadata (fst (loadUserData st' now' uid enc)) = Some m
       /\ totalRecords m
          = Some (1 + Z.of_nat
                        (List.length (fst (getAllRecords st now uid enc)))).
Proof.
  intros HJ HG HE R A. split.
  - rewrite (records_after_add _ _ _ _ _ _ _ _ now' HJ HG HE R A).
    rewrite sort_perm. symmetry. apply Permutation_cons_append.
  - pose proof A as A'. apply addRecord_steps in A' as (data' & S).
    assert (L : loadUserData st' now' uid enc = (data', st')).
    { eapply load_after_save; eauto. now rewrite loadUserData_fs. }
    rewrite L. cbn [fst].
    apply saveUserData_true in S as (-> & _).
    unfold touchMetadata. cbn [metadata records].
    eexists. split; [reflexivity|]. cbn [totalRecords]. f_equal.
    rewrite (Permutation_length (sort_perm _ _)), length_app.
    rewrite getAllRecords_fst. cbn [List.length]. lia.
Qed.

(** X16: the new record is found under its date.  After a successful
    [addRecord], [getRecordsByDate] lists the new record under the date
    it carries, which is today's date when the caller gave none, and
    lists under any other date what it listed before. *)
Theorem getRecordsByDate_after_add (st : State) (now : Z) (rnd : string)
    (iv0 : list byte) (uid : string) (r : record) (enc : bool)
    (st' : State) (now' : Z) :
  JSON_roundtrip -> gcm_correct -> envelope_parses ->
  getUserDataPath uid ∉ unreadable (fs st) ->
  addRecord st now rnd iv0 uid r enc = (true, st') ->
  (forall d, newRecord now rnd r !! "date" = Some d ->
     In (newRecord now rnd r) (fst (getRecordsByDate st' now' uid d enc)))
  /\ (r !! "date" = None ->
      In (newRecord now rnd r)
        (fst (getRecordsByDate st' now' uid (getTodayDate now) enc)))
  /\ (forall d, newRecord now rnd r !! "date" <> Some d ->
        Permutation (fst (getRecordsByDate st' now' uid d enc))
          (fst (getRecordsByDate st now uid d enc))).
Proof.
  intros HJ HG HE R A.
  assert (P : Permutation (fst (getAllRecords st' now' uid enc))
                (newRecord now rnd r :: fst (getAllRecords st now uid enc))).
  { rewrite (records_after_add _ _ _ _ _ _ _ _ now' HJ HG HE R A).
    rewrite sort_perm. symmetry. apply Permutation_cons_append. }
  assert (I : forall d, newRecord now rnd r !! "date" = Some d ->
                In (newRecord now rnd r)
                  (fst (getRecordsByDate st' now' uid d enc))).
  { intros d E. rewrite getRecordsByDate_fst. apply filter_In. split.
    - eapply Permutation_in; [symmetry; exact P | now left].
    - now apply bool_decide_eq_true_2. }
  split; [exact I|]. split.
  - intros E. apply I.
    rewrite (newRecord_absent _ _ _ _ E). unfold with_property.
    destruct (r !! "content");
      rewrite ?(lookup_insert_ne _ "content") by discriminate;
      rewrite lookup_insert_ne by discriminate;
      rewrite lookup_insert_eq, E; reflexivity.
  - intros d N. rewrite !getRecordsByDate_fst.
    rewrite (filter_perm _ _ _ P). cbn [List.filter].
    now rewrite bool_decide_eq_false_2.
Qed.

(** X17: a file that cannot be loaded is written over.  When the file
    of the user exists but cannot be read or does not parse, [addRecord]
    on a writable disk succeeds and replaces the file by a document that
    holds the new record alone, with the failure marker in its
    metadata; what the file held before is gone. *)
Theorem addRecord_overwrites_unloadable_file (st : State) (now : Z)
    (rnd : string) (iv0 : list byte) (uid : string) (r : record)
    (text : string) :
  files (fs st) !! getUserDataPath uid = Some text ->
  JSON_parse text = None \/ getUserDataPath uid ∈ unreadable (fs st) ->
  readOnly (fs st) = false ->
  addRecord st now rnd iv0 uid r false
  = (true,
     {| MASTER_KEY := MASTER_KEY st;
        fs := {| files :=
                   <[getUserDataPath uid :=
                       JSON_stringify (restartedUserData now rnd uid r)]>
                     (files (fs st));
                 unreadable := unreadable (fs st);
                 readOnly := false |} |})
  /\ (JSON_roundtrip -> getUserDataPath uid ∉ unreadable (fs st) ->
      forall now',
        fst (getAllRecords (snd (addRecord st now rnd iv0 uid r false)) now'
               uid false)
        = [newRecord now rnd r]).
Proof.
  intros E C RO.
  assert (L : fst (loadUserData st now uid false)
              = emptyUserData now uid (Some loadFailure)).
  { unfold loadUserData. rewrite (existsSync_true _ _ _ E). cbn [negb].
    unfold readFileSync. rewrite E.
    destruct (bool_decide (getUserDataPath uid ∈ unreadable (fs st))) eqn:B;
      [reflexivity|].
    destruct C as [C|C]; [now rewrite C|].
    apply bool_decide_eq_false in B. contradiction. }
  assert (A : addRecord st now rnd iv0 uid r false
              = (true,
                 {| MASTER_KEY := MASTER_KEY st;
                    fs := {| files :=
                               <[getUserDataPath uid :=
                                   JSON_stringify
                                     (restartedUserData now rnd uid r)]>
                                 (files (fs st));
                             unreadable := unreadable (fs st);
                             readOnly := false |} |})).
  { rewrite (addRecord_plain _ _ _ _ _ _ RO), L. reflexivity. }
  split; [exact A|].
  intros HJ R now'. rewrite A. cbn [snd].
  rewrite getAllRecords_fst.
  rewrite (loadUserData_plain_file _ now' uid
             (restartedUserData now rnd uid r) HJ);
    [reflexivity | apply lookup_insert_eq | exact R].
Qed.

Lemma sorted_desc_settled (l : list record) :
  sorted_desc l -> settled compareRecords l.
Proof.
  induction 1 as [|r|a b l ta tb Ea Eb Le S IH]; cbn; auto.
  split; [|exact IH].
  rewrite (belongs_after_records _ _ _ _ Ea Eb). now apply Z.ltb_ge.
Qed.

(** X18: where the new record goes.  When the store is in descending
    order of timestamp, a successful [addRecord] puts a record newer than
    all of them in front and leaves the others in their order, and puts a
    record that is not newer than any of them at the end. *)
Theorem addRecord_newest_first (st : State) (now : Z) (rnd : string)
    (iv0 : list byte) (uid : string) (r : record) (enc : bool)
    (st' : State) (now' t : Z) :
  JSON_roundtrip -> gcm_correct -> envelope_parses ->
  getUserDataPath uid ∉ unreadable (fs st) ->
  addRecord st now rnd iv0 uid r enc = (true, st') ->
  sorted_desc (fst (getAllRecords st now uid enc)) ->
  time_of (newRecord now rnd r) = Some t ->
  (Forall (fun y => exists ty, time_of y = Some ty /\ ty < t)
     (fst (getAllRecords st now uid enc)) ->
   fst (getAllRecords st' now' uid enc)
   = newRecord now rnd r :: fst (getAllRecords st now uid enc))
  /\ (Forall (fun y => exists ty, time_of y = Some ty /\ t <= ty)
        (fst (getAllRecords st now uid enc)) ->
      fst (getAllRecords st' now' uid enc)
      = (fst (getAllRecords st now uid enc) ++ [newRecord now rnd r])%list).
Proof.
  intros HJ HG HE R A S T.
  rewrite (records_after_add _ _ _ _ _ _ _ _ now' HJ HG HE R A).
  rewrite sort_snoc, (sort_settled _ _ (sorted_desc_settled _ S)).
  split; intros F.
  - rewrite insert_back_to_front; [reflexivity|].
    eapply List.Forall_impl; [|exact F]. cbn. intros y (ty & Ey & L).
    rewrite (belongs_after_records _ _ _ _ Ey T). now apply Z.ltb_lt.
  - apply insert_back_at_end.
    eapply List.Forall_impl; [|exact F]. cbn. intros y (ty & Ey & L).
    rewrite (belongs_after_records _ _ _ _ Ey T). now apply Z.ltb_ge.
Qed.

End DatabaseMore.

(** ** The calendar *)

Section CalendarFacts.

Lemma holds_from_spec (test : Z -> bool) (n : nat) (z : Z) :
  holds_from test n z = true ->
  forall k, 0 <= k < Z.of_nat n -> test (z + k) = true.
Proof.
  revert z. induction n as [|n IH]; intros z E k K; [lia|].
  cbn [holds_from] in E. destruct (test z) eqn:T; [|discriminate].
  destruct (Z.eq_dec k 0) as [->|N]; [now rewrite Z.add_0_r|].
  replace (z + k) with (z + 1 + (k - 1)) by lia.
  apply IH; [exact E | lia].
Qed.

(** On the first and on the last day of each of the 400 years of an era,
    [year_of_era] finds the year. *)
Lemma year_table :
  holds_from
    (fun y => (year_of_era (days_before_year y) =? y)
              && (year_of_era (last_day_of_year y) =? y))
    (Z.to_nat 400) 0
  = true.
Proof. vm_compute. reflexivity. Qed.

Lemma year_of_era_mono (a b : Z) :
  0 <= a -> a <= b -> b <= 146096 -> year_of_era a <= year_of_era b.
Proof.
  intros A L B. unfold year_of_era.
  apply Z.div_le_mono; [lia|].
  Z.div_mod_to_equations. lia.
Qed.

Lemma year_bounds (y : Z) :
  0 <= y <= 399 ->
  0 <= days_before_year y
  /\ days_before_year y <= last_day_of_year y <= 146096
  /\ last_day_of_year y <= days_before_year y + 365.
Proof.
  intros R. unfold last_day_of_year, days_before_year.
  destruct (Z.eqb_spec y 399) as [->|N];
    [change (399 / 4) with 99; change (399 / 100) with 3; lia|].
  cbv iota. Z.div_mod_to_equations. lia.
Qed.

Lemma year_exists (doe : Z) :
  0 <= doe <= 146096 ->
  exists y, 0 <= y <= 399
            /\ days_before_year y <= doe <= last_day_of_year y.
Proof.
  intros [L U]. revert U. pattern doe. apply natlike_ind; [| |exact L].
  - intros _. exists 0. split; [lia|]. vm_compute. split; discriminate.
  - intros d D IH U. destruct IH as (y & R & S1 & S2); [lia|].
    destruct (Z.eq_dec d (last_day_of_year y)) as [E|N].
    + assert (Y : y <> 399).
      { intros ->. unfold last_day_of_year in E. cbn in E. lia. }
      exists (y + 1). split; [lia|].
      pose proof (year_bounds (y + 1) ltac:(lia)) as (_ & B & _).
      unfold last_day_of_year in E.
      destruct (Z.eqb_spec y 399); [contradiction|]. cbv iota in E. lia.
    + exists y. split; [exact R|]. lia.
Qed.

(** [year_of_era] finds the year of every day of the era. *)
Lemma year_of_era_correct (doe : Z) :
  0 <= doe <= 146096 ->
  0 <= year_of_era doe <= 399
  /\ days_before_year (year_of_era doe) <= doe
     <= days_before_year (year_of_era doe) + 365.
Proof.
  intros R. destruct (year_exists doe R) as (y & Y & S1 & S2).
  pose proof (holds_from_spec _ _ _ year_table y ltac:(lia)) as T.
  cbn beta in T. rewrite Z.add_0_l in T.
  apply andb_true_iff in T as [T1 T2]. apply Z.eqb_eq in T1, T2.
  pose proof (year_bounds y Y) as (B1 & B2 & B3).
  pose proof (year_of_era_mono (days_before_year y) doe B1 S1 ltac:(lia)).
  pose proof (year_of_era_mono doe (last_day_of_year y) ltac:(lia) S2
                ltac:(lia)).
  assert (E : year_of_era doe = y) by lia.
  rewrite E. lia.
Qed.

Lemma civil_from_days_parts (z : Z) :
  civil_from_days z
  = let era := (z + 719468) / 146097 in
    let doe := (z + 719468) mod 146097 in
    let yoe := year_of_era doe in
    let doy := doe - days_before_year yoe in
    let mp := (5 * doy + 2) / 153 in
    let m := if mp <? 10 then mp + 3 else mp - 9 in
    {| year := yoe + era * 400 + (if m <=? 2 then 1 else 0);
       month := m;
       day := doy - (153 * mp + 2) / 5 + 1 |}.
Proof.
  unfold civil_from_days, year_of_era, days_before_year. cbn zeta.
  rewrite Z.mod_eq by lia.
  replace (z + 719468 - 146097 * ((z + 719468) / 146097))
    with (z + 719468 - (z + 719468) / 146097 * 146097) by lia.
  reflexivity.
Qed.

(** Every day has a date with a month and a day of the month. *)
Lemma civil_from_days_ok (z : Z) : date_ok (civil_from_days z) = true.
Proof.
  rewrite civil_from_days_parts. cbn zeta.
  pose proof (Z.mod_pos_bound (z + 719468) 146097 ltac:(lia)) as B.
  set (doe := (z + 719468) mod 146097) in *.
  pose proof (year_of_era_correct doe ltac:(lia)) as (Y & S1 & S2).
  set (doy := doe - days_before_year (year_of_era doe)) in *.
  assert (D : 0 <= doy <= 365) by lia. clearbody doy. clear - D.
  unfold date_ok. cbn [month day].
  set (mp := (5 * doy + 2) / 153).
  assert (M : 0 <= mp <= 11)
    by (subst mp; Z.div_mod_to_equations; lia).
  assert (E : 153 * mp <= 5 * doy + 2 < 153 * mp + 153)
    by (subst mp; Z.div_mod_to_equations; lia).
  clearbody mp.
  destruct (Z.ltb_spec mp 10);
    repeat rewrite andb_true_iff; rewrite !Z.leb_le;
    repeat split; try lia; Z.div_mod_to_equations; lia.
Qed.

(** Later days have later dates. *)
Lemma civil_from_days_lt (a b : Z) :
  a < b -> civil_ltb (civil_from_days a) (civil_from_days b) = true.
Proof.
  intros L. rewrite !civil_from_days_parts. cbn zeta.
  pose proof (Z.mod_pos_bound (a + 719468) 146097 ltac:(lia)) as Ba.
  pose proof (Z.mod_pos_bound (b + 719468) 146097 ltac:(lia)) as Bb.
  pose proof (Z.div_mod (a + 719468) 146097 ltac:(lia)) as Ea.
  pose proof (Z.div_mod (b + 719468) 146097 ltac:(lia)) as Eb.
  set (ea := (a + 719468) / 146097) in *.
  set (eb := (b + 719468) / 146097) in *.
  set (da := (a + 719468) mod 146097) in *.
  set (db := (b + 719468) mod 146097) in *.
  pose proof (year_of_era_correct da ltac:(lia)) as (Ya & Sa1 & Sa2).
  pose proof (year_of_era_correct db ltac:(lia)) as (Yb & Sb1 & Sb2).
  assert (M : ea = eb -> year_of_era da <= year_of_era db).
  { intros E. apply year_of_era_mono; lia. }
  set (ya := year_of_era da) in *. set (yb := year_of_era db) in *.
  set (sa := days_before_year ya) in *.
  set (sb := days_before_year yb) in *.
  assert (Q : ya = yb -> sa = sb) by (intros E; subst sa sb; now rewrite E).
  clearbody ea eb da db ya yb sa sb.
  set (pa := (5 * (da - sa) + 2) / 153).
  set (pb := (5 * (db - sb) + 2) / 153).
  assert (Pa : 153 * pa <= 5 * (da - sa) + 2 < 153 * pa + 153)
    by (subst pa; Z.div_mod_to_equations; lia).
  assert (Pb : 153 * pb <= 5 * (db - sb) + 2 < 153 * pb + 153)
    by (subst pb; Z.div_mod_to_equations; lia).
  clearbody pa pb.
  assert (D : pa = pb ->
              (153 * pa + 2) / 5 = (153 * pb + 2) / 5) by now intros ->.
  set (fa := (153 * pa + 2) / 5) in *. set (fb := (153 * pb + 2) / 5) in *.
  clearbody fa fb.
  unfold civil_ltb. cbn [year month day].
  destruct (Z.ltb_spec pa 10), (Z.ltb_spec pb 10);
    repeat match goal with
           | |- context [?x <=? ?y] => destruct (Z.leb_spec x y)
           end;
    repeat rewrite orb_true_iff; repeat rewrite andb_true_iff;
    rewrite ?Z.ltb_lt, ?Z.eqb_eq; lia.
Qed.

Lemma four_digit_year_range (z : Z) :
  four_digit_year z -> 1000 <= year (civil_from_days z) <= 9999.
Proof.
  intros [L U].
  assert (A : z = -354285 \/ -354285 < z) by lia.
  assert (B : z = 2932896 \/ z < 2932896) by lia.
  split.
  - destruct A as [->|A]; [vm_compute; discriminate|].
    apply civil_from_days_lt in A. unfold civil_ltb in A.
    change (year (civil_from_days (-354285))) with 1000 in A.
    apply orb_true_iff in A as [A|A];
      [apply Z.ltb_lt in A; lia|].
    apply andb_true_iff in A as [A _]. apply Z.eqb_eq in A. lia.
  - destruct B as [->|B]; [vm_compute; discriminate|].
    apply civil_from_days_lt in B. unfold civil_ltb in B.
    change (year (civil_from_days 2932896)) with 9999 in B.
    apply orb_true_iff in B as [B|B];
      [apply Z.ltb_lt in B; lia|].
    apply andb_true_iff in B as [B _]. apply Z.eqb_eq in B. lia.
Qed.

End CalendarFacts.

(** ** Dates as texts *)

Section DateTextFacts.

Lemma dec_four_table :
  holds_from (fun y => String.eqb (dec y) (four y)) (Z.to_nat 9000) 1000
  = true.
Proof. vm_compute. reflexivity. Qed.

Lemma pad_two_table :
  holds_from (fun n => String.eqb (padStart0 2 (dec n)) (two n))
    (Z.to_nat 100) 0
  = true.
Proof. vm_compute. reflexivity. Qed.

Lemma dec_four (y : Z) : 1000 <= y <= 9999 -> dec y = four y.
Proof.
  intros R.
  pose proof (holds_from_spec _ _ _ dec_four_table (y - 1000) ltac:(lia)) as T.
  cbn beta in T. replace (1000 + (y - 1000)) with y in T by lia.
  now apply String.eqb_eq.
Qed.

Lemma pad_two (n : Z) : 0 <= n <= 99 -> padStart0 2 (dec n) = two n.
Proof.
  intros R.
  pose proof (holds_from_spec _ _ _ pad_two_table n ltac:(lia)) as T.
  cbn beta in T. now apply String.eqb_eq.
Qed.

Lemma formatDate_digits (c : civil) :
  1000 <= year c <= 9999 -> date_ok c = true ->
  formatDate c
  = four (year c) ++ "-" ++ two (month c) ++ "-" ++ two (day c).
Proof.
  intros Y D. unfold date_ok in D.
  repeat (apply andb_true_iff in D as [D ?]). rewrite !Z.leb_le in *.
  unfold formatDate.
  now rewrite (dec_four _ Y), !pad_two by lia.
Qed.

Lemma digit_compare (a b : Z) :
  0 <= a <= 9 -> 0 <= b <= 9 ->
  Ascii.compare (digit_char a) (digit_char b) = (a ?= b).
Proof.
  intros A B. unfold Ascii.compare, digit_char.
  rewrite !N_ascii_embedding by lia.
  rewrite Z2N.inj_compare by lia. apply Z.add_compare_mono_l.
Qed.

Lemma digits_value_from (l : list Z) (acc : Z) :
  fold_left (fun acc d => 10 * acc + d) l acc
  = acc * 10 ^ Z.of_nat (List.length l) + digits_value l.
Proof.
  unfold digits_value. revert acc.
  induction l as [|d l IH]; intros acc; [cbn; lia|].
  cbn [fold_left List.length]. rewrite IH, (IH (10 * 0 + d)).
  rewrite Nat2Z.inj_succ, Z.pow_succ_r by lia. ring.
Qed.

Lemma digits_value_bound (l : list Z) :
  Forall (fun d => 0 <= d <= 9) l ->
  0 <= digits_value l < 10 ^ Z.of_nat (List.length l).
Proof.
  induction 1 as [|d l D F IH]; [cbn; lia|].
  unfold digits_value. cbn [fold_left List.length].
  rewrite digits_value_from, Nat2Z.inj_succ, Z.pow_succ_r by lia. nia.
Qed.

(** Texts of digits of one length compare as their values do. *)
Lemma digits_compare_value (l1 l2 : list Z) :
  List.length l1 = List.length l2 ->
  Forall (fun d => 0 <= d <= 9) l1 -> Forall (fun d => 0 <= d <= 9) l2 ->
  digits_compare l1 l2 = (digits_value l1 ?= digits_value l2).
Proof.
  revert l2. induction l1 as [|a l1 IH]; intros [|b l2] L F1 F2;
    try discriminate; [reflexivity|].
  inversion F1 as [|? ? A F1']; subst. inversion F2 as [|? ? B F2']; subst.
  injection L as L.
  pose proof (digits_value_bound _ F1') as V1.
  pose proof (digits_value_bound _ F2') as V2.
  cbn [digits_compare]. unfold digits_value. cbn [fold_left].
  rewrite !digits_value_from, <- L.
  set (P := 10 ^ Z.of_nat (List.length l1)) in *.
  rewrite <- L in V2. fold P in V2.
  rewrite (IH l2 L F1' F2').
  destruct (Z.compare_spec a b) as [->|Lt|Gt].
  - destruct (Z.compare_spec (digits_value l1) (digits_value l2));
      symmetry; [apply Z.compare_eq_iff | apply Z.compare_lt_iff
                | apply Z.compare_gt_iff]; lia.
  - symmetry. apply Z.compare_lt_iff. nia.
  - symmetry. apply Z.compare_gt_iff. nia.
Qed.

Lemma compare_digit_chars (a b : Z) (s t : string) :
  0 <= a <= 9 -> 0 <= b <= 9 ->
  String.compare (String (digit_char a) s) (String (digit_char b) t)
  = match a ?= b with
    | Eq => String.compare s t
    | ne => ne
    end.
Proof. intros A B. cbn [String.compare]. now rewrite digit_compare. Qed.

Lemma compare_same_char (c : ascii) (s t : string) :
  String.compare (String c s) (String c t) = String.compare s t.
Proof.
  cbn [String.compare].
  assert (E : Ascii.compare c c = Eq); [|now rewrite E].
  unfold Ascii.compare. apply N.compare_refl.
Qed.

Lemma digits_of (n : Z) :
  0 <= n <= 9999 ->
  0 <= n / 1000 <= 9 /\ 0 <= n / 100 mod 10 <= 9
  /\ 0 <= n / 10 mod 10 <= 9 /\ 0 <= n mod 10 <= 9.
Proof. intros R. repeat split; Z.div_mod_to_equations; lia. Qed.

Lemma digits_of_two (n : Z) :
  0 <= n <= 99 -> 0 <= n / 10 <= 9 /\ 0 <= n mod 10 <= 9.
Proof. intros R. repeat split; Z.div_mod_to_equations; lia. Qed.

(** The texts [formatDate] prints for two dates compare as the dates
    do. *)
Lemma formatDate_compare (a b : civil) :
  1000 <= year a <= 9999 -> date_ok a = true ->
  1000 <= year b <= 9999 -> date_ok b = true ->
  String.leb (formatDate a) (formatDate b) = negb (civil_ltb b a).
Proof.
  intros Ya Da Yb Db.
  rewrite (formatDate_digits a Ya Da), (formatDate_digits b Yb Db).
  unfold date_ok in Da, Db.
  repeat (apply andb_true_iff in Da as [Da ?]).
  repeat (apply andb_true_iff in Db as [Db ?]).
  rewrite !Z.leb_le in *.
  destruct (digits_of (year a) ltac:(lia)) as (? & ? & ? & ?).
  destruct (digits_of (year b) ltac:(lia)) as (? & ? & ? & ?).
  destruct (digits_of_two (month a) ltac:(lia)) as (? & ?).
  destruct (digits_of_two (month b) ltac:(lia)) as (? & ?).
  destruct (digits_of_two (day a) ltac:(lia)) as (? & ?).
  destruct (digits_of_two (day b) ltac:(lia)) as (? & ?).
  assert (C : String.compare
                (four (year a) ++ "-" ++ two (month a) ++ "-" ++ two (day a))
                (four (year b) ++ "-" ++ two (month b) ++ "-" ++ two (day b))
              = digits_compare
                  [year a / 1000; year a / 100 mod 10; year a / 10 mod 10;
                   year a mod 10; month a / 10; month a mod 10;
                   day a / 10; day a mod 10]
                  [year b / 1000; year b / 100 mod 10; year b / 10 mod 10;
                   year b mod 10; month b / 10; month b mod 10;
                   day b / 10; day b mod 10]).
  { unfold four, two.
    repeat (rewrite append_cons || change ("" ++ ?s) with s).
    rewrite !compare_digit_chars, !compare_same_char by assumption.
    rewrite !compare_digit_chars, !compare_same_char by assumption.
    rewrite !compare_digit_chars by assumption.
    cbn [digits_compare String.compare].
    repeat match goal with
           | |- context [?x ?= ?y] => destruct (x ?= y); try reflexivity
           end. }
  unfold String.leb. rewrite C.
  rewrite digits_compare_value;
    [|reflexivity
     | repeat (apply List.Forall_cons; [assumption|]); apply List.Forall_nil
     | repeat (apply List.Forall_cons; [assumption|]); apply List.Forall_nil].
  assert (V : forall c : civil,
             0 <= year c <= 9999 -> 0 <= month c <= 99 -> 0 <= day c <= 99 ->
             digits_value
               [year c / 1000; year c / 100 mod 10; year c / 10 mod 10;
                year c mod 10; month c / 10; month c mod 10;
                day c / 10; day c mod 10]
             = year c * 10000 + month c * 100 + day c).
  { intros c ? ? ?. unfold digits_value. cbn [fold_left].
    Z.div_mod_to_equations. lia. }
  rewrite !V by lia. unfold civil_ltb.
  destruct (Z.compare_spec (year a * 10000 + month a * 100 + day a)
              (year b * 10000 + month b * 100 + day b));
    destruct (Z.ltb_spec (year b) (year a));
    destruct (Z.eqb_spec (year b) (year a));
    destruct (Z.ltb_spec (month b) (month a));
    destruct (Z.eqb_spec (month b) (month a));
    destruct (Z.ltb_spec (day b) (day a)); cbn; try reflexivity; lia.
Qed.

End DateTextFacts.

(** ** Dates in the record store *)

Section RecentFacts.
Context `{Runtime}.

Lemma civil_ltb_irrefl (c : civil) : civil_ltb c c = false.
Proof. unfold civil_ltb. now rewrite !Z.ltb_irrefl, !Z.eqb_refl. Qed.

Lemma civil_ltb_asym (a b : civil) :
  civil_ltb a b = true -> civil_ltb b a = false.
Proof.
  unfold civil_ltb. intros L.
  destruct (Z.ltb_spec (year a) (year b)), (Z.eqb_spec (year a) (year b)),
    (Z.ltb_spec (month a) (month b)), (Z.eqb_spec (month a) (month b)),
    (Z.ltb_spec (day a) (day b)); try discriminate;
    repeat rewrite orb_false_iff; repeat rewrite andb_false_iff;
    rewrite ?Z.ltb_ge, ?Z.eqb_neq; lia.
Qed.

(** In the years 1000 to 9999 the texts of [formatDate] compare as the
    days do. *)
Lemma formatDate_days (a b : Z) :
  four_digit_year a -> four_digit_year b ->
  String.leb (formatDate (civil_from_days a)) (formatDate (civil_from_days b))
  = (a <=? b).
Proof.
  intros A B.
  rewrite formatDate_compare;
    auto using four_digit_year_range, civil_from_days_ok.
  destruct (Z.leb_spec a b) as [L|L].
  - destruct (Z.eq_dec a b) as [->|N]; [now rewrite civil_ltb_irrefl|].
    rewrite (civil_ltb_asym (civil_from_days a) (civil_from_days b));
      [reflexivity | apply civil_from_days_lt; lia].
  - now rewrite civil_from_days_lt.
Qed.

(** X19: in the years 1000 to 9999 the texts [formatDate] prints are in
    the order of the days they print, and two days never print the same
    text; this is what lets the store compare dates as texts. *)
Theorem formatDate_order_is_calendar_order (a b : Z) :
  four_digit_year a -> four_digit_year b ->
  (lex_le (formatDate (civil_from_days a)) (formatDate (civil_from_days b))
   <-> a <= b)
  /\ (formatDate (civil_from_days a) = formatDate (civil_from_days b)
      <-> a = b).
Proof.
  intros A B. split.
  - rewrite <- leb_lex_le, (formatDate_days a b A B). apply Z.leb_le.
  - split; [|now intros ->].
    intros E.
    pose proof (formatDate_days a b A B) as L1.
    pose proof (formatDate_days b a B A) as L2.
    rewrite E in L1. rewrite E in L2.
    assert (R : forall s, String.leb s s = true).
    { intros s. apply leb_lex_le.
      induction s; [apply lex_nil | now apply lex_eq]. }
    rewrite R in L1, L2. symmetry in L1, L2.
    apply Z.leb_le in L1, L2. lia.
Qed.

(** A limit in the years 1000 to 9999 is within the range of [Date]. *)
Lemma four_digit_limit (now days : Z) :
  four_digit_year (localDay tzOffset now - days) ->
  formatDate_of tzOffset (setDate_back now days)
  = formatDate (civil_from_days (localDay tzOffset now - days)).
Proof.
  intros L. apply limit_in_range.
  rewrite <- localDay_back in L.
  pose proof tzOffset_range as T.
  unfold four_digit_year, localDay, msPerDay, maxTime in *.
  Z.div_mod_to_equations. lia.
Qed.

(** X20: [getRecentRecords] by the calendar.  For a record whose date
    is the text of a day of the years 1000 to 9999, and a limit that
    falls in those years, the record is returned exactly when its day is
    not before the day [days] days before today. *)
Theorem getRecentRecords_by_calendar (st : State) (now : Z) (uid : string)
    (days : Z) (enc : bool) (r : record) (d : Z) :
  In r (fst (getAllRecords st now uid enc)) ->
  r !! "date" = Some (formatDate (civil_from_days d)) ->
  four_digit_year d ->
  four_digit_year (localDay tzOffset now - days) ->
  In r (fst (getRecentRecords st now uid days enc))
  <-> localDay tzOffset now - days <= d.
Proof.
  intros I E D L.
  rewrite getRecentRecords_filter, (four_digit_limit _ _ L), filter_In.
  unfold date_at_least. rewrite E.
  rewrite (formatDate_days _ _ L D), Z.leb_le. tauto.
Qed.

(** X21: a record added without a date is a recent one.  After a
    successful [addRecord] of an object with no date, [getRecentRecords]
    returns the new record for as long as the day it was added is within
    the window. *)
Theorem addRecord_then_getRecentRecords (st : State) (now : Z)
    (rnd : string) (iv0 : list byte) (uid : string) (r : record)
    (enc : bool) (st' : State) (now' days : Z) :
  JSON_roundtrip -> gcm_correct -> envelope_parses ->
  getUserDataPath uid ∉ unreadable (fs st) ->
  addRecord st now rnd iv0 uid r enc = (true, st') ->
  r !! "date" = None ->
  four_digit_year (localDay tzOffset now) ->
  four_digit_year (localDay tzOffset now' - days) ->
  localDay tzOffset now' - days <= localDay tzOffset now ->
  In (newRecord now rnd r) (fst (getRecentRecords st' now' uid days enc)).
Proof.
  intros HJ HG HE R A E D L W.
  rewrite getRecentRecords_filter, (four_digit_limit _ _ L), filter_In.
  split.
  - rewrite (records_after_add _ _ _ _ _ _ _ _ now' HJ HG HE R A).
    eapply Permutation_in; [symmetry; apply sort_perm|].
    apply in_or_app. right. now left.
  - unfold date_at_least.
    assert (T : newRecord now rnd r !! "date" = Some (getTodayDate now)).
    { rewrite (newRecord_absent _ _ _ _ E). unfold with_property.
      destruct (r !! "content");
        rewrite ?(lookup_insert_ne _ "content") by discriminate;
        rewrite lookup_insert_ne by discriminate;
        rewrite lookup_insert_eq, E; reflexivity. }
    rewrite T. unfold getTodayDate.
    rewrite (formatDate_days _ _ L D). now apply Z.leb_le.
Qed.

End RecentFacts.

(** ** File names *)

Section FilenameFacts.

Lemma to_lower_safe (c : ascii) :
  filename_char c = true \/ c = "_"%char -> safe_char (to_lower c) = true.
Proof.
  intros [F| ->]; [|reflexivity].
  unfold to_lower, safe_char, filename_char in *.
  destruct (is_upper c) eqn:U.
  - unfold is_upper, is_lower in *. cbn zeta in *.
    apply andb_true_iff in U as [U1 U2].
    apply N.leb_le in U1, U2.
    rewrite N_ascii_embedding by lia.
    replace ((97 <=? N_of_ascii c + 32)%N) with true
      by (symmetry; apply N.leb_le; lia).
    replace ((N_of_ascii c + 32 <=? 122)%N) with true
      by (symmetry; apply N.leb_le; lia).
    reflexivity.
  - rewrite orb_false_r in F.
    repeat (apply orb_true_iff in F as [F|F]); rewrite F;
      rewrite ?orb_true_r; reflexivity.
Qed.

Lemma to_lower_underscore (c : ascii) :
  filename_char c = true \/ c = "_"%char ->
  (to_lower c = "_"%char <-> c = "_"%char).
Proof.
  intros F. split; [|now intros ->].
  unfold to_lower. destruct (is_upper c) eqn:U; [|auto].
  unfold is_upper in U. cbn zeta in U.
  apply andb_true_iff in U as [U1 U2]. apply N.leb_le in U1, U2.
  intros E. apply (f_equal N_of_ascii) in E.
  rewrite N_ascii_embedding in E by lia. cbn in E. lia.
Qed.

Lemma to_lower_id (c : ascii) : safe_char c = true -> to_lower c = c.
Proof.
  intros S. unfold to_lower.
  destruct (is_upper c) eqn:U; [|reflexivity].
  unfold safe_char, is_lower, is_upper, is_digit in *. cbn zeta in *.
  apply andb_true_iff in U as [U1 U2]. apply N.leb_le in U1, U2.
  repeat (apply orb_true_iff in S as [S|S]).
  - apply andb_true_iff in S as [S1 S2]. apply N.leb_le in S1, S2. lia.
  - apply andb_true_iff in S as [S1 S2]. apply N.leb_le in S1, S2. lia.
  - apply Ascii.eqb_eq in S. subst c. cbn in *. lia.
  - apply Ascii.eqb_eq in S. subst c. cbn in *. lia.
  - apply Ascii.eqb_eq in S. subst c. cbn in *. lia.
Qed.

Lemma mask_chars (l : list ascii) :
  Forall (fun c => filename_char c = true \/ c = "_"%char) (mask l).
Proof.
  induction l as [|c l IH]; cbn; constructor; auto.
  destruct (filename_char c) eqn:F; auto.
Qed.

Lemma squeeze_two (c d : ascii) (l : list ascii) :
  squeeze (c :: d :: l)
  = if Ascii.eqb c "_" && Ascii.eqb d "_" then squeeze (d :: l)
    else c :: squeeze (d :: l).
Proof.
  change (squeeze (c :: d :: l))
    with (if Ascii.eqb c "_"
          then if Ascii.eqb d "_" then squeeze (d :: l)
               else c :: squeeze (d :: l)
          else c :: squeeze (d :: l)).
  now destruct (Ascii.eqb c "_"), (Ascii.eqb d "_").
Qed.

Lemma squeeze_one (c : ascii) : squeeze [c] = [c].
Proof. cbn. now destruct (Ascii.eqb c "_"). Qed.

Lemma squeeze_chars (P : ascii -> Prop) (l : list ascii) :
  Forall P l -> Forall P (squeeze l).
Proof.
  induction 1 as [|c l Pc F IH]; [constructor|].
  destruct l as [|d l]; [rewrite squeeze_one; now constructor|].
  rewrite squeeze_two.
  destruct (Ascii.eqb c "_" && Ascii.eqb d "_"); [exact IH | now constructor].
Qed.

Lemma squeeze_head (c : ascii) (l : list ascii) :
  exists t, squeeze (c :: l) = c :: t.
Proof.
  revert c. induction l as [|d l IH]; intros c.
  - rewrite squeeze_one. eauto.
  - rewrite squeeze_two.
    destruct (Ascii.eqb c "_") eqn:C, (Ascii.eqb d "_") eqn:D;
      cbn [andb]; eauto.
    apply Ascii.eqb_eq in C, D. subst. apply IH.
Qed.

Lemma squeeze_no_run (l : list ascii) : no_run (squeeze l).
Proof.
  induction l as [|c l IH]; [exact I|].
  destruct l as [|d l]; [now rewrite squeeze_one|].
  rewrite squeeze_two.
  destruct (Ascii.eqb c "_" && Ascii.eqb d "_") eqn:B; [exact IH|].
  destruct (squeeze_head d l) as (t & E). rewrite E in *.
  split; [|exact IH]. intros [-> ->]. discriminate.
Qed.

Lemma squeeze_id (l : list ascii) : no_run l -> squeeze l = l.
Proof.
  induction l as [|c l IH]; intros N; [reflexivity|].
  destruct l as [|d l]; [apply squeeze_one|].
  destruct N as [N1 N2]. rewrite squeeze_two, (IH N2).
  destruct (Ascii.eqb c "_") eqn:C, (Ascii.eqb d "_") eqn:D;
    cbn [andb]; try reflexivity.
  apply Ascii.eqb_eq in C, D. subst. exfalso. now apply N1.
Qed.

Lemma lower_no_run (l : list ascii) :
  Forall (fun c => filename_char c = true \/ c = "_"%char) l ->
  no_run l -> no_run (map to_lower l).
Proof.
  induction 1 as [|c l Pc F IH]; intros N; [exact I|].
  destruct F as [|d l Pd F]; [exact I|].
  destruct N as [N1 N2]. cbn [map no_run]. split; [|now apply IH].
  intros [E1 E2]. apply N1.
  split; [apply (to_lower_underscore c Pc) | apply (to_lower_underscore d Pd)];
    assumption.
Qed.

Lemma mask_id (l : list ascii) :
  Forall (fun c => safe_char c = true) l -> mask l = l.
Proof.
  unfold mask. induction 1 as [|c l S F IH]; [reflexivity|].
  cbn [map]. rewrite IH. f_equal.
  destruct (filename_char c) eqn:E; [reflexivity|].
  unfold safe_char, filename_char in *.
  repeat (apply orb_false_iff in E as [E ?]).
  repeat (apply orb_true_iff in S as [S|S]); try congruence.
  now apply Ascii.eqb_eq in S.
Qed.

Lemma lower_id (l : list ascii) :
  Forall (fun c => safe_char c = true) l -> map to_lower l = l.
Proof.
  induction 1 as [|c l S F IH]; [reflexivity|].
  cbn. now rewrite IH, to_lower_id.
Qed.

(** X22: [sanitizeFilename] returns a name made of lower-case letters,
    digits, dots, hyphens and single underscores only, so it holds no
    path separator; and a name of that form is returned as it is, so
    sanitising twice changes nothing more. *)
Theorem sanitizeFilename_safe_and_idempotent (filename : string) :
  Forall (fun c => safe_char c = true)
    (list_ascii_of_string (sanitizeFilename filename))
  /\ no_run (list_ascii_of_string (sanitizeFilename filename))
  /\ ~ In "/"%char (list_ascii_of_string (sanitizeFilename filename))
  /\ sanitizeFilename (sanitizeFilename filename) = sanitizeFilename filename.
Proof.
  unfold sanitizeFilename at 1 2 3.
  rewrite !list_ascii_of_string_of_list_ascii.
  set (l := squeeze (mask (list_ascii_of_string filename))).
  assert (C : Forall (fun c => filename_char c = true \/ c = "_"%char) l)
    by apply squeeze_chars, mask_chars.
  assert (S : Forall (fun c => safe_char c = true) (map to_lower l)).
  { apply List.Forall_map. eapply List.Forall_impl; [|exact C].
    apply to_lower_safe. }
  assert (N : no_run (map to_lower l))
    by (apply lower_no_run; [exact C | apply squeeze_no_run]).
  split; [exact S|]. split; [exact N|]. split.
  - intros I. rewrite List.Forall_forall in S. apply S in I. discriminate.
  - unfold sanitizeFilename. fold l.
    rewrite list_ascii_of_string_of_list_ascii.
    now rewrite (mask_id _ S), (squeeze_id _ N), (lower_id _ S).
Qed.

End FilenameFacts.

(** ** Dates in messages *)

Section MessageDateFacts.
Context `{Runtime}.

Lemma split_nonempty (c : ascii) (l : list ascii) : split c l <> [].
Proof.
  destruct l as [|x l]; cbn; [discriminate|].
  destruct (split c l); [discriminate|].
  destruct (Ascii.eqb x c); discriminate.
Qed.

Lemma split_end (c : ascii) (a : list ascii) : ~ In c a -> split c a = [a].
Proof.
  induction a as [|x a IH]; intros N; [reflexivity|].
  cbn. rewrite IH by (intros C; apply N; now right).
  destruct (Ascii.eqb x c) eqn:E; [|reflexivity].
  apply Ascii.eqb_eq in E. subst. exfalso. apply N. now left.
Qed.

Lemma split_piece (c : ascii) (a rest : list ascii) :
  ~ In c a -> split c (a ++ c :: rest) = a :: split c rest.
Proof.
  induction a as [|x a IH]; intros N.
  - cbn. rewrite Ascii.eqb_refl.
    destruct (split c rest) eqn:S; [|reflexivity].
    now apply split_nonempty in S.
  - cbn. rewrite IH by (intros C; apply N; now right).
    destruct (Ascii.eqb x c) eqn:E; [|reflexivity].
    apply Ascii.eqb_eq in E. subst. exfalso. apply N. now left.
Qed.

(** [formatDateBR] on three pieces. *)
Lemma formatDateBR_pieces (y m d : string) :
  ~ In "-"%char (list_ascii_of_string y) ->
  ~ In "-"%char (list_ascii_of_string m) ->
  ~ In "-"%char (list_ascii_of_string d) ->
  formatDateBR (y ++ "-" ++ m ++ "-" ++ d) = d ++ "/" ++ m ++ "/" ++ y.
Proof.
  intros Ny Nm Nd. unfold formatDateBR. cbn zeta.
  rewrite !DemoFacts.list_ascii_app.
  change (list_ascii_of_string "-") with ["-"%char].
  cbn [app].
  rewrite (split_piece _ _ _ Ny), (split_piece _ _ _ Nm), (split_end _ _ Nd).
  unfold printed. cbn [nth_error].
  now rewrite !string_of_list_ascii_of_string.
Qed.

Lemma take_digits_split (n : nat) (l ds rest : list ascii) :
  take_digits n l = Some (ds, rest) -> l = (ds ++ rest)%list.
Proof.
  revert l ds rest. induction n as [|n IH]; intros l ds rest E.
  - cbn in E. now inversion E.
  - destruct l as [|c l]; [discriminate|]. cbn in E.
    destruct (is_digit c); [|discriminate].
    destruct (take_digits n l) as [[ds' rest']|] eqn:T; [|discriminate].
    inversion E; subst. cbn. f_equal. now apply IH.
Qed.

Lemma take_slash_split (l rest : list ascii) :
  take_slash l = Some rest -> l = "/"%char :: rest.
Proof.
  destruct l as [|c l]; [discriminate|]. cbn.
  destruct (Ascii.eqb c "/") eqn:E; [|discriminate].
  apply Ascii.eqb_eq in E. intros S. now inversion S; subst.
Qed.

Lemma match_with_slash (n : nat * nat * nat) (l : list ascii)
    (groups : list ascii * list ascii * list ascii) :
  match_with n l = Some groups -> In "/"%char l.
Proof.
  destruct n as [[n1 n2] n3]. unfold match_with.
  destruct (take_digits n1 l) as [[d l1]|] eqn:T; [|discriminate].
  destruct (take_slash l1) as [l2|] eqn:S; [|discriminate].
  intros _. apply take_digits_split in T as ->.
  apply take_slash_split in S as ->.
  apply in_or_app. right. now left.
Qed.

Lemma first_of_none {A B : Type} (f : A -> option B) (l : list A) :
  (forall a, f a = None) -> first_of f l = None.
Proof.
  intros N. induction l as [|a l IH]; [reflexivity|].
  cbn. now rewrite N.
Qed.

(** Without a slash there is no match. *)
Lemma date_match_none (l : list ascii) :
  ~ In "/"%char l -> date_match l = None.
Proof.
  induction l as [|c l IH]; intros N.
  - reflexivity.
  - cbn [date_match].
    assert (M : match_here (c :: l) = None).
    { apply first_of_none. intros n.
      destruct (match_with n (c :: l)) eqn:E; [|reflexivity].
      now apply match_with_slash in E. }
    rewrite M. apply IH. intros I. apply N. now right.
Qed.

(** No match starts at a character that is not a digit. *)
Lemma match_here_skip (c : ascii) (l : list ascii) :
  is_digit c = false -> match_here (c :: l) = None.
Proof. intros D. unfold match_here. cbn. now rewrite D. Qed.

(** The groups of a match at the head of the text. *)
Lemma match_here_found (d m y post : list ascii) :
  Forall (fun c => is_digit c = true) d ->
  Forall (fun c => is_digit c = true) m ->
  Forall (fun c => is_digit c = true) y ->
  (1 <= List.length d <= 2)%nat -> (1 <= List.length m <= 2)%nat ->
  (2 <= List.length y <= 4)%nat ->
  List.length y = 4%nat
  \/ match post with c :: _ => is_digit c = false | [] => True end ->
  match_here (d ++ "/"%char :: m ++ "/"%char :: y ++ post)
  = Some (d, m, y).
Proof.
  intros Fd Fm Fy Ld Lm Ly P.
  destruct d as [|d1 [|d2 [|? ?]]]; cbn [List.length] in Ld; try lia;
    destruct m as [|m1 [|m2 [|? ?]]]; cbn [List.length] in Lm; try lia;
    destruct y as [|y1 [|y2 [|y3 [|y4 [|? ?]]]]]; cbn [List.length] in Ly;
    try lia;
    repeat match goal with
           | H : Forall _ (_ :: _) |- _ =>
               apply List.Forall_cons_iff in H as [? H]
           end;
    try (destruct P as [P|P]; [discriminate P|]; destruct post as [|p post]);
    unfold match_here; cbn;
    repeat match goal with
           | H : is_digit _ = _ |- _ => rewrite H; cbn
           end;
    reflexivity.
Qed.

Lemma date_match_found (pre d m y post : list ascii) :
  Forall (fun c => is_digit c = false) pre ->
  Forall (fun c => is_digit c = true) d ->
  Forall (fun c => is_digit c = true) m ->
  Forall (fun c => is_digit c = true) y ->
  (1 <= List.length d <= 2)%nat -> (1 <= List.length m <= 2)%nat ->
  (2 <= List.length y <= 4)%nat ->
  List.length y = 4%nat
  \/ match post with c :: _ => is_digit c = false | [] => True end ->
  date_match (pre ++ d ++ "/"%char :: m ++ "/"%char :: y ++ post)
  = Some (d, m, y).
Proof.
  intros Fp Fd Fm Fy Ld Lm Ly P.
  induction Fp as [|c pre C Fp IH].
  - cbn [app].
    destruct (d ++ "/"%char :: m ++ "/"%char :: y ++ post)%list eqn:E;
      cbn [date_match]; rewrite <- E;
      now rewrite (match_here_found d m y post).
  - cbn [app date_match]. now rewrite (match_here_skip _ _ C).
Qed.

(** A text with a slash is none of the words. *)
Lemma slash_no_word (expr : string) :
  In "/"%char (list_ascii_of_string expr) ->
  String.eqb expr "today" = false /\ String.eqb expr "hoje" = false
  /\ String.eqb expr "yesterday" = false /\ String.eqb expr "ontem" = false
  /\ String.eqb expr "anteontem" = false.
Proof.
  intros I.
  repeat split; apply String.eqb_neq; intros ->; cbn in I;
    repeat (destruct I as [I|I]; [discriminate I|]); exact I.
Qed.

(** What [parseDate] returns for a date written with slashes. *)
Lemma parseDate_slashed (now : Z) (pre d m y post : string) :
  no_digits pre -> all_digits d -> all_digits m -> all_digits y ->
  (1 <= String.length d <= 2)%nat -> (1 <= String.length m <= 2)%nat ->
  (2 <= String.length y <= 4)%nat ->
  String.length y = 4%nat \/ no_digit_ahead post ->
  parseDate now (pre ++ d ++ "/" ++ m ++ "/" ++ y ++ post)
  = year_text (year (civil_from_days (localDay tzOffset now)))
      (list_ascii_of_string y)
    ++ "-" ++ padStart0 2 m ++ "-" ++ padStart0 2 d.
Proof.
  intros Fp Fd Fm Fy Ld Lm Ly P.
  assert (E : list_ascii_of_string (pre ++ d ++ "/" ++ m ++ "/" ++ y ++ post)
              = (list_ascii_of_string pre ++ list_ascii_of_string d
                 ++ "/"%char :: list_ascii_of_string m
                 ++ "/"%char :: list_ascii_of_string y
                 ++ list_ascii_of_string post)%list).
  { now rewrite !DemoFacts.list_ascii_app. }
  assert (S : In "/"%char
                (list_ascii_of_string
                   (pre ++ d ++ "/" ++ m ++ "/" ++ y ++ post))).
  { rewrite E. apply in_or_app. right. apply in_or_app. right. now left. }
  destruct (slash_no_word _ S) as (W1 & W2 & W3 & W4 & W5).
  unfold parseDate. cbn zeta. rewrite W1, W2, W3, W4, W5. cbn [orb].
  rewrite E, date_match_found;
    rewrite ?length_list_ascii; try assumption.
  - now rewrite !string_of_list_ascii_of_string.
  - destruct P as [P|P]; [now left | right].
    destruct post; [exact I | exact P].
Qed.

Lemma number_of_digits (l : list ascii) (acc : Z) :
  Forall (fun c => is_digit c = true) l ->
  exists n, number_of acc l = Some n.
Proof.
  intros F. revert acc. induction F as [|c l D F IH]; intros acc.
  - cbn. eauto.
  - cbn. unfold digit_value. unfold is_digit in D.
    assert (V : (48 <=? Z.of_N (N_of_ascii c))
                && (Z.of_N (N_of_ascii c) <=? 57) = true).
    { apply andb_true_iff in D as [D1 D2]. apply N.leb_le in D1, D2.
      apply andb_true_iff. split; apply Z.leb_le; lia. }
    rewrite V. apply IH.
Qed.

Lemma number_of_nonneg (l : list ascii) (acc n : Z) :
  0 <= acc -> number_of acc l = Some n -> 0 <= n.
Proof.
  revert acc. induction l as [|c l IH]; intros acc A N.
  - cbn in N. inversion N. lia.
  - cbn in N. unfold digit_value in N.
    destruct ((48 <=? Z.of_N (N_of_ascii c))
              && (Z.of_N (N_of_ascii c) <=? 57)) eqn:V; [|discriminate].
    apply andb_true_iff in V as [V1 V2]. apply Z.leb_le in V1, V2.
    apply (IH (acc * 10 + (Z.of_N (N_of_ascii c) - 48))); [lia | exact N].
Qed.

(** X23: a date written with slashes.  When the lower-cased, trimmed
    expression holds, after a text without digits, one or two digits, a
    slash, one or two digits, a slash and two to four digits (four of
    them, or no digit after them), [parseDateFromMessage] returns year,
    month and day joined by hyphens, month and day padded to two digits
    and a year of two digits moved into the current century; the numbers
    are not checked against the calendar. *)
Theorem parseDateFromMessage_reads_slashed_date
    (toLowerCase trim : string -> string) (now : Z)
    (dateExpression pre d m y post : string) :
  trim (toLowerCase dateExpression)
    = pre ++ d ++ "/" ++ m ++ "/" ++ y ++ post ->
  no_digits pre -> all_digits d -> all_digits m -> all_digits y ->
  (1 <= String.length d <= 2)%nat -> (1 <= String.length m <= 2)%nat ->
  (2 <= String.length y <= 4)%nat ->
  String.length y = 4%nat \/ no_digit_ahead post ->
  exists n,
    number_of 0 (list_ascii_of_string y) = Some n
    /\ 0 <= n
    /\ parseDateFromMessage toLowerCase trim now dateExpression
       = (if (String.length y =? 2)%nat
          then dec (year (civil_from_days (localDay tzOffset now)) / 100 * 100
                    + n)
          else y)
         ++ "-" ++ padStart0 2 m ++ "-" ++ padStart0 2 d.
Proof.
  intros E Fp Fd Fm Fy Ld Lm Ly P.
  destruct (number_of_digits _ 0 Fy) as (n & N).
  exists n. split; [exact N|]. split.
  - apply (number_of_nonneg (list_ascii_of_string y) 0 n); [lia | exact N].
  - unfold parseDateFromMessage. rewrite E.
    rewrite (parseDate_slashed now pre d m y post) by assumption.
    unfold year_text. rewrite length_list_ascii, N.
    now rewrite string_of_list_ascii_of_string.
Qed.

(** X24: words for days, and everything else.  When the lower-cased,
    trimmed expression is today or hoje, [parseDateFromMessage] returns
    today's date; yesterday and ontem give the date of the day before,
    anteontem the one two days before; an expression that is none of the
    last three and holds no slash gives today's date. *)
Theorem parseDateFromMessage_words_and_fallback
    (toLowerCase trim : string -> string) (now : Z)
    (dateExpression : string) :
  (trim (toLowerCase dateExpression) = "today"
   \/ trim (toLowerCase dateExpression) = "hoje" ->
   parseDateFromMessage toLowerCase trim now dateExpression
   = getTodayDate now)
  /\ (trim (toLowerCase dateExpression) = "yesterday"
      \/ trim (toLowerCase dateExpression) = "ontem" ->
      parseDateFromMessage toLowerCase trim now dateExpression
      = formatDate (civil_from_days (localDay tzOffset now - 1)))
  /\ (trim (toLowerCase dateExpression) = "anteontem" ->
      parseDateFromMessage toLowerCase trim now dateExpression
      = formatDate (civil_from_days (localDay tzOffset now - 2)))
  /\ (~ In "/"%char (list_ascii_of_string (trim (toLowerCase dateExpression)))
      -> trim (toLowerCase dateExpression) <> "yesterday"
      -> trim (toLowerCase dateExpression) <> "ontem"
      -> trim (toLowerCase dateExpression) <> "anteontem"
      -> parseDateFromMessage toLowerCase trim now dateExpression
         = getTodayDate now).
Proof.
  unfold parseDateFromMessage.
  generalize (trim (toLowerCase dateExpression)) as expr. intros expr.
  assert (F : forall a b : string, a <> b -> String.eqb a b = false)
    by (intros a b; apply String.eqb_neq).
  split; [|split; [|split]].
  - intros [->| ->]; unfold parseDate, getTodayDate; cbn zeta;
      rewrite String.eqb_refl, ?orb_true_r; reflexivity.
  - intros [->| ->]; unfold parseDate; cbn zeta;
      rewrite String.eqb_refl, !F, ?orb_true_r by discriminate;
      reflexivity.
  - intros ->. unfold parseDate. cbn zeta.
    rewrite String.eqb_refl, !F by discriminate. reflexivity.
  - intros N W1 W2 W3. unfold parseDate, getTodayDate. cbn zeta.
    apply String.eqb_neq in W1, W2, W3. rewrite W1, W2, W3. cbn [orb].
    rewrite (date_match_none _ N).
    now destruct (String.eqb expr "today" || String.eqb expr "hoje").
Qed.

Lemma digit_char_digit (n : Z) :
  0 <= n <= 9 -> is_digit (digit_char n) = true.
Proof.
  intros R. unfold is_digit, digit_char.
  rewrite N_ascii_embedding by lia.
  apply andb_true_iff. split; apply N.leb_le; lia.
Qed.

Lemma digit_not_hyphen (c : ascii) : is_digit c = true -> c <> "-"%char.
Proof. intros D ->. discriminate. Qed.

Lemma two_digits (n : Z) :
  0 <= n <= 99 -> all_digits (two n) /\ String.length (two n) = 2%nat.
Proof.
  intros R. destruct (digits_of_two n R) as [A B].
  split; [|reflexivity].
  repeat constructor; now apply digit_char_digit.
Qed.

Lemma four_digits (n : Z) :
  0 <= n <= 9999 -> all_digits (four n) /\ String.length (four n) = 4%nat.
Proof.
  intros R. destruct (digits_of n R) as (A & B & C & D).
  split; [|reflexivity].
  repeat constructor; now apply digit_char_digit.
Qed.

Lemma all_digits_no_hyphen (s : string) :
  all_digits s -> ~ In "-"%char (list_ascii_of_string s).
Proof.
  intros D I. unfold all_digits in D. rewrite List.Forall_forall in D.
  apply D in I. discriminate.
Qed.

(** X25: the Brazilian format and back.  For a day of the years 1000
    to 9999, [formatDateBR] turns the text of [formatDate] into day,
    month and year separated by slashes, and [parseDateFromMessage]
    turns that text back into the text of [formatDate], whatever the
    current date, provided lower-casing and trimming leave it alone. *)
Theorem formatDateBR_then_parseDateFromMessage (now z : Z)
    (toLowerCase trim : string -> string) :
  four_digit_year z ->
  trim (toLowerCase (formatDateBR (formatDate (civil_from_days z))))
    = formatDateBR (formatDate (civil_from_days z)) ->
  formatDateBR (formatDate (civil_from_days z))
    = two (day (civil_from_days z)) ++ "/"
      ++ two (month (civil_from_days z)) ++ "/"
      ++ four (year (civil_from_days z))
  /\ parseDateFromMessage toLowerCase trim now
       (formatDateBR (formatDate (civil_from_days z)))
     = formatDate (civil_from_days z).
Proof.
  intros Y T.
  pose proof (four_digit_year_range z Y) as R.
  pose proof (civil_from_days_ok z) as O.
  rewrite (formatDate_digits _ R O) in *.
  unfold date_ok in O.
  repeat (apply andb_true_iff in O as [O ?]). rewrite !Z.leb_le in *.
  destruct (four_digits (year (civil_from_days z)) ltac:(lia)) as [Dy Ly].
  destruct (two_digits (month (civil_from_days z)) ltac:(lia)) as [Dm Lm].
  destruct (two_digits (day (civil_from_days z)) ltac:(lia)) as [Dd Ld].
  assert (B : formatDateBR
                (four (year (civil_from_days z)) ++ "-"
                 ++ two (month (civil_from_days z)) ++ "-"
                 ++ two (day (civil_from_days z)))
              = two (day (civil_from_days z)) ++ "/"
                ++ two (month (civil_from_days z)) ++ "/"
                ++ four (year (civil_from_days z)))
    by (apply formatDateBR_pieces; now apply all_digits_no_hyphen).
  split; [exact B|].
  unfold parseDateFromMessage. rewrite T, B.
  pose proof (parseDate_slashed now "" (two (day (civil_from_days z)))
                (two (month (civil_from_days z)))
                (four (year (civil_from_days z))) "") as P.
  rewrite append_nil_r in P.
  change ("" ++ two (day (civil_from_days z)) ++ "/"
          ++ two (month (civil_from_days z)) ++ "/"
          ++ four (year (civil_from_days z)))
    with (two (day (civil_from_days z)) ++ "/"
          ++ two (month (civil_from_days z)) ++ "/"
          ++ four (year (civil_from_days z))) in P.
  rewrite (P (List.Forall_nil _) Dd Dm Dy ltac:(lia) ltac:(lia) ltac:(lia)
             (or_introl Ly)).
  unfold year_text. rewrite length_list_ascii, Ly. cbn [Nat.eqb].
  rewrite string_of_list_ascii_of_string.
  unfold padStart0. now rewrite Lm, Ld.
Qed.

End MessageDateFacts.

(** ** The properties on the examples *)

Module Visits.
Import Demo.
Import Scenario.
Import Tour.

Lemma validateSession_sliding_witness :
  sessions desk !! "u1" = Some visitor
  /\ paced (timeoutMs desk) (lastActivity visitor) visits
  /\ Forall (fun answer => answer = true)
       (validations desk "u1" (token visitor) visits).
Proof.
  assert (E : sessions desk !! "u1" = Some visitor)
    by apply lookup_singleton_eq.
  assert (P : paced (timeoutMs desk) (lastActivity visitor) visits)
    by (cbn; lia).
  split; [exact E|]. split; [exact P|].
  exact (validateSession_sliding desk "u1" visitor visits E P).
Defined.

(** The first encrypted add of a process started without [DEVICE_ID]. *)
Lemma master_key_is_derived_once_witness :
  @DEVICE_ID runtime = None
  /\ MASTER_KEY state0 = None
  /\ MASTER_KEY (snd (@addRecord runtime state0 t_a "k3x9q2m1z" iv16 user
                        r_a true))
     = Some (@scryptSync runtime "gyneco-bot-default-key" "salt" 32).
Proof.
  split; [reflexivity|]. split; [reflexivity|].
  apply (@master_key_is_derived_once runtime state0 t_a "k3x9q2m1z" iv16
           user "" 0 r_a doc1 true
           (snd (@addRecord runtime state0 t_a "k3x9q2m1z" iv16 user
                   r_a true))
           "gyneco-bot-default-key");
    [right; split; [left|]; reflexivity
    | right; right; left; reflexivity
    | reflexivity
    | reflexivity].
Defined.

Lemma encryptData_ivs_tell_blobs_apart_witness :
  @envelope_parses runtime
  /\ iv16 <> iv_00
  /\ fst (@encryptData runtime None iv16 "ola")
     = Ok (envelope iv16
             (tag_of key0 iv16 (rev (list_byte_of_string "ola")))
             (rev (list_byte_of_string "ola")))
  /\ fst (@encryptData runtime None iv_00 "ola")
     <> Ok (envelope iv16
              (tag_of key0 iv16 (rev (list_byte_of_string "ola")))
              (rev (list_byte_of_string "ola"))).
Proof.
  assert (N : iv16 <> iv_00) by (intros E; inversion E).
  assert (G : fst (@encryptData runtime None iv16 "ola")
              = Ok (envelope iv16
                      (tag_of key0 iv16 (rev (list_byte_of_string "ola")))
                      (rev (list_byte_of_string "ola")))).
  { rewrite (@encryptData_ok runtime None iv16 "ola"
               (rev (list_byte_of_string "ola"))
               (tag_of key0 iv16 (rev (list_byte_of_string "ola"))));
      reflexivity. }
  split; [exact DemoFacts.envelope_parses|]. split; [exact N|].
  split; [exact G|].
  exact (@encryptData_ivs_tell_blobs_apart runtime None None iv16 iv_00
           "ola" "ola" _ DemoFacts.envelope_parses N G).
Defined.

Lemma valid_phone_numbers_get_their_own_file_witness :
  isValidPhoneNumber user = true
  /\ (exists number,
        user = number ++ "@s.whatsapp.net"
        /\ @sanitizePhoneNumber user = number
        /\ (10 <= String.length number <= 15)%nat)
  /\ (isValidPhoneNumber other = true -> user <> other ->
      @getUserDataPath runtime user <> @getUserDataPath runtime other).
Proof.
  assert (V : isValidPhoneNumber user = true) by (vm_compute; reflexivity).
  split; [exact V|].
  exact (@valid_phone_numbers_get_their_own_file runtime user other V).
Defined.

End Visits.

Module Stores.
Import Demo.
Import Scenario.
Import Tour.
Import Examples.

Lemma users_are_isolated_witness :
  sanitizePhoneNumber user <> sanitizePhoneNumber other
  /\ fst (@loadUserData runtime (snd (add state0 t_a r_a)) t_b other false)
     = fst (@loadUserData runtime state0 t_b other false).
Proof.
  assert (N : sanitizePhoneNumber user <> sanitizePhoneNumber other)
    by (intros E; vm_compute in E; discriminate E).
  split; [exact N|].
  exact (proj1 (@users_are_isolated runtime state0 t_a "k3x9q2m1z" [] user
                  other r_a doc1 false false t_b N)).
Defined.

Lemma load_after_restart_witness :
  @JSON_roundtrip runtime /\ @gcm_correct runtime
  /\ @envelope_parses runtime
  /\ @key_ok runtime (MASTER_KEY state0)
  /\ (path0 ∉ unreadable (fs state0))
  /\ fst (fst (@saveUserData runtime state0 t_a iv16 user doc1 true)) = true
  /\ fst (@loadUserData runtime
            {| MASTER_KEY := None;
               fs := fs (snd (@saveUserData runtime state0 t_a iv16 user doc1
                                true)) |} t_b user true)
     = snd (fst (@saveUserData runtime state0 t_a iv16 user doc1 true)).
Proof.
  assert (K : @key_ok runtime (MASTER_KEY state0)) by (left; reflexivity).
  assert (T : fst (fst (@saveUserData runtime state0 t_a iv16 user doc1 true))
              = true) by reflexivity.
  assert (S : @saveUserData runtime state0 t_a iv16 user doc1 true
              = (true,
                 snd (fst (@saveUserData runtime state0 t_a iv16 user doc1
                             true)),
                 snd (@saveUserData runtime state0 t_a iv16 user doc1 true))).
  { destruct (@saveUserData runtime state0 t_a iv16 user doc1 true)
      as [[ok d] s]. cbn [fst snd] in *. now rewrite T. }
  split; [exact DemoFacts.JSON_roundtrip|].
  split; [exact DemoFacts.gcm_correct|].
  split; [exact DemoFacts.envelope_parses|].
  split; [exact K|]. split; [apply not_elem_of_empty|]. split; [exact T|].
  exact (@load_after_restart runtime state0 t_a iv16 user doc1 true _ _ t_b
           DemoFacts.JSON_roundtrip DemoFacts.gcm_correct
           DemoFacts.envelope_parses K (not_elem_of_empty _) S).
Defined.

(** The store after the record a, when the record b is added. *)
Lemma addRecord_keeps_every_record_witness :
  @JSON_roundtrip runtime /\ @gcm_correct runtime
  /\ @envelope_parses runtime
  /\ (path0 ∉ unreadable (fs s1))
  /\ add s1 t_b r_b = (true, s_ab)
  /\ Permutation (stored s_ab) (made t_b r_b :: stored s1)
  /\ exists m,
       metadata (fst (@loadUserData runtime s_ab t_b user false)) = Some m
       /\ totalRecords m = Some (1 + Z.of_nat (List.length (stored s1))).
Proof.
  pose proof (add_usable _ t_a r_a state0_usable) as U1. fold s1 in U1.
  assert (A : add s1 t_b r_b = (true, s_ab)) by now apply add_true.
  split; [exact DemoFacts.JSON_roundtrip|].
  split; [exact DemoFacts.gcm_correct|].
  split; [exact DemoFacts.envelope_parses|].
  split; [exact (proj2 U1)|]. split; [exact A|].
  exact (@addRecord_keeps_every_record runtime s1 t_b _ [] user r_b false
           s_ab t_b DemoFacts.JSON_roundtrip DemoFacts.gcm_correct
           DemoFacts.envelope_parses (proj2 U1) A).
Defined.

Lemma getRecordsByDate_after_add_witness :
  @JSON_roundtrip runtime /\ @gcm_correct runtime
  /\ @envelope_parses runtime
  /\ (path0 ∉ unreadable (fs s1))
  /\ add s1 t_b r_b = (true, s_ab)
  /\ r_b !! "date" = None
  /\ In (made t_b r_b)
       (fst (@getRecordsByDate runtime s_ab t_b user
               (@getTodayDate runtime t_b) false)).
Proof.
  pose proof (add_usable _ t_a r_a state0_usable) as U1. fold s1 in U1.
  assert (A : add s1 t_b r_b = (true, s_ab)) by now apply add_true.
  assert (D : r_b !! "date" = None)
    by (apply lookup_singleton_ne; discriminate).
  split; [exact DemoFacts.JSON_roundtrip|].
  split; [exact DemoFacts.gcm_correct|].
  split; [exact DemoFacts.envelope_parses|].
  split; [exact (proj2 U1)|]. split; [exact A|]. split; [exact D|].
  exact (proj1 (proj2
           (@getRecordsByDate_after_add runtime s1 t_b _ [] user r_b false
              s_ab t_b DemoFacts.JSON_roundtrip DemoFacts.gcm_correct
              DemoFacts.envelope_parses (proj2 U1) A)) D).
Defined.

Lemma addRecord_overwrites_unloadable_file_witness :
  files (fs spoiled) !! path0 = Some "not a document"
  /\ @JSON_parse runtime "not a document" = None
  /\ readOnly (fs spoiled) = false
  /\ add spoiled t_a r_a
     = (true,
        {| MASTER_KEY := None;
           fs := {| files :=
                      <[path0 :=
                          @JSON_stringify runtime
                            (@restartedUserData runtime t_a "k3x9q2m1z" user
                               r_a)]>
                        (files (fs spoiled));
                    unreadable := ∅; readOnly := false |} |}).
Proof.
  assert (F : files (fs spoiled) !! path0 = Some "not a document")
    by apply lookup_singleton_eq.
  assert (P : @JSON_parse runtime "not a document" = None) by reflexivity.
  split; [exact F|]. split; [exact P|]. split; [reflexivity|].
  exact (proj1 (@addRecord_overwrites_unloadable_file runtime spoiled t_a
                  "k3x9q2m1z" [] user r_a "not a document" F (or_introl P)
                  eq_refl)).
Defined.

Lemma addRecord_newest_first_witness :
  @JSON_roundtrip runtime /\ @gcm_correct runtime
  /\ @envelope_parses runtime
  /\ (path0 ∉ unreadable (fs s1))
  /\ add s1 t_b r_b = (true, s_ab)
  /\ @sorted_desc runtime (stored s1)
  /\ @time_of runtime (made t_b r_b) = Some t_b
  /\ Forall (fun y => exists ty, @time_of runtime y = Some ty /\ ty < t_b)
       (stored s1)
  /\ stored s_ab = made t_b r_b :: stored s1.
Proof.
  pose proof (add_usable _ t_a r_a state0_usable) as U1. fold s1 in U1.
  assert (A : add s1 t_b r_b = (true, s_ab)) by now apply add_true.
  assert (S : @sorted_desc runtime (stored s1))
    by (rewrite stored_s1; constructor).
  assert (F : Forall (fun y => exists ty,
                        @time_of runtime y = Some ty /\ ty < t_b)
                (stored s1)).
  { rewrite stored_s1. constructor; [|constructor].
    exists t_a. split; [exact time_a | reflexivity]. }
  split; [exact DemoFacts.JSON_roundtrip|].
  split; [exact DemoFacts.gcm_correct|].
  split; [exact DemoFacts.envelope_parses|].
  split; [exact (proj2 U1)|]. split; [exact A|]. split; [exact S|].
  split; [exact time_b|]. split; [exact F|].
  exact (proj1
           (@addRecord_newest_first runtime s1 t_b _ [] user r_b false s_ab
              t_b t_b DemoFacts.JSON_roundtrip DemoFacts.gcm_correct
              DemoFacts.envelope_parses (proj2 U1) A S time_b) F).
Defined.

End Stores.

Module Calendar.
Import Demo.
Import Scenario.
Import Tour.
Import Examples.

Lemma formatDate_order_is_calendar_order_witness :
  four_digit_year day_7 /\ four_digit_year day_10
  /\ (lex_le (formatDate (civil_from_days day_7))
        (formatDate (civil_from_days day_10))
      <-> day_7 <= day_10)
  /\ (formatDate (civil_from_days day_7) = formatDate (civil_from_days day_10)
      <-> day_7 = day_10).
Proof.
  assert (A : four_digit_year day_7) by (unfold four_digit_year, day_7; lia).
  assert (B : four_digit_year day_10)
    by (unfold four_digit_year, day_10; lia).
  split; [exact A|]. split; [exact B|].
  exact (formatDate_order_is_calendar_order day_7 day_10 A B).
Defined.

Lemma getRecentRecords_by_calendar_witness :
  In d_3 (fst (@getAllRecords runtime week t_a user false))
  /\ d_3 !! "date" = Some (formatDate (civil_from_days day_7))
  /\ four_digit_year day_7
  /\ four_digit_year (localDay (@tzOffset runtime) t_a - 3)
  /\ (In d_3 (fst (@getRecentRecords runtime week t_a user 3 false))
      <-> localDay (@tzOffset runtime) t_a - 3 <= day_7).
Proof.
  assert (I : In d_3 (fst (@getAllRecords runtime week t_a user false)))
    by (rewrite week_records; right; left; reflexivity).
  assert (E : d_3 !! "date" = Some (formatDate (civil_from_days day_7)))
    by (apply lookup_insert_eq).
  assert (A : four_digit_year day_7) by (unfold four_digit_year, day_7; lia).
  assert (L : four_digit_year (localDay (@tzOffset runtime) t_a - 3))
    by (vm_compute; split; discriminate).
  split; [exact I|]. split; [exact E|]. split; [exact A|]. split; [exact L|].
  exact (@getRecentRecords_by_calendar runtime week t_a user 3 false d_3
           day_7 I E A L).
Defined.

Lemma addRecord_then_getRecentRecords_witness :
  @JSON_roundtrip runtime /\ @gcm_correct runtime
  /\ @envelope_parses runtime
  /\ (path0 ∉ unreadable (fs state0))
  /\ add state0 t_a r_a = (true, s1)
  /\ r_a !! "date" = None
  /\ four_digit_year (localDay (@tzOffset runtime) t_a)
  /\ four_digit_year (localDay (@tzOffset runtime) t_b - 7)
  /\ localDay (@tzOffset runtime) t_b - 7 <= localDay (@tzOffset runtime) t_a
  /\ In (made t_a r_a) (fst (@getRecentRecords runtime s1 t_b user 7 false)).
Proof.
  pose proof state0_usable as U0.
  assert (A : add state0 t_a r_a = (true, s1)) by now apply add_true.
  assert (D : r_a !! "date" = None)
    by (apply lookup_singleton_ne; discriminate).
  assert (Y : four_digit_year (localDay (@tzOffset runtime) t_a))
    by (vm_compute; split; discriminate).
  assert (L : four_digit_year (localDay (@tzOffset runtime) t_b - 7))
    by (vm_compute; split; discriminate).
  assert (W : localDay (@tzOffset runtime) t_b - 7
              <= localDay (@tzOffset runtime) t_a)
    by (vm_compute; discriminate).
  split; [exact DemoFacts.JSON_roundtrip|].
  split; [exact DemoFacts.gcm_correct|].
  split; [exact DemoFacts.envelope_parses|].
  split; [exact (proj2 U0)|]. split; [exact A|]. split; [exact D|].
  split; [exact Y|]. split; [exact L|]. split; [exact W|].
  exact (@addRecord_then_getRecentRecords runtime state0 t_a _ [] user r_a
           false s1 t_b 7 DemoFacts.JSON_roundtrip DemoFacts.gcm_correct
           DemoFacts.envelope_parses (proj2 U0) A D Y L W).
Defined.

(** The expression 31/02/25 read on 2025-01-10: the thirty-first of
    February is not refused. *)
Lemma parseDateFromMessage_reads_slashed_date_witness :
  no_digits "" /\ all_digits "31" /\ all_digits "02" /\ all_digits "25"
  /\ exists n,
       number_of 0 (list_ascii_of_string "25") = Some n
       /\ 0 <= n
       /\ @parseDateFromMessage runtime (fun s => s) (fun s => s) t_a
            "31/02/25"
          = (if (String.length "25" =? 2)%nat
             then dec (year (civil_from_days
                               (localDay (@tzOffset runtime) t_a))
                       / 100 * 100 + n)
             else "25")
            ++ "-" ++ padStart0 2 "02" ++ "-" ++ padStart0 2 "31".
Proof.
  assert (P : no_digits "") by constructor.
  assert (D : all_digits "31") by (repeat constructor).
  assert (M : all_digits "02") by (repeat constructor).
  assert (Y : all_digits "25") by (repeat constructor).
  split; [exact P|]. split; [exact D|]. split; [exact M|].
  split; [exact Y|].
  apply (@parseDateFromMessage_reads_slashed_date runtime (fun s => s)
           (fun s => s) t_a "31/02/25" "" "31" "02" "25" "" eq_refl P D M Y);
    cbn; lia.
Defined.

Lemma formatDateBR_then_parseDateFromMessage_witness :
  four_digit_year day_10
  /\ formatDateBR (formatDate (civil_from_days day_10))
     = two (day (civil_from_days day_10)) ++ "/"
       ++ two (month (civil_from_days day_10)) ++ "/"
       ++ four (year (civil_from_days day_10))
  /\ @parseDateFromMessage runtime (fun s => s) (fun s => s) t_a
       (formatDateBR (formatDate (civil_from_days day_10)))
     = formatDate (civil_from_days day_10).
Proof.
  assert (A : four_digit_year day_10)
    by (unfold four_digit_year, day_10; lia).
  split; [exact A|].
  exact (@formatDateBR_then_parseDateFromMessage runtime t_a day_10
           (fun s => s) (fun s => s) A eq_refl).
Defined.

End Calendar.
